(** * Minimum-area enclosing triangle (bugtest_minEnclosingTriangle.cpp)

    A shallow embedding of the helper namespace [minEnclosingTriangle] of
    [src/bugtest_minEnclosingTriangle.cpp] and the properties of it that the
    specification states.

    - [double] values are the kernel's binary64 floats ([PrimFloat.float]);
      [float] values (the coordinates of [cv::Point2f]) are the binary64
      floats that are representable in binary32, and every operation the
      source performs on two [float] operands is rounded to binary32
      ([FLT_EVAL_METHOD = 0]).
    - [unsigned int] values are integers modulo [2^32].
    - [std::vector<cv::Point2f>] is [list Point2f].
    - [CV_Error], [CV_Assert] and loops that may not end are the three ways a
      call can fail to return; they are the constructors [Throw] and
      [OutOfFuel] of [outcome].
    - [std::atan2] belongs to the C library; the development is parametric in
      it (a [Section] variable). *)

From Stdlib Require Import ZArith List Bool Lia Relations Floats.
Import ListNotations.

(** ** Outcomes of a call *)

(** The three fatal conditions of the source: the two [CV_Error] calls and
    the [CV_Assert] of [lineEquationDeterminedByPoints]. *)
Inductive exn : Set :=
| ERR_SIDE_B_GAMMA
| ERR_VERTEX_C_ON_SIDE_B
| ASSERT_NOT_EQUAL_POINTS.

Inductive outcome (A : Type) : Type :=
| Ret (a : A)
| Throw (e : exn)
| OutOfFuel.

Arguments Ret {A} a.
Arguments Throw {A} e.
Arguments OutOfFuel {A}.

Definition bind {A B : Type} (m : outcome A) (k : A -> outcome B) : outcome B :=
  match m with
  | Ret a => k a
  | Throw e => Throw e
  | OutOfFuel => OutOfFuel
  end.

Declare Scope outcome_scope.
Delimit Scope outcome_scope with outcome.
Notation "x <- m ;; k" := (bind m (fun x => k))
  (at level 61, m at next level, right associativity) : outcome_scope.
Notation "' p <- m ;; k" := (bind m (fun p => k))
  (at level 61, p pattern, m at next level, right associativity) : outcome_scope.

(** ** Unsigned indices *)

Section Indices.
Local Open Scope Z_scope.

Definition UINT_MODULUS : Z := 2 ^ 32.

(** Wrap-around of [unsigned int] arithmetic. *)
Definition uint (z : Z) : Z := z mod UINT_MODULUS.

(** [(index + 1) % nrOfPoints].  The source divides by [nrOfPoints]; for
    [nrOfPoints = 0] that is undefined there ([Z.modulo] then returns its
    first argument). *)
Definition successor (index nrOfPoints : Z) : Z :=
  uint (index + 1) mod nrOfPoints.

(** [(index == 0) ? (nrOfPoints - 1) : (index - 1)]. *)
Definition predecessor (index nrOfPoints : Z) : Z :=
  if index =? 0 then uint (nrOfPoints - 1) else index - 1.

(** [advance(index, nrOfPoints)] assigns [successor] to its reference
    argument. *)
Definition advance (index nrOfPoints : Z) : Z := successor index nrOfPoints.
End Indices.

(** ** Floating-point numbers *)

Section Numbers.
Local Open Scope float_scope.

(** [#define EPSILON 1E-5], the binary64 number nearest to it. *)
Definition EPSILON : float := 0x1.4f8b588e368f1p-17.

(** [CV_PI], 3.1415926535897932384626433832795 as a [double]. *)
Definition CV_PI : float := 0x1.921fb54442d18p+1.

(** [std::numeric_limits<double>::max()]. *)
Definition DBL_MAX : float := 0x1.fffffffffffffp+1023.

(** [static_cast<float>(d)]: round to nearest-even binary32 (24 bits of
    precision, largest exponent 128), overflowing to an infinity. *)
Definition to_float (d : float) : float :=
  match Prim2SF d with
  | S754_finite s m e => SF2Prim (binary_round 24 128 s m e)
  | _ => d
  end.

(** Arithmetic on two [float] operands. *)
Definition fadd (a b : float) : float := to_float (a + b).
Definition fsub (a b : float) : float := to_float (a - b).
Definition fmul (a b : float) : float := to_float (a * b).
Definition fdiv (a b : float) : float := to_float (a / b).

Definition INT_MIN : Z := (- 2 ^ 31)%Z.
Definition INT_MAX : Z := (2 ^ 31 - 1)%Z.

(** [(int) d]: truncation toward zero.  Outside the range of [int], and
    for a NaN, the conversion is undefined in C++; the model returns
    [INT_MIN] there, as the x86-64 conversion instruction does. *)
Definition to_int (d : float) : Z :=
  match Prim2SF d with
  | S754_zero _ => 0%Z
  | S754_finite s m e =>
      let t := match e with
               | Z0 => Zpos m
               | Zpos p => (Zpos m * 2 ^ Zpos p)%Z
               | Zneg p => (Zpos m / 2 ^ Zpos p)%Z
               end in
      let v := if s then (- t)%Z else t in
      if ((INT_MIN <=? v) && (v <=? INT_MAX))%Z then v else INT_MIN
  | _ => INT_MIN
  end.

(** [std::max(a, b)] is [(a < b) ? b : a]. *)
Definition std_max (a b : float) : float := if a <? b then b else a.

Definition maximum (number1 number2 number3 : float) : float :=
  std_max (std_max number1 number2) number3.

Definition almostEqual (number1 number2 : float) : bool :=
  abs (number1 - number2) <=? EPSILON * maximum 1 (abs number1) (abs number2).

Definition greaterOrEqual (number1 number2 : float) : bool :=
  (number2 <? number1) || almostEqual number1 number2.

Definition lessOrEqual (number1 number2 : float) : bool :=
  (number1 <? number2) || almostEqual number1 number2.

Definition sign (number : float) : Z :=
  if 0 <? number then 1%Z else if number <? 0 then (-1)%Z else 0%Z.
End Numbers.

(** ** Points and the geometry primitives *)

(** [cv::Point2f]: two [float] coordinates. *)
Record Point2f : Set := Point { x : float; y : float }.

(** The value of a default-constructed [cv::Point2f]. *)
Definition origin : Point2f := Point 0 0.

(** [polygon[i]].  The source indexes the vector without a bound check; an
    index outside it is undefined there and reads [origin] here.  Inside the
    sweep every index is below [nrOfPoints] (see [successor_range] and
    [predecessor_range]). *)
Definition at_ (polygon : list Point2f) (i : Z) : Point2f :=
  nth (Z.to_nat i) polygon origin.

Section Geometry.
Local Open Scope float_scope.

Definition areEqualPoints (point1 point2 : Point2f) : bool :=
  almostEqual point1.(x) point2.(x) && almostEqual point1.(y) point2.(y).

Definition areIdenticalLines (a1 b1 c1 a2 b2 c2 : float) : bool :=
  let a1B2 := a1 * b2 in
  let a2B1 := a2 * b1 in
  let a1C2 := a1 * c2 in
  let a2C1 := a2 * c1 in
  let b1C2 := b1 * c2 in
  let b2C1 := b2 * c1 in
  almostEqual a1B2 a2B1 && almostEqual b1C2 b2C1 && almostEqual a1C2 a2C1.

(** [lineIntersection(a1, b1, c1, a2, b2, c2, intersection)]: [Some] of
    the point written to [intersection] when the source returns [true],
    [None] when it returns [false] (and leaves [intersection] alone). *)
Definition lineIntersection (a1 b1 c1 a2 b2 c2 : float) : option Point2f :=
  let det := (a1 * b2) - (a2 * b1) in
  if negb (almostEqual det 0) then
    Some (Point (to_float (((c1 * b2) - (c2 * b1)) / det))
                (to_float (((c2 * a1) - (c1 * a2)) / det)))
  else None.

(** The overload of [lineIntersection] on two pairs of points. *)
Definition lineIntersection_points (a1 b1 a2 b2 : Point2f) : option Point2f :=
  let A1 := fsub b1.(y) a1.(y) in
  let B1 := fsub a1.(x) b1.(x) in
  let C1 := (a1.(x) * A1) + (a1.(y) * B1) in
  let A2 := fsub b2.(y) a2.(y) in
  let B2 := fsub a2.(x) b2.(x) in
  let C2 := (a2.(x) * A2) + (a2.(y) * B2) in
  let det := (A1 * B2) - (A2 * B1) in
  if negb (almostEqual det 0) then
    Some (Point (to_float (((C1 * B2) - (C2 * B1)) / det))
                (to_float (((C2 * A1) - (C1 * A2)) / det)))
  else None.

(** [lineEquationDeterminedByPoints(p, q, a, b, c)]: the three
    coefficients, or the failure of its [CV_Assert]. *)
Definition lineEquationDeterminedByPoints (p q : Point2f)
  : outcome (float * float * float) :=
  if areEqualPoints p q then Throw ASSERT_NOT_EQUAL_POINTS
  else
    let a := fsub q.(y) p.(y) in
    let b := fsub p.(x) q.(x) in
    let c := ((- p.(y)) * b) - (p.(x) * a) in
    Ret (a, b, c).

(** [lineEquationParameters(p, q)]: the vector [a, b, c]. *)
Definition lineEquationParameters (p q : Point2f) : outcome (list float) :=
  bind (lineEquationDeterminedByPoints p q)
       (fun '(a, b, c) => Ret [a; b; c]).

(** [params[i]] on a vector of doubles. *)
Definition param (params : list float) (i : nat) : float := nth i params 0.

Definition areOnTheSameSideOfLine (p1 p2 a b : Point2f) : outcome bool :=
  bind (lineEquationDeterminedByPoints a b)
       (fun '(a1, b1, c1) =>
          let p1OnLine := (a1 * p1.(x)) + (b1 * p1.(y)) + c1 in
          let p2OnLine := (a1 * p2.(x)) + (b1 * p2.(y)) + c1 in
          Ret (sign p1OnLine =? sign p2OnLine)%Z).

Definition distanceBtwPoints (a b : Point2f) : float :=
  let xDiff := fsub a.(x) b.(x) in
  let yDiff := fsub a.(y) b.(y) in
  sqrt ((xDiff * xDiff) + (yDiff * yDiff)).

Definition isPointOnLineSegment (point lineSegmentStart lineSegmentEnd : Point2f)
  : bool :=
  let d1 := distanceBtwPoints point lineSegmentStart in
  let d2 := distanceBtwPoints point lineSegmentEnd in
  let lineSegmentLength := distanceBtwPoints lineSegmentStart lineSegmentEnd in
  almostEqual (d1 + d2) lineSegmentLength.

Definition distanceFromPointToLine (a linePointB linePointC : Point2f) : float :=
  let term1 := fsub linePointC.(x) linePointB.(x) in
  let term2 := fsub linePointB.(y) a.(y) in
  let term3 := fsub linePointB.(x) a.(x) in
  let term4 := fsub linePointC.(y) linePointB.(y) in
  let nominator := abs ((term1 * term2) - (term3 * term4)) in
  let denominator := sqrt ((term1 * term1) + (term4 * term4)) in
  if denominator =? 0 then 0 else nominator / denominator.

(** The two sums are sums of [float] products, so they are rounded to
    binary32; their difference is a [double]. *)
Definition areaOfTriangle (a b c : Point2f) : float :=
  let posTerm := fadd (fadd (fmul a.(x) b.(y)) (fmul a.(y) c.(x))) (fmul b.(x) c.(y)) in
  let negTerm := fadd (fadd (fmul b.(y) c.(x)) (fmul a.(x) c.(y))) (fmul a.(y) b.(x)) in
  let determinant := posTerm - negTerm in
  abs determinant / 2.

Definition middlePoint (a b : Point2f) : Point2f :=
  let middleX := fdiv (fadd a.(x) b.(x)) 2 in
  let middleY := fdiv (fadd a.(y) b.(y)) 2 in
  Point (to_float middleX) (to_float middleY).

(** *** Angles that do not depend on the arctangent *)

Definition oppositeAngle (angle : float) : float :=
  if 180 <? angle then angle - 180 else angle + 180.

(** [(((int)(angle2 - angle3)) % 180) > 0] chooses the branch; [%] is the
    remainder of the division that truncates, [Z.rem]. *)
Definition isAngleBetween (angle1 angle2 angle3 : float) : bool :=
  if (0 <? Z.rem (to_int (angle2 - angle3)) 180)%Z then
    (angle3 <? angle1) && (angle1 <? angle2)
  else
    (angle2 <? angle1) && (angle1 <? angle3).

Definition isAngleBetweenNonReflex (angle1 angle2 angle3 : float) : bool :=
  if 180 <? abs (angle2 - angle3) then
    if angle3 <? angle2 then
      ((angle2 <? angle1) && lessOrEqual angle1 360)
      || (lessOrEqual 0 angle1 && (angle1 <? angle3))
    else
      ((angle3 <? angle1) && lessOrEqual angle1 360)
      || (lessOrEqual 0 angle1 && (angle1 <? angle2))
  else isAngleBetween angle1 angle2 angle3.

Definition isOppositeAngleBetweenNonReflex (angle1 angle2 angle3 : float) : bool :=
  let angle1Opposite := oppositeAngle angle1 in
  isAngleBetweenNonReflex angle1Opposite angle2 angle3.

(** [isFlushAngleBtwPredAndSucc(angleFlushEdge, anglePred, angleSucc)]:
    the result and the value of the reference argument [angleFlushEdge]
    after the call. *)
Definition isFlushAngleBtwPredAndSucc (angleFlushEdge anglePred angleSucc : float)
  : bool * float :=
  if isAngleBetweenNonReflex angleFlushEdge anglePred angleSucc then
    (true, angleFlushEdge)
  else if isOppositeAngleBetweenNonReflex angleFlushEdge anglePred angleSucc then
    (true, oppositeAngle angleFlushEdge)
  else (false, angleFlushEdge).

Definition isGammaAngleEqualTo (gammaAngle angle : float) : bool :=
  almostEqual gammaAngle angle.

Definition isGammaAngleBtw (gammaAngle angle1 angle2 : float) : bool :=
  isAngleBetweenNonReflex gammaAngle angle1 angle2.
End Geometry.

(** ** Height, gamma and the construction of candidate triangles *)

Section Height.
Local Open Scope float_scope.
Local Open Scope outcome_scope.

Variable polygon : list Point2f.
Variable nrOfPoints : Z.

(** [height(polygonPoint, polygon, nrOfPoints, c)], the overload on a
    point. *)
Definition height_of_point (polygonPoint : Point2f) (c : Z) : float :=
  let pointC := at_ polygon c in
  let pointCPredecessor := at_ polygon (predecessor c nrOfPoints) in
  distanceFromPointToLine polygonPoint pointC pointCPredecessor.

(** [height(polygonPointIndex, polygon, nrOfPoints, c)]. *)
Definition height (polygonPointIndex c : Z) : float :=
  let pointC := at_ polygon c in
  let pointCPredecessor := at_ polygon (predecessor c nrOfPoints) in
  let polygonPoint := at_ polygon polygonPointIndex in
  distanceFromPointToLine polygonPoint pointC pointCPredecessor.

(** The overload of [areIdenticalLines] on parameter vectors. *)
Definition areIdenticalLines_params (side1Params side2Params : list float)
           (sideCExtraParam : float) : bool :=
  areIdenticalLines (param side1Params 0) (param side1Params 1) (- param side1Params 2)
                    (param side2Params 0) (param side2Params 1)
                    (- param side2Params 2 - sideCExtraParam)
  || areIdenticalLines (param side1Params 0) (param side1Params 1) (- param side1Params 2)
                       (param side2Params 0) (param side2Params 1)
                       (- param side2Params 2 + sideCExtraParam).

(** [areIntersectingLines]: [Some] of the two points written when the
    source returns [true].  The second intersection is computed only when
    the first exists. *)
Definition areIntersectingLines (side1Params side2Params : list float)
           (sideCExtraParam : float) : option (Point2f * Point2f) :=
  match lineIntersection (param side1Params 0) (param side1Params 1) (- param side1Params 2)
                         (param side2Params 0) (param side2Params 1)
                         (- param side2Params 2 - sideCExtraParam) with
  | None => None
  | Some intersectionPoint1 =>
      match lineIntersection (param side1Params 0) (param side1Params 1) (- param side1Params 2)
                             (param side2Params 0) (param side2Params 1)
                             (- param side2Params 2 + sideCExtraParam) with
      | None => None
      | Some intersectionPoint2 => Some (intersectionPoint1, intersectionPoint2)
      end
  end.

(** [findGammaIntersectionPoints]: [Ret (Some (p1, p2))] when the source
    returns [true] with the two points written, [Ret None] when it returns
    [false]. *)
Definition findGammaIntersectionPoints (c polygonPointIndex : Z)
           (side1StartVertex side1EndVertex side2StartVertex side2EndVertex : Point2f)
  : outcome (option (Point2f * Point2f)) :=
  side1Params <- lineEquationParameters side1StartVertex side1EndVertex ;;
  side2Params <- lineEquationParameters side2StartVertex side2EndVertex ;;
  let polygonPointHeight := height polygonPointIndex c in
  let distFormulaDenom :=
    sqrt ((param side2Params 0 * param side2Params 0)
          + (param side2Params 1 * param side2Params 1)) in
  let sideCExtraParam := 2 * polygonPointHeight * distFormulaDenom in
  match areIntersectingLines side1Params side2Params sideCExtraParam with
  | None => Ret None
  | Some (intersectionPoint1, intersectionPoint2) =>
      if areIdenticalLines_params side1Params side2Params sideCExtraParam then
        Ret (Some (side1StartVertex, side1EndVertex))
      else Ret (Some (intersectionPoint1, intersectionPoint2))
  end.

(** [gamma(polygonPointIndex, gammaPoint, polygon, nrOfPoints, a, c)]:
    [Ret (Some gammaPoint)] when the source returns [true]. *)
Definition gamma (polygonPointIndex a c : Z) : outcome (option Point2f) :=
  found <- findGammaIntersectionPoints c polygonPointIndex
             (at_ polygon a) (at_ polygon (predecessor a nrOfPoints))
             (at_ polygon c) (at_ polygon (predecessor c nrOfPoints)) ;;
  match found with
  | None => Ret None
  | Some (intersectionPoint1, intersectionPoint2) =>
      sameSide <- areOnTheSameSideOfLine intersectionPoint1
                    (at_ polygon (successor c nrOfPoints))
                    (at_ polygon c) (at_ polygon (predecessor c nrOfPoints)) ;;
      if sameSide : bool then Ret (Some intersectionPoint1)
      else Ret (Some intersectionPoint2)
  end.

Definition findVertexCOnSideB (a c : Z)
           (sideBStartVertex sideBEndVertex sideCStartVertex sideCEndVertex : Point2f)
  : outcome Point2f :=
  found <- findGammaIntersectionPoints c (predecessor a nrOfPoints)
             sideBStartVertex sideBEndVertex sideCStartVertex sideCEndVertex ;;
  match found with
  | None => Throw ERR_VERTEX_C_ON_SIDE_B
  | Some (intersectionPoint1, intersectionPoint2) =>
      sameSide <- areOnTheSameSideOfLine intersectionPoint1
                    (at_ polygon (successor c nrOfPoints))
                    (at_ polygon c) (at_ polygon (predecessor c nrOfPoints)) ;;
      if sameSide : bool then Ret intersectionPoint1 else Ret intersectionPoint2
  end.

(** [middlePointOfSideB]: [Some] of the point written when the source
    returns [true]. *)
Definition middlePointOfSideB
           (sideAStartVertex sideAEndVertex sideBStartVertex sideBEndVertex
            sideCStartVertex sideCEndVertex : Point2f) : option Point2f :=
  match lineIntersection_points sideBStartVertex sideBEndVertex
                                sideCStartVertex sideCEndVertex with
  | None => None
  | Some vertexA =>
      match lineIntersection_points sideBStartVertex sideBEndVertex
                                    sideAStartVertex sideAEndVertex with
      | None => None
      | Some vertexC => Some (middlePoint vertexA vertexC)
      end
  end.
End Height.

(** ** Validation of a candidate and the best triangle so far *)

(** The three values of [validationFlag]. *)
Inductive validation : Set :=
| VALIDATION_SIDE_A_TANGENT
| VALIDATION_SIDE_B_TANGENT
| VALIDATION_SIDES_FLUSH.

Definition validation_eqb (f g : validation) : bool :=
  match f, g with
  | VALIDATION_SIDE_A_TANGENT, VALIDATION_SIDE_A_TANGENT => true
  | VALIDATION_SIDE_B_TANGENT, VALIDATION_SIDE_B_TANGENT => true
  | VALIDATION_SIDES_FLUSH, VALIDATION_SIDES_FLUSH => true
  | _, _ => false
  end.

(** A side of the triangle: its start and end vertex. *)
Definition side : Set := (Point2f * Point2f)%type.

Section Validation.
Local Open Scope float_scope.

Variable polygon : list Point2f.
Variable nrOfPoints : Z.

Definition isValidMinimalTriangle (vertexA vertexB vertexC : Point2f) (a b : Z)
           (validationFlag : validation)
           (sideAStartVertex sideAEndVertex sideBStartVertex sideBEndVertex
            sideCStartVertex sideCEndVertex : Point2f) : bool :=
  let midpointSideA := middlePoint vertexB vertexC in
  let midpointSideB := middlePoint vertexA vertexC in
  let midpointSideC := middlePoint vertexA vertexB in
  let sideAValid :=
    if validation_eqb validationFlag VALIDATION_SIDE_A_TANGENT
    then areEqualPoints midpointSideA (at_ polygon (predecessor a nrOfPoints))
    else isPointOnLineSegment midpointSideA sideAStartVertex sideAEndVertex in
  let sideBValid :=
    if validation_eqb validationFlag VALIDATION_SIDE_B_TANGENT
    then areEqualPoints midpointSideB (at_ polygon b)
    else isPointOnLineSegment midpointSideB sideBStartVertex sideBEndVertex in
  let sideCValid :=
    validation_eqb validationFlag VALIDATION_SIDES_FLUSH
    || isPointOnLineSegment midpointSideC sideCStartVertex sideCEndVertex in
  sideAValid && sideBValid && sideCValid.

(** [isLocalMinimalTriangle] writes the three vertices through reference
    arguments as it goes: the result is the returned boolean and the
    values of [vertexA], [vertexB], [vertexC] after the call. *)
Definition isLocalMinimalTriangle (vertexA vertexB vertexC : Point2f) (a b : Z)
           (validationFlag : validation)
           (sideAStartVertex sideAEndVertex sideBStartVertex sideBEndVertex
            sideCStartVertex sideCEndVertex : Point2f)
  : bool * (Point2f * Point2f * Point2f) :=
  match lineIntersection_points sideAStartVertex sideAEndVertex
                                sideBStartVertex sideBEndVertex with
  | None => (false, (vertexA, vertexB, vertexC))
  | Some vertexC' =>
      match lineIntersection_points sideAStartVertex sideAEndVertex
                                    sideCStartVertex sideCEndVertex with
      | None => (false, (vertexA, vertexB, vertexC'))
      | Some vertexB' =>
          match lineIntersection_points sideBStartVertex sideBEndVertex
                                        sideCStartVertex sideCEndVertex with
          | None => (false, (vertexA, vertexB', vertexC'))
          | Some vertexA' =>
              (isValidMinimalTriangle vertexA' vertexB' vertexC' a b validationFlag
                 sideAStartVertex sideAEndVertex sideBStartVertex sideBEndVertex
                 sideCStartVertex sideCEndVertex,
               (vertexA', vertexB', vertexC'))
          end
      end
  end.
End Validation.

(** The best result: the vector [triangle] and the scalar [area]. *)
Definition best : Type := (list Point2f * float)%type.

Section Best.
Local Open Scope float_scope.

(** [initialise(triangle, area)]. *)
Definition initialise (_ : best) : best := ([], DBL_MAX).

Definition updateMinimumAreaEnclosingTriangle (current : best)
           (vertexA vertexB vertexC : Point2f) : best :=
  let '(triangle, area) := current in
  let triangleArea := areaOfTriangle vertexA vertexB vertexC in
  if triangleArea <? area then ([vertexA; vertexB; vertexC], triangleArea)
  else (triangle, area).

(** [returnMinimumAreaEnclosingTriangle]: three [push_back]s of
    [polygon[i % nrOfPoints]] onto [triangle], then the area of its first
    three elements. *)
Definition returnMinimumAreaEnclosingTriangle (polygon : list Point2f)
           (current : best) : best :=
  let nrOfPoints := uint (Z.of_nat (length polygon)) in
  let triangle :=
    fst current ++ map (fun i => at_ polygon (i mod nrOfPoints)%Z) [0; 1; 2]%Z in
  (triangle, areaOfTriangle (at_ triangle 0) (at_ triangle 1) (at_ triangle 2)).
End Best.

(** ** The intersection classifier and the sweep *)

(** [INTERSECTS_BELOW], [INTERSECTS_ABOVE], [INTERSECTS_CRITICAL]. *)
Inductive intersection : Set :=
| INTERSECTS_BELOW
| INTERSECTS_ABOVE
| INTERSECTS_CRITICAL.

Definition intersection_eqb (i j : intersection) : bool :=
  match i, j with
  | INTERSECTS_BELOW, INTERSECTS_BELOW => true
  | INTERSECTS_ABOVE, INTERSECTS_ABOVE => true
  | INTERSECTS_CRITICAL, INTERSECTS_CRITICAL => true
  | _, _ => false
  end.

(** The local variables of [findMinimumAreaEnclosingTriangle] whose values
    pass from one iteration of its loop to the next: the indices [a] and
    [b], the three vertices (written through references by
    [isLocalMinimalTriangle]) and the best triangle with its area.  The
    validation flag and the six side vertices are assigned in every
    iteration before they are read. *)
Record sweep : Type := Sweep {
  idx_a : Z;
  idx_b : Z;
  vertices : Point2f * Point2f * Point2f;
  result : best
}.

Section Sweep.
Local Open Scope float_scope.
Local Open Scope outcome_scope.

(** [std::atan2(y, x)] of the C library. *)
Variable atan2 : float -> float -> float.

Definition angleOfLineWrtOxAxis (a b : Point2f) : float :=
  let y' := fsub b.(y) a.(y) in
  let x' := fsub b.(x) a.(x) in
  let angle := atan2 y' x' * 180 / CV_PI in
  if angle <? 0 then angle + 360 else angle.

Variable polygon : list Point2f.
Variable nrOfPoints : Z.

Local Abbreviation height := (height polygon nrOfPoints) (only parsing).
Local Abbreviation gamma := (gamma polygon nrOfPoints) (only parsing).

Definition intersectsAboveOrBelow (succPredIndex pointIndex c : Z) : intersection :=
  if height pointIndex c <? height succPredIndex c then INTERSECTS_ABOVE
  else INTERSECTS_BELOW.

Definition intersects (angleGammaAndPoint : float) (polygonPointIndex c : Z)
  : intersection :=
  let anglePointPredecessor :=
    angleOfLineWrtOxAxis (at_ polygon (predecessor polygonPointIndex nrOfPoints))
                         (at_ polygon polygonPointIndex) in
  let anglePointSuccessor :=
    angleOfLineWrtOxAxis (at_ polygon (successor polygonPointIndex nrOfPoints))
                         (at_ polygon polygonPointIndex) in
  let angleFlushEdge0 :=
    angleOfLineWrtOxAxis (at_ polygon (predecessor c nrOfPoints)) (at_ polygon c) in
  let '(flush, angleFlushEdge) :=
    isFlushAngleBtwPredAndSucc angleFlushEdge0 anglePointPredecessor anglePointSuccessor in
  if flush then
    if isGammaAngleBtw angleGammaAndPoint anglePointPredecessor angleFlushEdge
       || almostEqual angleGammaAndPoint anglePointPredecessor
    then intersectsAboveOrBelow (predecessor polygonPointIndex nrOfPoints)
                                polygonPointIndex c
    else if isGammaAngleBtw angleGammaAndPoint anglePointSuccessor angleFlushEdge
            || almostEqual angleGammaAndPoint anglePointSuccessor
    then intersectsAboveOrBelow (successor polygonPointIndex nrOfPoints)
                                polygonPointIndex c
    else INTERSECTS_CRITICAL
  else
    if isGammaAngleBtw angleGammaAndPoint anglePointPredecessor anglePointSuccessor
       || (isGammaAngleEqualTo angleGammaAndPoint anglePointPredecessor
           && negb (isGammaAngleEqualTo angleGammaAndPoint angleFlushEdge))
       || (isGammaAngleEqualTo angleGammaAndPoint anglePointSuccessor
           && negb (isGammaAngleEqualTo angleGammaAndPoint angleFlushEdge))
    then INTERSECTS_BELOW
    else INTERSECTS_CRITICAL.

Definition intersectsBelow (gammaPoint : Point2f) (polygonPointIndex c : Z) : bool :=
  let angleOfGammaAndPoint :=
    angleOfLineWrtOxAxis (at_ polygon polygonPointIndex) gammaPoint in
  intersection_eqb (intersects angleOfGammaAndPoint polygonPointIndex c)
                   INTERSECTS_BELOW.

Definition intersectsAbove (gammaPoint : Point2f) (polygonPointIndex c : Z) : bool :=
  let angleOfGammaAndPoint :=
    angleOfLineWrtOxAxis gammaPoint (at_ polygon polygonPointIndex) in
  intersection_eqb (intersects angleOfGammaAndPoint polygonPointIndex c)
                   INTERSECTS_ABOVE.

(** *** The three loops on the indices.  [fuel] bounds the iterations. *)

Fixpoint advanceBToRightChain (fuel : nat) (b c : Z) : outcome Z :=
  match fuel with
  | O => OutOfFuel
  | S fuel' =>
      if greaterOrEqual (height (successor b nrOfPoints) c) (height b c)
      then advanceBToRightChain fuel' (advance b nrOfPoints) c
      else Ret b
  end.

(** The test of the [if] inside the loop of [moveAIfLowAndBIfHigh]:
    [gamma(a, gammaOfA, ...) && intersectsBelow(gammaOfA, b, ...)]. *)
Definition moveBIsHigh (a b c : Z) : outcome bool :=
  gammaOfA <- gamma a a c ;;
  match gammaOfA with
  | Some gammaOfA => Ret (intersectsBelow gammaOfA b c)
  | None => Ret false
  end.

(** One iteration of the body of that loop. *)
Definition moveStep (a b c : Z) : outcome (Z * Z) :=
  high <- moveBIsHigh a b c ;;
  if high : bool then Ret (a, advance b nrOfPoints)
  else Ret (advance a nrOfPoints, b).

Fixpoint moveAIfLowAndBIfHigh (fuel : nat) (a b c : Z) : outcome (Z * Z) :=
  match fuel with
  | O => OutOfFuel
  | S fuel' =>
      if height a c <? height b c then
        '(a', b') <- moveStep a b c ;;
        moveAIfLowAndBIfHigh fuel' a' b' c
      else Ret (a, b)
  end.

(** The condition of the loop of [searchForBTangency]. *)
Definition searchCondition (a b c : Z) : outcome bool :=
  gammaOfB <- gamma b a c ;;
  match gammaOfB with
  | Some gammaOfB =>
      Ret (intersectsBelow gammaOfB b c
           && greaterOrEqual (height b c) (height (predecessor a nrOfPoints) c))
  | None => Ret false
  end.

Fixpoint searchForBTangency (fuel : nat) (a b c : Z) : outcome Z :=
  match fuel with
  | O => OutOfFuel
  | S fuel' =>
      continue <- searchCondition a b c ;;
      if continue : bool then searchForBTangency fuel' a (advance b nrOfPoints) c
      else Ret b
  end.

Definition isNotBTangency (a b c : Z) : outcome bool :=
  gammaOfB <- gamma b a c ;;
  let above := match gammaOfB with
               | Some gammaOfB => intersectsAbove gammaOfB b c
               | None => false
               end in
  Ret (above || (height b c <? height (predecessor a nrOfPoints) c)).

(** *** Setting the sides *)

(** [updateSidesCA]: the new sides A and C. *)
Definition updateSidesCA (a c : Z) : side * side :=
  let sideC := (at_ polygon (predecessor c nrOfPoints), at_ polygon c) in
  let sideA := (at_ polygon (predecessor a nrOfPoints), at_ polygon a) in
  (sideA, sideC).

(** [updateSidesBA]: the flag and the sides A and B after the call. *)
Definition updateSidesBA (a b c : Z) (sideA sideC : side)
  : outcome (validation * side * side) :=
  let sideBStartVertex := at_ polygon (predecessor b nrOfPoints) in
  let sideBEndVertex := at_ polygon b in
  let tangentA :=
    match middlePointOfSideB (fst sideA) (snd sideA) sideBStartVertex sideBEndVertex
                             (fst sideC) (snd sideC) with
    | Some sideBMiddlePoint =>
        height_of_point polygon nrOfPoints sideBMiddlePoint c
        <? height (predecessor a nrOfPoints) c
    | None => false
    end in
  if tangentA then
    let sideAStartVertex := at_ polygon (predecessor a nrOfPoints) in
    sideAEndVertex <- findVertexCOnSideB polygon nrOfPoints a c
                        sideBStartVertex sideBEndVertex (fst sideC) (snd sideC) ;;
    Ret (VALIDATION_SIDE_A_TANGENT, (sideAStartVertex, sideAEndVertex),
         (sideBStartVertex, sideBEndVertex))
  else Ret (VALIDATION_SIDES_FLUSH, sideA, (sideBStartVertex, sideBEndVertex)).

(** [updateSideB]: the flag and side B after the call. *)
Definition updateSideB (a b c : Z) : outcome (validation * side) :=
  sideBStartVertex <- gamma b a c ;;
  match sideBStartVertex with
  | None => Throw ERR_SIDE_B_GAMMA
  | Some sideBStartVertex =>
      Ret (VALIDATION_SIDE_B_TANGENT, (sideBStartVertex, at_ polygon b))
  end.

(** *** The body of the [for] loop and the loop itself *)

(** The first part of the body: the three index loops and the update of
    the sides.  It returns [a], [b], the validation flag and the sides A, B
    and C. *)
Definition sweepSides (fuel : nat) (c a b : Z)
  : outcome (Z * Z * validation * side * side * side) :=
  b <- advanceBToRightChain fuel b c ;;
  '(a, b) <- moveAIfLowAndBIfHigh fuel a b c ;;
  b <- searchForBTangency fuel a b c ;;
  let '(sideA, sideC) := updateSidesCA a c in
  notB <- isNotBTangency a b c ;;
  if notB : bool then
    '(validationFlag, sideA, sideB) <- updateSidesBA a b c sideA sideC ;;
    Ret (a, b, validationFlag, sideA, sideB, sideC)
  else
    '(validationFlag, sideB) <- updateSideB a b c ;;
    Ret (a, b, validationFlag, sideA, sideB, sideC).

(** The second part: the candidate triangle of the sides, and the update
    of the best result when the candidate is a valid local minimum. *)
Definition sweepCandidate (s : sweep) (a b : Z) (validationFlag : validation)
           (sideA sideB sideC : side) : sweep :=
  let '(vertexA, vertexB, vertexC) := s.(vertices) in
  let '(found, (vertexA, vertexB, vertexC)) :=
    isLocalMinimalTriangle polygon nrOfPoints vertexA vertexB vertexC a b validationFlag
      (fst sideA) (snd sideA) (fst sideB) (snd sideB) (fst sideC) (snd sideC) in
  Sweep a b (vertexA, vertexB, vertexC)
        (if found : bool
         then updateMinimumAreaEnclosingTriangle s.(result) vertexA vertexB vertexC
         else s.(result)).

Definition sweepStep (fuel : nat) (c : Z) (s : sweep) : outcome sweep :=
  '(a, b, validationFlag, sideA, sideB, sideC) <-
    sweepSides fuel c s.(idx_a) s.(idx_b) ;;
  Ret (sweepCandidate s a b validationFlag sideA sideB sideC).

(** [for (c = ...; c < nrOfPoints; c++)]: [todo] iterations are left. *)
Fixpoint sweepFrom (fuel todo : nat) (c : Z) (s : sweep) : outcome sweep :=
  match todo with
  | O => Ret s
  | S todo' =>
      s' <- sweepStep fuel c s ;;
      sweepFrom fuel todo' (c + 1)%Z s'
  end.
End Sweep.

Section Driver.
Local Open Scope outcome_scope.

Variable atan2 : float -> float -> float.

Definition findMinimumAreaEnclosingTriangle (fuel : nat) (polygon : list Point2f)
           (current : best) : outcome best :=
  let nrOfPoints := uint (Z.of_nat (length polygon)) in
  s <- sweepFrom atan2 polygon nrOfPoints fuel (Z.to_nat nrOfPoints) 0%Z
         (Sweep 1 2 (origin, origin, origin) current) ;;
  Ret s.(result).

(** [findMinEnclosingTriangle(polygon, triangle, area)], the overload on a
    polygon; [current] is the pair of reference arguments before the
    call. *)
Definition findMinEnclosingTriangle (fuel : nat) (polygon : list Point2f)
           (current : best) : outcome best :=
  let current := initialise current in
  if (3 <? Z.of_nat (length polygon))%Z
  then findMinimumAreaEnclosingTriangle fuel polygon current
  else Ret (returnMinimumAreaEnclosingTriangle polygon current).
End Driver.

(** ** The arctangent on the principal directions *)

Section Arctangent.
Local Open Scope float_scope.

Definition PI_4 : float := 0x1.921fb54442d18p-1.
Definition PI_2 : float := 0x1.921fb54442d18p+0.
Definition PI3_4 : float := 0x1.2d97c7f3321d2p+1.

Definition with_sign (negative : bool) (v : float) : float :=
  if negative then - v else v.

(** [std::atan2] on the eight principal directions.  On the coordinate
    axes these are the values C11 fixes (Annex F.10.1.4): [atan2(+-0, x)] is
    [+-0] for [x > 0] or [x = +0] and [+-pi] for [x < 0] or [x = -0], and
    [atan2(y, +-0)] is [+-pi/2]; on the diagonals they are the binary64
    numbers nearest to [+-pi/4] and [+-3pi/4].  Off these directions the
    table has no entry and answers with a NaN. *)
Definition atan2_principal (y0 x0 : float) : float :=
  match Prim2SF y0, Prim2SF x0 with
  | S754_nan, _ | _, S754_nan => nan
  | S754_zero sy, S754_zero sx
  | S754_zero sy, S754_finite sx _ _
  | S754_zero sy, S754_infinity sx
  | S754_finite sy _ _, S754_infinity sx =>
      with_sign sy (if sx then CV_PI else 0)
  | S754_finite sy _ _, S754_zero _
  | S754_infinity sy, S754_zero _
  | S754_infinity sy, S754_finite _ _ _ => with_sign sy PI_2
  | S754_infinity sy, S754_infinity sx
      => with_sign sy (if sx then PI3_4 else PI_4)
  | S754_finite sy my ey, S754_finite sx mx ex =>
      if ((my =? mx)%positive && (ey =? ex)%Z)%bool
      then with_sign sy (if sx then PI3_4 else PI_4)
      else nan
  end.

(** [y0] or [x0] is a zero and neither is a NaN: the direction lies on a
    coordinate axis. *)
Definition on_axis (y0 x0 : float) : bool :=
  match Prim2SF y0, Prim2SF x0 with
  | S754_nan, _ | _, S754_nan => false
  | S754_zero _, _ | _, S754_zero _ => true
  | _, _ => false
  end.

(** An arctangent that conforms to Annex F on the coordinate axes. *)
Definition conforms_on_axes (atan2 : float -> float -> float) : Prop :=
  forall y0 x0, on_axis y0 x0 = true -> atan2 y0 x0 = atan2_principal y0 x0.
End Arctangent.

(** * Notions used in the statements *)

(** ** Example polygons *)

Section Examples.
Local Open Scope float_scope.

Definition unit_square : list Point2f :=
  [Point 0 0; Point 1 0; Point 1 1; Point 0 1].

(** The square of side 2^-10, counterclockwise. *)
Definition small_square : list Point2f :=
  [Point 0 0; Point 0x1p-10 0; Point 0x1p-10 0x1p-10; Point 0 0x1p-10].

(** Four distinct vertices of a convex quadrilateral, counterclockwise, the
    first two less than epsilon apart. *)
Definition close_vertices : list Point2f :=
  [Point 0 0; Point 0x1p-17 0; Point 1 1; Point 0 1].

(** A convex pentagon, counterclockwise. *)
Definition pentagon : list Point2f :=
  [Point 0 0; Point 2 0; Point 2 1; Point 1 2; Point 0 2].

(** A convex hexagon, counterclockwise.  Its edge from (4, 2) to (0, 2) is
    parallel to the edge from (0, 0) to (4, 0), at distance 2; the vertex
    (5, 1) has height 1 over the latter. *)
Definition hexagon : list Point2f :=
  [Point 0 0; Point 4 0; Point 5 1; Point 4 2; Point 0 2; Point (-1) 1].

(** A convex quadrilateral with integer coordinates. *)
Definition quadrilateral : list Point2f :=
  [Point 0 400; Point 200 0; Point 500 0; Point 400 500].

(** An arctangent given by a table of triples [(y, x, atan2(y, x))]; the
    arguments are compared bit for bit, and an argument outside the table
    gets a NaN. *)
Definition atan2_table (table : list (float * float * float)) (y0 x0 : float)
  : float :=
  match find (fun e => Leibniz.eqb (fst (fst e)) y0 && Leibniz.eqb (snd (fst e)) x0)
             table with
  | Some e => snd e
  | None => nan
  end.

(** The binary64 values of glibc's [atan2] at the twenty arguments that the
    sweep of [quadrilateral] evaluates. *)
Definition quadrilateral_arctangents : list (float * float * float) :=
  [ (-400, -100, -0x1.d0d6a1369bd34p+0);
    (0, 300, 0);
    (-500, 100, -0x1.5f97315254857p+0);
    (-100, -400, -0x1.72c43f4b1650ap+1);
    (-0, 2100, -0);
    (-500, -2000, -0x1.72c43f4b1650ap+1);
    (500, -100, 0x1.c4a83936311dap+0);
    (100, 400, 0x1.f5b75f92c80ddp-3);
    (500, 2000, 0x1.f5b75f92c80ddp-3);
    (-500, 400, -0x1.cac7c57846f9ep-1);
    (-400, 200, -0x1.1b6e192ebbe44p+0);
    (1500, -300, 0x1.c4a83936311dap+0);
    (-1400, 700, -0x1.1b6e192ebbe44p+0);
    (400, -200, 0x1.0468a8ace4df6p+1);
    (1400, -700, 0x1.0468a8ace4df6p+1);
    (400, 340, 0x1.bb8bf85c3aa7dp-1);
    (-400, -340, -0x1.233cb72d34279p+1);
    (0x1.652492p+8, -0x1.736db8p+8, 0x1.301a35a2188ep+1);
    (0, -300, 0x1.921fb54442d18p+1);
    (-0x1.652492p+8, 0x1.736db8p+8, -0x1.8815fe88a90ep-1) ].

(** The binary64 values of glibc's [atan2] at the eight arguments that the
    first iteration ([c = 0]) of the sweep of [pentagon] evaluates. *)
Definition pentagon_arctangents : list (float * float * float) :=
  [ (-1, 2, -0x1.dac670561bb4fp-2);
    (1, 0, 0x1.921fb54442d18p+0);
    (-1, 1, -0x1.921fb54442d18p-1);
    (-2, 0, -0x1.921fb54442d18p+0);
    (-2, 1, -0x1.1b6e192ebbe44p+0);
    (1, -1, 0x1.2d97c7f3321d2p+1);
    (0, 1, 0);
    (2, -1, 0x1.0468a8ace4df6p+1) ].
End Examples.

(** ** Validity of the three midpoints *)

Section MidpointConditions.
Variable polygon : list Point2f.
Variable nrOfPoints : Z.

(** The condition on the midpoint of side A (between [vertexB] and
    [vertexC]). *)
Definition sideAValid (vertexB vertexC : Point2f) (a : Z) (validationFlag : validation)
           (sideAStartVertex sideAEndVertex : Point2f) : Prop :=
  match validationFlag with
  | VALIDATION_SIDE_A_TANGENT =>
      areEqualPoints (middlePoint vertexB vertexC)
                     (at_ polygon (predecessor a nrOfPoints)) = true
  | _ => isPointOnLineSegment (middlePoint vertexB vertexC)
                              sideAStartVertex sideAEndVertex = true
  end.

(** The condition on the midpoint of side B (between [vertexA] and
    [vertexC]). *)
Definition sideBValid (vertexA vertexC : Point2f) (b : Z) (validationFlag : validation)
           (sideBStartVertex sideBEndVertex : Point2f) : Prop :=
  match validationFlag with
  | VALIDATION_SIDE_B_TANGENT =>
      areEqualPoints (middlePoint vertexA vertexC) (at_ polygon b) = true
  | _ => isPointOnLineSegment (middlePoint vertexA vertexC)
                              sideBStartVertex sideBEndVertex = true
  end.

(** The condition on the midpoint of side C (between [vertexA] and
    [vertexB]): none when the sides are flush. *)
Definition sideCValid (vertexA vertexB : Point2f) (validationFlag : validation)
           (sideCStartVertex sideCEndVertex : Point2f) : Prop :=
  match validationFlag with
  | VALIDATION_SIDES_FLUSH => True
  | _ => isPointOnLineSegment (middlePoint vertexA vertexB)
                              sideCStartVertex sideCEndVertex = true
  end.
End MidpointConditions.

(** ** Results *)

Section ResultNotions.
Local Open Scope float_scope.

(** [polygon[i % n]] for the [n] vertices of [polygon]. *)
Definition cyclic (polygon : list Point2f) (i : Z) : Point2f :=
  at_ polygon (i mod Z.of_nat (length polygon))%Z.

(** What the pair (triangle, area) can hold during the sweep: the initial
    value, or three vertices with their own area, which is then below the
    initial one. *)
Definition stored_ok (r : best) : Prop :=
  r = ([], DBL_MAX)
  \/ exists vertexA vertexB vertexC,
      r = ([vertexA; vertexB; vertexC], areaOfTriangle vertexA vertexB vertexC)
      /\ (areaOfTriangle vertexA vertexB vertexC <? DBL_MAX) = true.
End ResultNotions.

(** ** The order of binary64 numbers *)

Section OrderNotions.
Local Open Scope Z_scope.

(** A number that is not a NaN, as a point of the lexicographic order on
    triples of integers: the class (negative infinity, negative, zero,
    positive, positive infinity), then the exponent, then the mantissa. *)
Definition rank (f : spec_float) : option (Z * Z * Z) :=
  match f with
  | S754_nan => None
  | S754_infinity true => Some (-2, 0, 0)
  | S754_finite true m e => Some (-1, - e, - Zpos m)
  | S754_zero _ => Some (0, 0, 0)
  | S754_finite false m e => Some (1, e, Zpos m)
  | S754_infinity false => Some (2, 0, 0)
  end.

Definition lex_lt (p q : Z * Z * Z) : Prop :=
  let '(a, b, c) := p in
  let '(a', b', c') := q in
  a < a' \/ (a = a' /\ (b < b' \/ (b = b' /\ c < c'))).

Definition lex_le (p q : Z * Z * Z) : Prop :=
  let '(a, b, c) := p in
  let '(a', b', c') := q in
  a < a' \/ (a = a' /\ (b < b' \/ (b = b' /\ c <= c'))).
End OrderNotions.

(** ** Step S2 *)

Section MoveNotions.
Local Open Scope float_scope.
Local Open Scope outcome_scope.

Variable atan2 : float -> float -> float.
Variable polygon : list Point2f.
Variable nrOfPoints : Z.

(** Following the words of the specification, not the source: the test
    "gamma(a) exists and the line through gamma(a) and P[a] intersects the
    polygon BELOW at b".  The line through [P[a]] and [gamma(a)] is
    classified at the vertex [b]. *)
Definition moveBIsHigh_lineThroughA (a b c : Z) : outcome bool :=
  gammaOfA <- gamma polygon nrOfPoints a a c ;;
  match gammaOfA with
  | Some gammaOfA =>
      Ret (intersection_eqb
             (intersects atan2 polygon nrOfPoints
                (angleOfLineWrtOxAxis atan2 (at_ polygon a) gammaOfA) b c)
             INTERSECTS_BELOW)
  | None => Ret false
  end.

(** One iteration of the loop of [moveAIfLowAndBIfHigh] from the indices
    [(a, b)]: it is entered when [height(b) > height(a)]; it advances [b]
    when [gamma(a)] exists and the line through [P[b]] and [gamma(a)]
    intersects below at [b], and advances [a] in the two other cases. *)
Inductive moveIteration (c : Z) : Z * Z -> Z * Z -> Prop :=
| move_b (a b : Z) (gammaOfA : Point2f) :
    (height polygon nrOfPoints a c <? height polygon nrOfPoints b c) = true ->
    gamma polygon nrOfPoints a a c = Ret (Some gammaOfA) ->
    intersects atan2 polygon nrOfPoints
      (angleOfLineWrtOxAxis atan2 (at_ polygon b) gammaOfA) b c = INTERSECTS_BELOW ->
    moveIteration c (a, b) (a, successor b nrOfPoints)
| move_a_not_below (a b : Z) (gammaOfA : Point2f) :
    (height polygon nrOfPoints a c <? height polygon nrOfPoints b c) = true ->
    gamma polygon nrOfPoints a a c = Ret (Some gammaOfA) ->
    intersects atan2 polygon nrOfPoints
      (angleOfLineWrtOxAxis atan2 (at_ polygon b) gammaOfA) b c <> INTERSECTS_BELOW ->
    moveIteration c (a, b) (successor a nrOfPoints, b)
| move_a_no_gamma (a b : Z) :
    (height polygon nrOfPoints a c <? height polygon nrOfPoints b c) = true ->
    gamma polygon nrOfPoints a a c = Ret None ->
    moveIteration c (a, b) (successor a nrOfPoints, b).
End MoveNotions.

(** ** Arcs *)

Section ArcNotions.
Local Open Scope float_scope.

(** [angle1] lies strictly between [angle2] and [angle3], in either order. *)
Definition strictlyBetween (angle1 angle2 angle3 : float) : bool :=
  ((angle2 <? angle1) && (angle1 <? angle3))
  || ((angle3 <? angle1) && (angle1 <? angle2)).

(** Following the words of the specification, not the source: strict
    membership of [angle1] in the shorter of the two arcs between [angle2]
    and [angle3], for angles of [[0, 360)].  When the two angles are at most
    180 apart the shorter arc is the interval between them; otherwise it is
    the arc through 0, the angles above both or below both. *)
Definition inShorterArc (angle1 angle2 angle3 : float) : bool :=
  if 180 <? abs (angle2 - angle3) then
    ((angle2 <? angle1) && (angle3 <? angle1))
    || ((angle1 <? angle2) && (angle1 <? angle3))
  else strictlyBetween angle1 angle2 angle3.
End ArcNotions.

(** ** Indices of the sweep *)

Section SweepNotions.
Local Open Scope Z_scope.

(** The index reached from [index] by [k] calls of [advance]. *)
Definition advanced (nrOfPoints : Z) (k : nat) (index : Z) : Z :=
  Nat.iter k (fun i => successor i nrOfPoints) index.

(** The indices [a] and [b] of a state of the sweep are indices of the
    polygon. *)
Definition in_range (nrOfPoints : Z) (s : sweep) : Prop :=
  0 <= idx_a s < nrOfPoints /\ 0 <= idx_b s < nrOfPoints.

(** The condition of the loop of [advanceBToRightChain] at the index [b]. *)
Definition rightChainCondition (polygon : list Point2f) (nrOfPoints b c : Z) : bool :=
  greaterOrEqual (height polygon nrOfPoints (successor b nrOfPoints) c)
                 (height polygon nrOfPoints b c).
End SweepNotions.

Section MoreExamples.
Local Open Scope float_scope.

(** A square whose side, 2^-17, is below [EPSILON]. *)
Definition tiny_square : list Point2f :=
  [Point 0 0; Point 0x1p-17 0; Point 0x1p-17 0x1p-17; Point 0 0x1p-17].
End MoreExamples.

Section ObservableNotions.
(** What an iteration of the sweep hands to the next one, apart from the
    three vertices: the indices [a], [b] and the best result. *)
Definition carried (s : sweep) : Z * Z * best := (idx_a s, idx_b s, result s).
End ObservableNotions.

(** ** Signs and zeros of binary64 numbers *)

Section SignNotions.
(** The sign bit is clear, or the number is a NaN. *)
Definition sign_clear (f : spec_float) : bool :=
  match f with
  | S754_zero s | S754_infinity s | S754_finite s _ _ => negb s
  | S754_nan => true
  end.

(** A zero of either sign, or a NaN. *)
Definition zero_or_nan (f : spec_float) : bool :=
  match f with
  | S754_zero _ | S754_nan => true
  | _ => false
  end.
End SignNotions.

Section FiniteNotions.
(** A zero or a finite number: neither an infinity nor a NaN. *)
Definition finite_number (f : spec_float) : bool :=
  match f with
  | S754_zero _ | S754_finite _ _ _ => true
  | _ => false
  end.
End FiniteNotions.

(** ** Candidate triangles *)

Section CandidateNotions.
Local Open Scope Z_scope.

Variable polygon : list Point2f.
Variable nrOfPoints : Z.

(** The three sides that an iteration hands to [isLocalMinimalTriangle] at
    the indices [a], [b], [c], for each value of the validation flag: side C
    is the edge that ends at [c], side A starts at the vertex before [a],
    side B ends at the vertex [b]; a side that is not tangent is an edge of
    the polygon. *)
Definition sides_built (a b c : Z) (validationFlag : validation)
           (sideA sideB sideC : side) : Prop :=
  sideC = (at_ polygon (predecessor c nrOfPoints), at_ polygon c)
  /\ fst sideA = at_ polygon (predecessor a nrOfPoints)
  /\ snd sideB = at_ polygon b
  /\ match validationFlag with
     | VALIDATION_SIDES_FLUSH =>
         snd sideA = at_ polygon a
         /\ fst sideB = at_ polygon (predecessor b nrOfPoints)
     | VALIDATION_SIDE_A_TANGENT =>
         fst sideB = at_ polygon (predecessor b nrOfPoints)
         /\ findVertexCOnSideB polygon nrOfPoints a c
              (fst sideB) (snd sideB) (fst sideC) (snd sideC) = Ret (snd sideA)
     | VALIDATION_SIDE_B_TANGENT =>
         snd sideA = at_ polygon a
         /\ gamma polygon nrOfPoints b a c = Ret (Some (fst sideB))
     end.

(** A triangle that some iteration [c] of the sweep built and
    [isLocalMinimalTriangle] accepted: its vertices are the pairwise
    intersections of the three sides, and the midpoints of its sides pass
    [isValidMinimalTriangle]. *)
Definition accepted (triangle : list Point2f) : Prop :=
  exists a b c validationFlag sideA sideB sideC vertexA vertexB vertexC,
    0 <= c < nrOfPoints
    /\ sides_built a b c validationFlag sideA sideB sideC
    /\ lineIntersection_points (fst sideA) (snd sideA) (fst sideB) (snd sideB)
       = Some vertexC
    /\ lineIntersection_points (fst sideA) (snd sideA) (fst sideC) (snd sideC)
       = Some vertexB
    /\ lineIntersection_points (fst sideB) (snd sideB) (fst sideC) (snd sideC)
       = Some vertexA
    /\ isValidMinimalTriangle polygon nrOfPoints vertexA vertexB vertexC a b
         validationFlag (fst sideA) (snd sideA) (fst sideB) (snd sideB)
         (fst sideC) (snd sideC) = true
    /\ triangle = [vertexA; vertexB; vertexC].
End CandidateNotions.

(** ** Rounding *)

Section RoundingNotions.
Local Open Scope Z_scope.

(** After [k] shifts of a magnitude [m] the record holds [m / 2^k], and no
    bit is set beside it when [m] was exact and a multiple of [2^k]. *)
Definition shifted (m : Z) (l : location) (k : Z) (mrs : shr_record) : Prop :=
  shr_m mrs = m / 2 ^ k
  /\ (l = loc_Exact -> (2 ^ k | m) -> shr_r mrs = false /\ shr_s mrs = false).

(** A zero with a clear sign, or a positive number that is at most
    [mB * 2^eB]. *)
Definition within (mB : positive) (eB : Z) (f : spec_float) : bool :=
  match f with
  | S754_zero false => true
  | S754_finite false m ex => (ex <? eB) || ((ex =? eB) && (m <=? mB)%positive)
  | _ => false
  end.

(** The magnitude [m * 2^ex] is at most [mB * 2^eB]. *)
Definition below (mB : positive) (eB : Z) (m ex : Z) : Prop :=
  0 <= m /\ ex <= eB /\ m <= Zpos mB * 2 ^ (eB - ex).

(** Neither a positive number nor positive infinity. *)
Definition not_positive (f : spec_float) : bool :=
  match f with
  | S754_finite false _ _ | S754_infinity false => false
  | _ => true
  end.
End RoundingNotions.

(** ** Angles on the boundary of the range *)

Section AngleNotions.
Local Open Scope float_scope.

(** The binary64 value of [atan2] just below the positive x axis: the
    arctangent of a number as small as 2^-100 is that number. *)
Definition below_axis_arctangent : list (float * float * float) :=
  [ (-0x1p-100, 1, -0x1p-100) ].

(** Following the words of the specification, not the source: the direction
    of the interval decided by the parity of the remainder; [odd_first]
    tells which parity selects the interval from [angle3] to [angle2]. *)
Definition isAngleBetween_byParity (odd_first : bool) (angle1 angle2 angle3 : float)
  : bool :=
  if Bool.eqb (Z.odd (Z.rem (to_int (angle2 - angle3)) 180)) odd_first then
    (angle3 <? angle1) && (angle1 <? angle2)
  else
    (angle2 <? angle1) && (angle1 <? angle3).
End AngleNotions.

(** ** Collinear points *)

Section CollinearNotions.
Local Open Scope Z_scope.

(** The exact value of a finite binary64 number, counted in units of
    2^-1074: every finite number is a whole number of them. *)
Definition units (d : float) : option Z :=
  match Prim2SF d with
  | S754_zero _ => Some 0
  | S754_finite s m e =>
      let v := Zpos m * 2 ^ (e + 1074) in
      Some (if s then - v else v)
  | _ => None
  end.

(** Following the words of the specification, not the source: three points
    with finite coordinates are collinear, in exact arithmetic. *)
Definition collinear (a b c : Point2f) : bool :=
  match units (x a), units (y a), units (x b), units (y b), units (x c), units (y c) with
  | Some xa, Some ya, Some xb, Some yb, Some xc, Some yc =>
      (xb - xa) * (yc - ya) =? (yb - ya) * (xc - xa)
  | _, _, _, _, _, _ => false
  end.

(** The six orders of three vertices. *)
Definition orders (a b c : Point2f) : list (list Point2f) :=
  [[a; b; c]; [a; c; b]; [b; a; c]; [b; c; a]; [c; a; b]; [c; b; a]].
End CollinearNotions.

(** * Properties *)

(** ** Outcomes *)

Lemma bind_Ret_inv {A B : Type} (m : outcome A) (k : A -> outcome B) (b : B) :
  bind m k = Ret b -> exists a, m = Ret a /\ k a = Ret b.
Proof. destruct m as [a | e |]; cbn; intros H; try discriminate H. eauto. Qed.

Lemma bind_Throw_inv {A B : Type} (m : outcome A) (k : A -> outcome B) (e : exn) :
  bind m k = Throw e -> m = Throw e \/ exists a, m = Ret a /\ k a = Throw e.
Proof.
  destruct m as [a | e' |]; cbn; intros H.
  - right. eauto.
  - left. now injection H as ->.
  - discriminate H.
Qed.

(** ** The order of binary64 numbers *)

Section FloatOrder.
Local Open Scope Z_scope.

Lemma lex_lt_le p q : lex_lt p q -> lex_le p q.
Proof. destruct p as [[a b] c], q as [[a' b'] c']. unfold lex_lt, lex_le. lia. Qed.

Lemma lex_le_trans p q r : lex_le p q -> lex_le q r -> lex_le p r.
Proof.
  destruct p as [[a b] c], q as [[a' b'] c'], r as [[a'' b''] c''].
  unfold lex_le. lia.
Qed.

Lemma lex_lt_le_trans p q r : lex_lt p q -> lex_le q r -> lex_lt p r.
Proof.
  destruct p as [[a b] c], q as [[a' b'] c'], r as [[a'' b''] c''].
  unfold lex_lt, lex_le. lia.
Qed.

Lemma lex_le_refl p : lex_le p p.
Proof. destruct p as [[a b] c]. unfold lex_le. lia. Qed.

Ltac compare_cases :=
  repeat match goal with
         | |- context [Pos.compare_cont Eq ?m ?n] =>
             change (Pos.compare_cont Eq m n) with (Pos.compare m n);
             destruct (Pos.compare_spec m n)
         | |- context [Z.compare ?m ?n] => destruct (Z.compare_spec m n)
         end.

Ltac rank_cases :=
  split;
  [ intros Hyp; try discriminate Hyp; do 2 eexists; repeat split; cbn; lia
  | intros (p & q & Hp & Hq & Hpq); try discriminate Hp; try discriminate Hq;
    injection Hp as <-; injection Hq as <-; cbn in Hpq; try reflexivity; lia ].

Lemma SFltb_rank f g :
  SFltb f g = true <->
  exists p q, rank f = Some p /\ rank g = Some q /\ lex_lt p q.
Proof.
  unfold SFltb, SFcompare.
  destruct f as [[] | [] | | [] mf ef], g as [[] | [] | | [] mg eg];
    cbn [rank]; compare_cases; cbn [CompOpp]; rank_cases.
Qed.

Lemma SFleb_rank f g :
  SFleb f g = true <->
  exists p q, rank f = Some p /\ rank g = Some q /\ lex_le p q.
Proof.
  unfold SFleb, SFcompare.
  destruct f as [[] | [] | | [] mf ef], g as [[] | [] | | [] mg eg];
    cbn [rank]; compare_cases; cbn [CompOpp]; rank_cases.
Qed.

Local Open Scope float_scope.

Lemma ltb_leb (a b : float) : (a <? b) = true -> (a <=? b) = true.
Proof.
  rewrite ltb_spec, leb_spec, SFltb_rank, SFleb_rank.
  intros (p & q & Hp & Hq & H). exists p, q. auto using lex_lt_le.
Qed.

Lemma leb_trans (a b c : float) :
  (a <=? b) = true -> (b <=? c) = true -> (a <=? c) = true.
Proof.
  rewrite !leb_spec, !SFleb_rank.
  intros (p & q & Hp & Hq & H) (q' & r & Hq' & Hr & H').
  rewrite Hq in Hq'. injection Hq' as <-.
  exists p, r. eauto using lex_le_trans.
Qed.

Lemma ltb_leb_trans (a b c : float) :
  (a <? b) = true -> (b <=? c) = true -> (a <? c) = true.
Proof.
  rewrite !ltb_spec, !leb_spec, !SFltb_rank, !SFleb_rank.
  intros (p & q & Hp & Hq & H) (q' & r & Hq' & Hr & H').
  rewrite Hq in Hq'. injection Hq' as <-.
  exists p, r. eauto using lex_lt_le_trans.
Qed.

(** A number that is below or equal to some number is below or equal to
    itself: it is not a NaN. *)
Lemma leb_refl_of_leb (a b : float) : (a <=? b) = true -> (a <=? a) = true.
Proof.
  rewrite !leb_spec, !SFleb_rank.
  intros (p & q & Hp & _ & _). exists p, p. auto using lex_le_refl.
Qed.

Lemma eqb_zero (d : float) : (d =? 0) = true -> d = 0 \/ d = - 0.
Proof.
  rewrite eqb_spec. intros H.
  rewrite <- (SF2Prim_Prim2SF d).
  destruct (Prim2SF d) as [[] | [] | | [] m e]; try discriminate H; auto.
Qed.

(** Rounding a quotient whose sign bit is clear gives no negative number. *)
Lemma binary_round_aux_not_negative (mz ez : Z) (lz : location) :
  SFltb (binary_round_aux prec emax false mz ez lz) (S754_zero false) = false.
Proof.
  unfold binary_round_aux.
  destruct (shr_fexp prec emax mz ez lz) as [mrs' e'].
  destruct (shr_fexp prec emax _ e' loc_Exact) as [mrs'' e''].
  destruct (shr_m mrs'') as [| m | m]; try reflexivity.
  destruct (Z.leb e'' (emax - prec)); reflexivity.
Qed.

Lemma half_of_abs_not_negative (d : float) : (abs d / 2 <? 0) = false.
Proof.
  rewrite ltb_spec, div_spec, abs_spec.
  change (Prim2SF 2) with (S754_finite false 4503599627370496 (-51)).
  change (Prim2SF 0) with (S754_zero false).
  destruct (Prim2SF d) as [s | s | | s m e]; try reflexivity.
  cbn [SFabs]. unfold SF64div, SFdiv.
  destruct (SFdiv_core_binary prec emax (Zpos m) e 4503599627370496 (-51))
    as [[mz ez] lz].
  apply binary_round_aux_not_negative.
Qed.

Lemma areaOfTriangle_not_negative (a b c : Point2f) :
  (areaOfTriangle a b c <? 0) = false.
Proof. unfold areaOfTriangle. apply half_of_abs_not_negative. Qed.
End FloatOrder.

(** ** Cyclic index arithmetic *)

Section IndexProperties.
Local Open Scope Z_scope.

Lemma uint_small (z : Z) : 0 <= z < UINT_MODULUS -> uint z = z.
Proof. intros H. unfold uint. now apply Z.mod_small. Qed.

Lemma successor_range (i n : Z) :
  1 <= n < UINT_MODULUS -> 0 <= i < n -> 0 <= successor i n < n.
Proof.
  intros Hn Hi. unfold successor.
  apply Z.mod_pos_bound. lia.
Qed.

Lemma predecessor_range (i n : Z) :
  1 <= n < UINT_MODULUS -> 0 <= i < n -> 0 <= predecessor i n < n.
Proof.
  intros Hn Hi. unfold predecessor.
  destruct (Z.eqb_spec i 0) as [-> | Hne].
  - rewrite uint_small by lia. lia.
  - lia.
Qed.

Lemma predecessor_successor (i n : Z) :
  1 <= n < UINT_MODULUS -> 0 <= i < n -> predecessor (successor i n) n = i.
Proof.
  intros Hn Hi. unfold successor, predecessor.
  rewrite uint_small by lia.
  destruct (Z.eq_dec (i + 1) n) as [E | E].
  - rewrite E, Z_mod_same_full. cbn. rewrite uint_small by lia. lia.
  - rewrite Z.mod_small by lia.
    destruct (Z.eqb_spec (i + 1) 0); lia.
Qed.

Lemma successor_predecessor (i n : Z) :
  1 <= n < UINT_MODULUS -> 0 <= i < n -> successor (predecessor i n) n = i.
Proof.
  intros Hn Hi. unfold successor, predecessor.
  destruct (Z.eqb_spec i 0) as [-> | Hne].
  - rewrite (uint_small (n - 1)) by lia.
    replace (n - 1 + 1) with n by lia.
    rewrite uint_small by lia. apply Z_mod_same_full.
  - replace (i - 1 + 1) with i by lia.
    rewrite uint_small by lia. apply Z.mod_small. lia.
Qed.

(** C10.  For a polygon of [n >= 1] vertices ([n] an [unsigned int]) and an
    index [0 <= i < n], [successor] and [predecessor] stay in [[0, n)] and
    are inverse to each other. *)
Theorem successor_predecessor_inverse (n i : Z) :
  1 <= n < UINT_MODULUS ->
  0 <= i < n ->
  0 <= successor i n < n
  /\ 0 <= predecessor i n < n
  /\ predecessor (successor i n) n = i
  /\ successor (predecessor i n) n = i.
Proof.
  intros Hn Hi. repeat split.
  - now apply successor_range.
  - now apply successor_range.
  - now apply predecessor_range.
  - now apply predecessor_range.
  - now apply predecessor_successor.
  - now apply successor_predecessor.
Qed.

(** The last index of a pentagon wraps to the first, and back. *)
Lemma successor_predecessor_inverse_pentagon :
  0 <= successor 4 5 < 5
  /\ 0 <= predecessor 4 5 < 5
  /\ predecessor (successor 4 5) 5 = 4
  /\ successor (predecessor 4 5) 5 = 4.
Proof.
  apply (successor_predecessor_inverse 5 4); unfold UINT_MODULUS; lia.
Defined.
End IndexProperties.

(** ** Angles *)

Section AngleProperties.
Local Open Scope float_scope.

(** Whenever [isAngleBetween] answers true, the angle lies strictly between
    the two others. *)
Lemma isAngleBetween_strictlyBetween (angle1 angle2 angle3 : float) :
  isAngleBetween angle1 angle2 angle3 = true ->
  strictlyBetween angle1 angle2 angle3 = true.
Proof.
  unfold isAngleBetween, strictlyBetween.
  destruct (0 <? Z.rem (to_int (angle2 - angle3)) 180)%Z; intros ->.
  - apply orb_true_r.
  - reflexivity.
Qed.
End AngleProperties.

(** ** Validation of a candidate triangle *)

Section ValidationProperties.
Variable polygon : list Point2f.
Variable nrOfPoints : Z.

(** C4.  [isValidMinimalTriangle] accepts a candidate exactly when the three
    midpoint conditions hold: side A's midpoint equals [P[a-1]] (within
    epsilon) under [VALIDATION_SIDE_A_TANGENT] and lies on side A's segment
    otherwise; side B's midpoint equals [P[b]] under
    [VALIDATION_SIDE_B_TANGENT] and lies on side B's segment otherwise; side
    C's midpoint lies on side C's segment unless the flag is
    [VALIDATION_SIDES_FLUSH]. *)
Theorem isValidMinimalTriangle_iff
        (vertexA vertexB vertexC : Point2f) (a b : Z) (validationFlag : validation)
        (sideAStartVertex sideAEndVertex sideBStartVertex sideBEndVertex
         sideCStartVertex sideCEndVertex : Point2f) :
  isValidMinimalTriangle polygon nrOfPoints vertexA vertexB vertexC a b validationFlag
    sideAStartVertex sideAEndVertex sideBStartVertex sideBEndVertex
    sideCStartVertex sideCEndVertex = true
  <-> sideAValid polygon nrOfPoints vertexB vertexC a validationFlag
                 sideAStartVertex sideAEndVertex
      /\ sideBValid polygon vertexA vertexC b validationFlag
                    sideBStartVertex sideBEndVertex
      /\ sideCValid vertexA vertexB validationFlag sideCStartVertex sideCEndVertex.
Proof.
  unfold isValidMinimalTriangle, sideAValid, sideBValid, sideCValid.
  destruct validationFlag; cbn [validation_eqb orb];
    rewrite ?andb_true_iff, ?andb_true_r; tauto.
Qed.
End ValidationProperties.

(** ** The best result during the sweep *)

Section BestProperties.
Local Open Scope float_scope.

Lemma stored_ok_bounded (r : best) : stored_ok r -> (snd r <=? DBL_MAX) = true.
Proof.
  intros [-> | (vA & vB & vC & -> & H)]; cbn [snd].
  - reflexivity.
  - now apply ltb_leb.
Qed.

Lemma update_cases (current : best) (vertexA vertexB vertexC : Point2f) :
  updateMinimumAreaEnclosingTriangle current vertexA vertexB vertexC = current
  \/ ((areaOfTriangle vertexA vertexB vertexC <? snd current) = true
      /\ updateMinimumAreaEnclosingTriangle current vertexA vertexB vertexC
         = ([vertexA; vertexB; vertexC], areaOfTriangle vertexA vertexB vertexC)).
Proof.
  destruct current as [triangle area]. unfold updateMinimumAreaEnclosingTriangle.
  cbn [snd]. destruct (areaOfTriangle vertexA vertexB vertexC <? area); auto.
Qed.

Lemma update_stored_ok (current : best) (vertexA vertexB vertexC : Point2f) :
  stored_ok current ->
  stored_ok (updateMinimumAreaEnclosingTriangle current vertexA vertexB vertexC)
  /\ (snd (updateMinimumAreaEnclosingTriangle current vertexA vertexB vertexC)
      <=? snd current) = true.
Proof.
  intros Hok. pose proof (stored_ok_bounded _ Hok) as Hb.
  destruct (update_cases current vertexA vertexB vertexC) as [-> | [Hlt ->]].
  - split; [assumption | now apply leb_refl_of_leb with DBL_MAX].
  - split.
    + right. exists vertexA, vertexB, vertexC. split; [reflexivity |].
      now apply ltb_leb_trans with (snd current).
    + cbn [snd]. now apply ltb_leb.
Qed.

Variable atan2 : float -> float -> float.
Variable polygon : list Point2f.
Variable nrOfPoints : Z.

(** The best result changes in an iteration only by recording a candidate
    that [isLocalMinimalTriangle] accepted and whose area is strictly below
    the stored one. *)
Lemma sweepCandidate_result (s : sweep) (a b : Z) (validationFlag : validation)
      (sideA sideB sideC : side) :
  let s' := sweepCandidate polygon nrOfPoints s a b validationFlag sideA sideB sideC in
  result s' = result s
  \/ exists vertexA vertexB vertexC,
      isLocalMinimalTriangle polygon nrOfPoints
        (fst (fst (vertices s))) (snd (fst (vertices s))) (snd (vertices s))
        a b validationFlag
        (fst sideA) (snd sideA) (fst sideB) (snd sideB) (fst sideC) (snd sideC)
      = (true, (vertexA, vertexB, vertexC))
      /\ (areaOfTriangle vertexA vertexB vertexC <? snd (result s)) = true
      /\ result s' = ([vertexA; vertexB; vertexC],
                      areaOfTriangle vertexA vertexB vertexC).
Proof.
  unfold sweepCandidate.
  destruct (vertices s) as [[vA0 vB0] vC0]. cbn [fst snd].
  destruct (isLocalMinimalTriangle _ _ _ _ _ _ _ _ _ _ _ _ _ _)
    as [[] [[vA vB] vC]]; cbn [result].
  - destruct (update_cases (result s) vA vB vC) as [E | [Hlt E]].
    + left. exact E.
    + right. exists vA, vB, vC. auto.
  - left. reflexivity.
Qed.

Lemma sweepCandidate_stored_ok (s : sweep) (a b : Z) (validationFlag : validation)
      (sideA sideB sideC : side) :
  stored_ok (result s) ->
  let s' := sweepCandidate polygon nrOfPoints s a b validationFlag sideA sideB sideC in
  stored_ok (result s') /\ (snd (result s') <=? snd (result s)) = true.
Proof.
  intros Hok. unfold sweepCandidate.
  destruct (vertices s) as [[vA0 vB0] vC0].
  destruct (isLocalMinimalTriangle _ _ _ _ _ _ _ _ _ _ _ _ _ _)
    as [[] [[vA vB] vC]]; cbn [result].
  - now apply update_stored_ok.
  - split; [assumption |].
    apply leb_refl_of_leb with DBL_MAX. now apply stored_ok_bounded.
Qed.

Lemma sweepStep_inv (fuel : nat) (c : Z) (s s' : sweep) :
  sweepStep atan2 polygon nrOfPoints fuel c s = Ret s' ->
  exists a b validationFlag sideA sideB sideC,
    sweepSides atan2 polygon nrOfPoints fuel c (idx_a s) (idx_b s)
    = Ret (a, b, validationFlag, sideA, sideB, sideC)
    /\ s' = sweepCandidate polygon nrOfPoints s a b validationFlag sideA sideB sideC.
Proof.
  unfold sweepStep. intros H.
  apply bind_Ret_inv in H as ([[[[[a b] flag] sideA] sideB] sideC] & Hs & H).
  injection H as <-. exists a, b, flag, sideA, sideB, sideC. auto.
Qed.

Lemma sweepFrom_stored_ok (fuel todo : nat) :
  forall (c : Z) (s s' : sweep),
    stored_ok (result s) ->
    sweepFrom atan2 polygon nrOfPoints fuel todo c s = Ret s' ->
    stored_ok (result s') /\ (snd (result s') <=? snd (result s)) = true.
Proof.
  induction todo as [| todo IH]; intros c s s' Hok H; cbn [sweepFrom] in H.
  - injection H as <-. split; [assumption |].
    apply leb_refl_of_leb with DBL_MAX. now apply stored_ok_bounded.
  - apply bind_Ret_inv in H as (s1 & Hstep & H).
    apply sweepStep_inv in Hstep as (a & b & flag & sA & sB & sC & _ & ->).
    destruct (sweepCandidate_stored_ok s a b flag sA sB sC Hok) as [Hok1 Hle1].
    destruct (IH _ _ _ Hok1 H) as [Hok' Hle'].
    split; [assumption |]. now apply leb_trans with (2 := Hle1).
Qed.

End BestProperties.

Section BestTheorem.
Local Open Scope float_scope.

Lemma findMinimumAreaEnclosingTriangle_stored_ok
      (atan2 : float -> float -> float) (polygon : list Point2f)
      (fuel : nat) (current r : best) :
  findMinimumAreaEnclosingTriangle atan2 fuel polygon (initialise current) = Ret r ->
  stored_ok r.
Proof.
  intros H. unfold findMinimumAreaEnclosingTriangle in H.
  apply bind_Ret_inv in H as (s' & Hs & H). injection H as <-.
  apply sweepFrom_stored_ok in Hs; [exact (proj1 Hs) |].
  left. reflexivity.
Qed.

(** C5 (counterexample).  The area is initialised to the largest finite
    [double], which is not +infinity. *)
Lemma initial_area_is_not_infinity :
  snd (initialise ([], 0)) <> infinity.
Proof.
  intros H. apply (f_equal Prim2SF) in H. vm_compute in H. discriminate H.
Qed.

(** C5 (amended).  [initialise] stores the empty triangle and
    [std::numeric_limits<double>::max()].  An iteration of the sweep changes
    the stored pair only by writing the three vertices of a candidate that
    [isLocalMinimalTriangle] accepted, with the area of these vertices, and
    only when that area is strictly below the stored one.  So along the
    whole sweep the stored pair is the initial one or three vertices with
    their own [areaOfTriangle], and the stored area never increases. *)
Theorem best_result_invariant
        (atan2 : float -> float -> float) (polygon : list Point2f) (nrOfPoints : Z) :
  (forall current, initialise current = ([], DBL_MAX))
  /\ (forall s a b validationFlag sideA sideB sideC,
         let s' := sweepCandidate polygon nrOfPoints s a b validationFlag
                                  sideA sideB sideC in
         result s' = result s
         \/ exists vertexA vertexB vertexC,
             isLocalMinimalTriangle polygon nrOfPoints
               (fst (fst (vertices s))) (snd (fst (vertices s))) (snd (vertices s))
               a b validationFlag
               (fst sideA) (snd sideA) (fst sideB) (snd sideB) (fst sideC) (snd sideC)
             = (true, (vertexA, vertexB, vertexC))
             /\ (areaOfTriangle vertexA vertexB vertexC <? snd (result s)) = true
             /\ result s' = ([vertexA; vertexB; vertexC],
                             areaOfTriangle vertexA vertexB vertexC))
  /\ (forall fuel todo c s s',
         stored_ok (result s) ->
         sweepFrom atan2 polygon nrOfPoints fuel todo c s = Ret s' ->
         stored_ok (result s') /\ (snd (result s') <=? snd (result s)) = true)
  /\ (forall fuel current r,
         findMinimumAreaEnclosingTriangle atan2 fuel polygon (initialise current) = Ret r ->
         stored_ok r).
Proof.
  split; [reflexivity |].
  split; [apply sweepCandidate_result |].
  split; [intros fuel todo c s s'; apply sweepFrom_stored_ok |].
  apply findMinimumAreaEnclosingTriangle_stored_ok.
Qed.

(** The sweep on the unit square evaluates the arctangent on the principal
    directions only, and returns a triangle of area 2. *)
Lemma unit_square_result :
  findMinEnclosingTriangle atan2_principal 2 unit_square ([], 0)
  = Ret ([Point 0 2; Point (-0) (-0); Point 2 0], 2).
Proof. vm_compute. reflexivity. Qed.

(** The result on the unit square, as an instance of [best_result_invariant]. *)
Lemma unit_square_best_stored_ok :
  stored_ok ([Point 0 2; Point (-0) (-0); Point 2 0], 2).
Proof.
  refine (proj2 (proj2 (proj2 (best_result_invariant atan2_principal unit_square 4)))
            2%nat ([], 0) _ _).
  vm_compute. reflexivity.
Defined.
End BestTheorem.

(** ** Fatal errors and rejected candidates *)

Section Errors.
Local Open Scope float_scope.

Lemma lineEquationDeterminedByPoints_Throw (p q : Point2f) (e : exn) :
  lineEquationDeterminedByPoints p q = Throw e
  <-> areEqualPoints p q = true /\ e = ASSERT_NOT_EQUAL_POINTS.
Proof.
  unfold lineEquationDeterminedByPoints.
  destruct (areEqualPoints p q); split.
  - intros H. injection H as <-. auto.
  - intros [_ ->]. reflexivity.
  - discriminate.
  - intros [H _]. discriminate H.
Qed.

Lemma lineEquationParameters_Throw (p q : Point2f) (e : exn) :
  lineEquationParameters p q = Throw e -> e = ASSERT_NOT_EQUAL_POINTS.
Proof.
  unfold lineEquationParameters. intros H.
  apply bind_Throw_inv in H as [H | ([[a b] c] & _ & H)].
  - now apply lineEquationDeterminedByPoints_Throw in H.
  - discriminate H.
Qed.

Lemma areOnTheSameSideOfLine_Throw (p1 p2 a b : Point2f) (e : exn) :
  areOnTheSameSideOfLine p1 p2 a b = Throw e -> e = ASSERT_NOT_EQUAL_POINTS.
Proof.
  unfold areOnTheSameSideOfLine. intros H.
  apply bind_Throw_inv in H as [H | ([[a1 b1] c1] & _ & H)].
  - now apply lineEquationDeterminedByPoints_Throw in H.
  - discriminate H.
Qed.

Variable polygon : list Point2f.
Variable nrOfPoints : Z.

Lemma findGammaIntersectionPoints_Throw
      (c polygonPointIndex : Z) (s1 e1 s2 e2 : Point2f) (e : exn) :
  findGammaIntersectionPoints polygon nrOfPoints c polygonPointIndex s1 e1 s2 e2 = Throw e ->
  e = ASSERT_NOT_EQUAL_POINTS.
Proof.
  unfold findGammaIntersectionPoints. intros H.
  apply bind_Throw_inv in H as [H | (side1Params & _ & H)].
  { now apply lineEquationParameters_Throw in H. }
  apply bind_Throw_inv in H as [H | (side2Params & _ & H)].
  { now apply lineEquationParameters_Throw in H. }
  destruct (areIntersectingLines _ _ _) as [[p1 p2] |]; [| discriminate H].
  destruct (areIdenticalLines_params _ _ _); discriminate H.
Qed.

Lemma gamma_Throw (polygonPointIndex a c : Z) (e : exn) :
  gamma polygon nrOfPoints polygonPointIndex a c = Throw e ->
  e = ASSERT_NOT_EQUAL_POINTS.
Proof.
  unfold gamma. intros H.
  apply bind_Throw_inv in H as [H | ([[p1 p2] |] & _ & H)].
  - now apply findGammaIntersectionPoints_Throw in H.
  - apply bind_Throw_inv in H as [H | ([] & _ & H)]; try discriminate H.
    now apply areOnTheSameSideOfLine_Throw in H.
  - discriminate H.
Qed.

Lemma updateSideB_error (a b c : Z) :
  updateSideB polygon nrOfPoints a b c = Throw ERR_SIDE_B_GAMMA
  <-> gamma polygon nrOfPoints b a c = Ret None.
Proof.
  unfold updateSideB. split.
  - intros H. apply bind_Throw_inv in H as [H | ([g |] & Hg & H)].
    + apply gamma_Throw in H. discriminate H.
    + discriminate H.
    + exact Hg.
  - intros ->. reflexivity.
Qed.

Lemma findVertexCOnSideB_error (a c : Z) (sBs sBe sCs sCe : Point2f) :
  findVertexCOnSideB polygon nrOfPoints a c sBs sBe sCs sCe
  = Throw ERR_VERTEX_C_ON_SIDE_B
  <-> findGammaIntersectionPoints polygon nrOfPoints c (predecessor a nrOfPoints)
        sBs sBe sCs sCe = Ret None.
Proof.
  unfold findVertexCOnSideB. split.
  - intros H. apply bind_Throw_inv in H as [H | ([[p1 p2] |] & Hg & H)].
    + apply findGammaIntersectionPoints_Throw in H. discriminate H.
    + apply bind_Throw_inv in H as [H | ([] & _ & H)]; try discriminate H.
      apply areOnTheSameSideOfLine_Throw in H. discriminate H.
    + exact Hg.
  - intros ->. reflexivity.
Qed.

Lemma isLocalMinimalTriangle_parallel
      (vA vB vC : Point2f) (a b : Z) (validationFlag : validation)
      (sAs sAe sBs sBe sCs sCe : Point2f) :
  lineIntersection_points sAs sAe sBs sBe = None
  \/ lineIntersection_points sAs sAe sCs sCe = None
  \/ lineIntersection_points sBs sBe sCs sCe = None ->
  fst (isLocalMinimalTriangle polygon nrOfPoints vA vB vC a b validationFlag
         sAs sAe sBs sBe sCs sCe) = false.
Proof.
  unfold isLocalMinimalTriangle. intros H.
  destruct (lineIntersection_points sAs sAe sBs sBe); [| reflexivity].
  destruct (lineIntersection_points sAs sAe sCs sCe); [| reflexivity].
  destruct (lineIntersection_points sBs sBe sCs sCe); [| reflexivity].
  destruct H as [H | [H | H]]; discriminate H.
Qed.

Lemma sweepCandidate_rejected (s : sweep) (a b : Z) (validationFlag : validation)
      (sideA sideB sideC : side) :
  fst (isLocalMinimalTriangle polygon nrOfPoints
         (fst (fst (vertices s))) (snd (fst (vertices s))) (snd (vertices s))
         a b validationFlag
         (fst sideA) (snd sideA) (fst sideB) (snd sideB) (fst sideC) (snd sideC))
  = false ->
  result (sweepCandidate polygon nrOfPoints s a b validationFlag sideA sideB sideC)
  = result s.
Proof.
  unfold sweepCandidate.
  destruct (vertices s) as [[vA0 vB0] vC0]. cbn [fst snd].
  destruct (isLocalMinimalTriangle _ _ _ _ _ _ _ _ _ _ _ _ _ _)
    as [found [[vA vB] vC]].
  cbn [fst]. intros ->. reflexivity.
Qed.
End Errors.

Section ErrorsTheorem.
Local Open Scope float_scope.

(** The assertion of [lineEquationDeterminedByPoints] fails on
    [close_vertices], whatever the arctangent and the (positive) fuel: at
    [c = 0] the loop of step S2 is entered with [a = 1], and [gamma(a)] needs
    the line through [P[1]] and [P[0]]. *)
Lemma close_vertices_assertion (atan2 : float -> float -> float) (fuel : nat) :
  findMinEnclosingTriangle atan2 (S fuel) close_vertices ([], 0)
  = Throw ASSERT_NOT_EQUAL_POINTS.
Proof. vm_compute. reflexivity. Qed.

(** C3 (counterexample).  The sweep ends in a fatal error that is neither
    of the two named ones. *)
Lemma sweep_third_fatal_error :
  findMinEnclosingTriangle atan2_principal 1 close_vertices ([], 0)
  = Throw ASSERT_NOT_EQUAL_POINTS
  /\ ASSERT_NOT_EQUAL_POINTS <> ERR_SIDE_B_GAMMA
  /\ ASSERT_NOT_EQUAL_POINTS <> ERR_VERTEX_C_ON_SIDE_B.
Proof.
  split; [apply close_vertices_assertion |]. split; discriminate.
Qed.

(** C3 (amended).  The sweep has three fatal errors.
    [lineEquationDeterminedByPoints] fails its assertion exactly when its two
    points are equal within epsilon, and that is the only error [gamma] can
    raise; [updateSideB] raises [ERR_SIDE_B_GAMMA] exactly when [gamma(b)]
    returns false; [findVertexCOnSideB] raises [ERR_VERTEX_C_ON_SIDE_B]
    exactly when [findGammaIntersectionPoints] returns false.  When one of
    the three pairs of sides has no intersection, [isLocalMinimalTriangle]
    returns false, and a candidate it rejects leaves the best triangle and
    area as they were. *)
Theorem sweep_errors (polygon : list Point2f) (nrOfPoints : Z) :
  (forall p q e,
      lineEquationDeterminedByPoints p q = Throw e
      <-> areEqualPoints p q = true /\ e = ASSERT_NOT_EQUAL_POINTS)
  /\ (forall polygonPointIndex a c e,
         gamma polygon nrOfPoints polygonPointIndex a c = Throw e ->
         e = ASSERT_NOT_EQUAL_POINTS)
  /\ (forall a b c,
         updateSideB polygon nrOfPoints a b c = Throw ERR_SIDE_B_GAMMA
         <-> gamma polygon nrOfPoints b a c = Ret None)
  /\ (forall a c sBs sBe sCs sCe,
         findVertexCOnSideB polygon nrOfPoints a c sBs sBe sCs sCe
         = Throw ERR_VERTEX_C_ON_SIDE_B
         <-> findGammaIntersectionPoints polygon nrOfPoints c
               (predecessor a nrOfPoints) sBs sBe sCs sCe = Ret None)
  /\ (forall vA vB vC a b validationFlag sAs sAe sBs sBe sCs sCe,
         lineIntersection_points sAs sAe sBs sBe = None
         \/ lineIntersection_points sAs sAe sCs sCe = None
         \/ lineIntersection_points sBs sBe sCs sCe = None ->
         fst (isLocalMinimalTriangle polygon nrOfPoints vA vB vC a b validationFlag
                sAs sAe sBs sBe sCs sCe) = false)
  /\ (forall s a b validationFlag sideA sideB sideC,
         fst (isLocalMinimalTriangle polygon nrOfPoints
                (fst (fst (vertices s))) (snd (fst (vertices s))) (snd (vertices s))
                a b validationFlag
                (fst sideA) (snd sideA) (fst sideB) (snd sideB)
                (fst sideC) (snd sideC)) = false ->
         result (sweepCandidate polygon nrOfPoints s a b validationFlag
                                sideA sideB sideC) = result s).
Proof.
  split; [apply lineEquationDeterminedByPoints_Throw |].
  split; [apply gamma_Throw |].
  split; [apply updateSideB_error |].
  split; [apply findVertexCOnSideB_error |].
  split; [apply isLocalMinimalTriangle_parallel |].
  apply sweepCandidate_rejected.
Qed.
End ErrorsTheorem.


(** ** What findMinEnclosingTriangle returns *)

Section Returns.
Local Open Scope float_scope.

Lemma small_polygon_returns
      (atan2 : float -> float -> float) (fuel : nat)
      (polygon : list Point2f) (current : best) :
  (1 <= length polygon <= 3)%nat ->
  findMinEnclosingTriangle atan2 fuel polygon current
  = Ret ([cyclic polygon 0; cyclic polygon 1; cyclic polygon 2],
         areaOfTriangle (cyclic polygon 0) (cyclic polygon 1) (cyclic polygon 2)).
Proof.
  intros H.
  destruct polygon as [| p1 [| p2 [| p3 [| p4 rest]]]]; cbn [length] in H; try lia;
    reflexivity.
Qed.

(** C6.  For a polygon of one, two or three vertices the sweep is bypassed
    (neither the fuel nor the arctangent matters, and the previous content
    of the result is discarded): the triangle is [polygon[i mod n]] for
    [i = 0, 1, 2] and the area is [areaOfTriangle] of these three points. *)
Theorem small_polygon_result
        (atan2 : float -> float -> float) (fuel : nat)
        (polygon : list Point2f) (current : best) :
  (1 <= length polygon <= 3)%nat ->
  findMinEnclosingTriangle atan2 fuel polygon current
  = Ret ([cyclic polygon 0; cyclic polygon 1; cyclic polygon 2],
         areaOfTriangle (cyclic polygon 0) (cyclic polygon 1) (cyclic polygon 2))
  /\ findMinEnclosingTriangle atan2 fuel polygon current
     = Ret (returnMinimumAreaEnclosingTriangle polygon ([], DBL_MAX)).
Proof.
  intros H. split; [now apply small_polygon_returns |].
  unfold findMinEnclosingTriangle.
  destruct polygon as [| p1 [| p2 [| p3 [| p4 rest]]]]; cbn [length] in H; try lia;
    reflexivity.
Qed.

(** The single point (5, 5): three copies of it, and area 0. *)
Lemma single_point_result :
  findMinEnclosingTriangle atan2_principal 0 [Point 5 5] ([Point 1 2], 7)
  = Ret ([Point 5 5; Point 5 5; Point 5 5], 0)
  /\ findMinEnclosingTriangle atan2_principal 0 [Point 5 5] ([Point 1 2], 7)
     = Ret (returnMinimumAreaEnclosingTriangle [Point 5 5] ([], DBL_MAX)).
Proof.
  refine (small_polygon_result atan2_principal 0 [Point 5 5] ([Point 1 2], 7) _).
  cbn [length]. lia.
Defined.

(** The square of side 2^-10: the determinant of any two of its edges is at
    most 2^-20 in absolute value, which [almostEqual] takes for 0.  Every
    [gamma] is undefined, the sweep reaches the B-tangency branch at
    [c = 0], and [updateSideB] raises [ERR_SIDE_B_GAMMA], whatever the
    arctangent and the (positive) fuel. *)
Lemma small_square_raises (atan2 : float -> float -> float) (fuel : nat) :
  findMinEnclosingTriangle atan2 (S fuel) small_square ([], 0)
  = Throw ERR_SIDE_B_GAMMA.
Proof. vm_compute. reflexivity. Qed.

(** With the arctangents of glibc the sweep of [quadrilateral] accepts no
    candidate: it returns the empty triangle and the initial area. *)
Lemma quadrilateral_result_is_empty :
  findMinEnclosingTriangle (atan2_table quadrilateral_arctangents) 3
                           quadrilateral ([], 0)
  = Ret ([], DBL_MAX).
Proof. vm_compute. reflexivity. Qed.
End Returns.

(** ** Step S2: move a if it is low and b if it is high *)

Section MoveProperties.
Local Open Scope float_scope.
Local Open Scope outcome_scope.

Variable atan2 : float -> float -> float.
Variable polygon : list Point2f.
Variable nrOfPoints : Z.

Lemma intersection_eqb_spec (i j : intersection) :
  reflect (i = j) (intersection_eqb i j).
Proof. destruct i, j; constructor; congruence. Qed.

Lemma moveIteration_moveStep (c a b a' b' : Z) :
  moveIteration atan2 polygon nrOfPoints c (a, b) (a', b')
  <-> (height polygon nrOfPoints a c <? height polygon nrOfPoints b c) = true
      /\ moveStep atan2 polygon nrOfPoints a b c = Ret (a', b').
Proof.
  unfold moveStep, moveBIsHigh, intersectsBelow, advance. split.
  - intros H. inversion H as [? ? g Hc Hg Hi | ? ? g Hc Hg Hi | ? ? Hc Hg]; subst;
      (split; [assumption |]); rewrite Hg; cbn [bind].
    + rewrite Hi. reflexivity.
    + destruct (intersection_eqb_spec
                  (intersects atan2 polygon nrOfPoints
                     (angleOfLineWrtOxAxis atan2 (at_ polygon b') g) b' c)
                  INTERSECTS_BELOW); [contradiction | reflexivity].
    + reflexivity.
  - intros [Hc H].
    destruct (gamma polygon nrOfPoints a a c) as [[g |] | e |] eqn:Hg;
      cbn [bind] in H; try discriminate H.
    + destruct (intersection_eqb_spec
                  (intersects atan2 polygon nrOfPoints
                     (angleOfLineWrtOxAxis atan2 (at_ polygon b) g) b c)
                  INTERSECTS_BELOW) as [Hi | Hi];
        injection H as <- <-.
      * now apply move_b with g.
      * now apply move_a_not_below with g.
    + injection H as <- <-. now apply move_a_no_gamma.
Qed.

Lemma moveAIfLowAndBIfHigh_sound (fuel : nat) :
  forall a b c a' b',
    moveAIfLowAndBIfHigh atan2 polygon nrOfPoints fuel a b c = Ret (a', b') ->
    clos_refl_trans_1n _ (moveIteration atan2 polygon nrOfPoints c) (a, b) (a', b')
    /\ (height polygon nrOfPoints a' c <? height polygon nrOfPoints b' c) = false.
Proof.
  induction fuel as [| fuel IH]; intros a b c a' b' H; cbn [moveAIfLowAndBIfHigh] in H.
  - discriminate H.
  - destruct (height polygon nrOfPoints a c <? height polygon nrOfPoints b c) eqn:Hc.
    + apply bind_Ret_inv in H as ([a1 b1] & Hstep & H).
      apply IH in H as [Hrun Hexit]. split; [| exact Hexit].
      apply Relation_Operators.rt1n_trans with (a1, b1); [| exact Hrun].
      apply moveIteration_moveStep. auto.
    + injection H as <- <-. split; [constructor | exact Hc].
Qed.

Lemma moveAIfLowAndBIfHigh_complete (c : Z) (start stop : Z * Z) :
  clos_refl_trans_1n _ (moveIteration atan2 polygon nrOfPoints c) start stop ->
  (height polygon nrOfPoints (fst stop) c <? height polygon nrOfPoints (snd stop) c)
  = false ->
  exists fuel,
    moveAIfLowAndBIfHigh atan2 polygon nrOfPoints fuel (fst start) (snd start) c
    = Ret stop.
Proof.
  induction 1 as [[a b] | [a b] [a1 b1] stop Hstep _ IH]; intros Hexit.
  - exists 1%nat. cbn [moveAIfLowAndBIfHigh fst snd] in *. now rewrite Hexit.
  - destruct (IH Hexit) as [fuel Hfuel].
    apply moveIteration_moveStep in Hstep as [Hc Hstep].
    exists (S fuel). cbn [moveAIfLowAndBIfHigh fst snd] in *.
    now rewrite Hc, Hstep.
Qed.

(** More fuel than needed does not change the result. *)
Lemma moveAIfLowAndBIfHigh_fuel (fuel : nat) :
  forall a b c r,
    moveAIfLowAndBIfHigh atan2 polygon nrOfPoints fuel a b c = Ret r ->
    moveAIfLowAndBIfHigh atan2 polygon nrOfPoints (S fuel) a b c = Ret r.
Proof.
  induction fuel as [| fuel IH]; intros a b c r H.
  - discriminate H.
  - cbn [moveAIfLowAndBIfHigh] in H |- *.
    destruct (height polygon nrOfPoints a c <? height polygon nrOfPoints b c);
      [| exact H].
    apply bind_Ret_inv in H as ([a1 b1] & Hstep & H).
    rewrite Hstep. cbn [bind]. now apply IH.
Qed.
End MoveProperties.

Section MoveTheorem.
Local Open Scope float_scope.

Lemma angle_on_axis (atan2 : float -> float -> float) (a b : Point2f) :
  conforms_on_axes atan2 ->
  on_axis (fsub (y b) (y a)) (fsub (x b) (x a)) = true ->
  angleOfLineWrtOxAxis atan2 a b = angleOfLineWrtOxAxis atan2_principal a b.
Proof.
  intros Hconf Haxis. unfold angleOfLineWrtOxAxis. now rewrite Hconf.
Qed.

Ltac on_axes H :=
  repeat rewrite (angle_on_axis _ _ _ H) by (vm_compute; reflexivity).

(** The sweep of the pentagon reaches the indices [a = 2], [b = 4] at
    [c = 1].  With glibc's arctangents the iteration [c = 0] ends with
    [a = 1] and [b = 3]; at [c = 1] the first loop moves [b] to 4, and the
    loop of [moveAIfLowAndBIfHigh] is entered at (1, 4), where [gamma(a)]
    does not exist: its first iteration leads to (2, 4), for every
    arctangent. *)
Lemma pentagon_state_is_reached (atan2 : float -> float -> float) :
  (exists s,
      sweepStep (atan2_table pentagon_arctangents) pentagon 5 3 0
                (Sweep 1 2 (origin, origin, origin) (initialise ([], 0))) = Ret s
      /\ idx_a s = 1%Z /\ idx_b s = 3%Z)
  /\ advanceBToRightChain pentagon 5 3 3 1 = Ret 4%Z
  /\ moveIteration atan2 pentagon 5 1 (1, 4)%Z (2, 4)%Z.
Proof.
  split; [eexists; split; [vm_compute; reflexivity | split; reflexivity] |].
  split; [vm_compute; reflexivity |].
  apply (move_a_no_gamma atan2 pentagon 5 1 1 4); vm_compute; reflexivity.
Qed.

(** At these indices [gamma(a)] is (2, 2), the line through [P[b]] and
    [gamma(a)] is critical at [b], and the source advances [a].  Every
    arctangent that conforms to Annex F on the axes gives this. *)
Lemma pentagon_source_test (atan2 : float -> float -> float) :
  conforms_on_axes atan2 ->
  moveBIsHigh atan2 pentagon 5 2 4 1 = Ret false.
Proof.
  intros H. unfold moveBIsHigh.
  replace (gamma pentagon 5 2 2 1) with (Ret (Some (Point 2 2)))
    by (vm_compute; reflexivity).
  cbn [bind]. unfold intersectsBelow, intersects. on_axes H.
  vm_compute. reflexivity.
Qed.

(** The line through [P[a]] and [gamma(a)] is side A itself, and it
    intersects below at [b]: the rule as the claim words it advances [b]. *)
Lemma pentagon_claimed_test (atan2 : float -> float -> float) :
  conforms_on_axes atan2 ->
  moveBIsHigh_lineThroughA atan2 pentagon 5 2 4 1 = Ret true.
Proof.
  intros H. unfold moveBIsHigh_lineThroughA.
  replace (gamma pentagon 5 2 2 1) with (Ret (Some (Point 2 2)))
    by (vm_compute; reflexivity).
  cbn [bind]. unfold intersects. on_axes H.
  vm_compute. reflexivity.
Qed.

Lemma atan2_principal_conforms : conforms_on_axes atan2_principal.
Proof. intros y0 x0 _. reflexivity. Qed.

(** C2 (counterexample).  In the state [a = 2], [b = 4], [c = 1] of the
    pentagon the loop condition [height(b) > height(a)] holds and
    [gamma(a)] is (2, 2).  The source advances [a].  The line through
    [gamma(a)] and [P[a]] intersects below, whether it is classified at the
    vertex [b] or at the vertex [a] it passes through: the rule with that
    line advances [b]. *)
Lemma move_rule_is_not_line_through_a :
  (height pentagon 5 2 1 <? height pentagon 5 4 1) = true
  /\ gamma pentagon 5 2 2 1 = Ret (Some (Point 2 2))
  /\ moveStep atan2_principal pentagon 5 2 4 1 = Ret (3, 4)%Z
  /\ moveBIsHigh atan2_principal pentagon 5 2 4 1 = Ret false
  /\ moveBIsHigh_lineThroughA atan2_principal pentagon 5 2 4 1 = Ret true
  /\ intersectsBelow atan2_principal pentagon 5 (Point 2 2) 2 1 = true.
Proof.
  split; [vm_compute; reflexivity |].
  split; [vm_compute; reflexivity |].
  split; [unfold moveStep; rewrite (pentagon_source_test _ atan2_principal_conforms);
          reflexivity |].
  split; [apply pentagon_source_test, atan2_principal_conforms |].
  split; [apply pentagon_claimed_test, atan2_principal_conforms |].
  vm_compute. reflexivity.
Qed.

(** C2 (amended).  [moveAIfLowAndBIfHigh] returns the indices [(a', b')]
    (for some amount of fuel) exactly when a sequence of iterations leads
    from [(a, b)] to [(a', b')] and [height(b') > height(a')] is false: it
    iterates exactly while [height(b) > height(a)].  Each iteration advances
    [b] when [gamma(a)] exists and the line through [gamma(a)] and [P[b]]
    intersects the polygon below at [b], and advances [a] in every other
    case ([moveIteration]). *)
Theorem moveAIfLowAndBIfHigh_iterations
        (atan2 : float -> float -> float) (polygon : list Point2f) (nrOfPoints : Z)
        (a b c a' b' : Z) :
  (exists fuel,
      moveAIfLowAndBIfHigh atan2 polygon nrOfPoints fuel a b c = Ret (a', b'))
  <-> clos_refl_trans_1n _ (moveIteration atan2 polygon nrOfPoints c) (a, b) (a', b')
      /\ (height polygon nrOfPoints a' c <? height polygon nrOfPoints b' c) = false.
Proof.
  split.
  - intros [fuel H]. now apply moveAIfLowAndBIfHigh_sound with fuel.
  - intros [Hrun Hexit].
    exact (moveAIfLowAndBIfHigh_complete atan2 polygon nrOfPoints c
             (a, b) (a', b') Hrun Hexit).
Qed.

(** On the pentagon the loop makes one iteration from (2, 4) and stops at
    (3, 4), where the two heights are equal. *)
Lemma pentagon_iterations :
  clos_refl_trans_1n _ (moveIteration atan2_principal pentagon 5 1) (2, 4)%Z (3, 4)%Z
  /\ (height pentagon 5 3 1 <? height pentagon 5 4 1) = false.
Proof.
  apply (moveAIfLowAndBIfHigh_iterations atan2_principal pentagon 5 2 4 1 3 4).
  exists 2%nat. cbn [moveAIfLowAndBIfHigh].
  replace (height pentagon 5 2 1 <? height pentagon 5 4 1) with true
    by (vm_compute; reflexivity).
  unfold moveStep. rewrite (pentagon_source_test _ atan2_principal_conforms).
  vm_compute. reflexivity.
Defined.
End MoveTheorem.

(** ** Gamma on coincident lines *)

Section GammaCoincident.
Local Open Scope float_scope.

(** Two lines whose determinant is zero, parallel or coincident, have no
    intersection. *)
Lemma lineIntersection_parallel (a1 b1 c1 a2 b2 c2 : float) :
  ((a1 * b2) - (a2 * b1) =? 0) = true ->
  lineIntersection a1 b1 c1 a2 b2 c2 = None.
Proof.
  intros H. unfold lineIntersection.
  destruct (eqb_zero _ H) as [-> | ->]; reflexivity.
Qed.

(** So [findGammaIntersectionPoints] returns false on them before it tests
    whether the lines are identical. *)
Lemma findGammaIntersectionPoints_parallel
      (polygon : list Point2f) (nrOfPoints c polygonPointIndex : Z)
      (s1 e1 s2 e2 : Point2f) (side1Params side2Params : list float) :
  lineEquationParameters s1 e1 = Ret side1Params ->
  lineEquationParameters s2 e2 = Ret side2Params ->
  ((param side1Params 0 * param side2Params 1)
   - (param side2Params 0 * param side1Params 1) =? 0) = true ->
  findGammaIntersectionPoints polygon nrOfPoints c polygonPointIndex s1 e1 s2 e2
  = Ret None.
Proof.
  intros H1 H2 Hdet. unfold findGammaIntersectionPoints.
  rewrite H1, H2. cbn [bind]. unfold areIntersectingLines.
  now rewrite lineIntersection_parallel.
Qed.

(** C8.  On the hexagon, with side C on the edge from (0, 0) to (4, 0)
    ([c = 1]), the vertex (5, 1) ([p = 2]) and side A on the edge from
    (4, 2) to (0, 2) ([a = 4]), side A is the line parallel to side C at
    twice the height of [p]: the source's own test [areIdenticalLines]
    holds.  Nevertheless [findGammaIntersectionPoints] returns false, and so
    does [gamma].  The sweep of the unit square meets the same case at
    [c = 1]: after the first iteration [a = 1] and [b = 2], step S1 moves
    [b] to 3, the loop of step S2 is entered, and [gamma(a)] is asked for
    with side A on side C and [P[a]] at height 0; it fails. *)
Theorem gamma_fails_on_coincident_lines :
  (lineEquationParameters (at_ hexagon 4) (at_ hexagon 3) = Ret [0; -4; 8]
   /\ lineEquationParameters (at_ hexagon 1) (at_ hexagon 0) = Ret [0; 4; -0]
   /\ 2 * height hexagon 6 2 1 * sqrt (0 * 0 + 4 * 4) = 8
   /\ areIdenticalLines_params [0; -4; 8] [0; 4; -0] 8 = true
   /\ findGammaIntersectionPoints hexagon 6 1 2
        (at_ hexagon 4) (at_ hexagon 3) (at_ hexagon 1) (at_ hexagon 0) = Ret None
   /\ gamma hexagon 6 2 4 1 = Ret None)
  /\ (sweepStep atan2_principal unit_square 4 2 0
                (Sweep 1 2 (origin, origin, origin) ([], DBL_MAX))
      = Ret (Sweep 1 2 (Point 0 2, Point (-0) (-0), Point 2 0)
                   ([Point 0 2; Point (-0) (-0); Point 2 0], 2))
      /\ advanceBToRightChain unit_square 4 2 2 1 = Ret 3%Z
      /\ (height unit_square 4 1 1 <? height unit_square 4 3 1) = true
      /\ lineEquationParameters (at_ unit_square 1) (at_ unit_square 0)
         = Ret [0; 1; -0]
      /\ 2 * height unit_square 4 1 1 * sqrt (0 * 0 + 1 * 1) = 0
      /\ areIdenticalLines_params [0; 1; -0] [0; 1; -0] 0 = true
      /\ gamma unit_square 4 1 1 1 = Ret None).
Proof.
  repeat split; vm_compute; reflexivity.
Qed.
End GammaCoincident.

(** * Further properties of the helper functions *)

(** ** Comparisons with a tolerance *)

Section SpecArithmetic.
Local Open Scope Z_scope.
Variables p e : Z.

(** Rounding carries the sign through unchanged: it commutes with the change
    of sign. *)
Lemma binary_round_aux_opp (s : bool) (m ex : Z) (l : location) :
  binary_round_aux p e (negb s) m ex l = SFopp (binary_round_aux p e s m ex l).
Proof.
  unfold binary_round_aux.
  destruct (shr_fexp p e m ex l) as [mrs' e'].
  destruct (shr_fexp p e _ e' loc_Exact) as [mrs'' e''].
  destruct (shr_m mrs'') as [| m' | m']; try reflexivity.
  destruct (Z.leb e'' (e - p)); reflexivity.
Qed.

Lemma binary_round_opp (s : bool) (m : positive) (ex : Z) :
  binary_round p e (negb s) m ex = SFopp (binary_round p e s m ex).
Proof.
  unfold binary_round.
  destruct (shl_align m ex _) as [mz ez].
  apply binary_round_aux_opp.
Qed.

Lemma SFopp_involutive (f : spec_float) : SFopp (SFopp f) = f.
Proof. destruct f as [s | s | | s m ex]; cbn; now rewrite ?negb_involutive. Qed.

(** [g - f] is the opposite of [f - g], except when the difference is exactly
    zero: then both are [+0]. *)
Lemma SFsub_swap (f g : spec_float) :
  SFsub p e g f = SFopp (SFsub p e f g)
  \/ (SFsub p e f g = S754_zero false /\ SFsub p e g f = S754_zero false).
Proof.
  destruct f as [sf | sf | | sf mf ef], g as [sg | sg | | sg mg eg]; cbn [SFsub SFopp];
    try (destruct sf, sg; cbn; auto; fail); try (left; reflexivity);
    try (left; now rewrite ?negb_involutive).
  rewrite (Z.min_comm eg ef).
  set (u := cond_Zopp sf _). set (v := cond_Zopp sg _).
  replace (v - u) with (- (u - v)) by lia.
  destruct (u - v) as [| d | d]; cbn [Z.opp binary_normalize]; auto.
  - left. apply (binary_round_opp false).
  - left. apply (binary_round_opp true).
Qed.

(** Multiplication is commutative, in its special cases as well. *)
Lemma SFmul_comm (f g : spec_float) : SFmul p e f g = SFmul p e g f.
Proof.
  destruct f as [sf | sf | | sf mf ef], g as [sg | sg | | sg mg eg]; cbn [SFmul];
    rewrite ?(xorb_comm sf sg); try reflexivity.
  now rewrite Pos.mul_comm, Z.add_comm.
Qed.

(** The sign of a product is the exclusive or of the signs of its factors. *)
Lemma SFmul_opp_l (f g : spec_float) : SFmul p e (SFopp f) g = SFopp (SFmul p e f g).
Proof.
  destruct f as [sf | sf | | sf mf ef], g as [sg | sg | | sg mg eg]; cbn [SFmul SFopp];
    rewrite <- ?negb_xorb_l; try reflexivity.
  apply binary_round_aux_opp.
Qed.

(** Addition is commutative, in its special cases as well. *)
Lemma SFadd_comm (f g : spec_float) : SFadd p e f g = SFadd p e g f.
Proof.
  destruct f as [sf | sf | | sf mf ef], g as [sg | sg | | sg mg eg]; cbn [SFadd];
    try (destruct sf, sg; reflexivity); try reflexivity.
  now rewrite Z.min_comm, Z.add_comm.
Qed.
End SpecArithmetic.

Section FloatArithmetic.
Local Open Scope float_scope.

(** The same facts on the [double] values of the program. *)
Lemma float_add_comm (a b : float) : a + b = b + a.
Proof. apply Prim2SF_inj. rewrite !add_spec. apply SFadd_comm. Qed.

Lemma float_mul_comm (a b : float) : a * b = b * a.
Proof. apply Prim2SF_inj. rewrite !mul_spec. apply SFmul_comm. Qed.

Lemma mul_opp_l (a b : float) : (- a) * b = - (a * b).
Proof. apply Prim2SF_inj. rewrite opp_spec, !mul_spec, opp_spec. apply SFmul_opp_l. Qed.

Lemma mul_opp_r (a b : float) : a * (- b) = - (a * b).
Proof. now rewrite float_mul_comm, mul_opp_l, float_mul_comm. Qed.

Lemma float_opp_involutive (a : float) : - - a = a.
Proof. apply Prim2SF_inj. rewrite !opp_spec. apply SFopp_involutive. Qed.

Lemma abs_opp (a : float) : abs (- a) = abs a.
Proof.
  apply Prim2SF_inj. rewrite !abs_spec, opp_spec.
  now destruct (Prim2SF a).
Qed.

(** The two differences of two numbers are opposite, or both are [+0]. *)
Lemma sub_swap (a b : float) : b - a = - (a - b) \/ (a - b = 0 /\ b - a = 0).
Proof.
  destruct (SFsub_swap prec emax (Prim2SF a) (Prim2SF b)) as [H | [H H']].
  - left. apply Prim2SF_inj. now rewrite opp_spec, !sub_spec.
  - right. split; apply Prim2SF_inj; now rewrite sub_spec.
Qed.

Lemma abs_sub_swap (a b : float) : abs (a - b) = abs (b - a).
Proof.
  destruct (sub_swap a b) as [-> | [-> ->]]; [now rewrite abs_opp | reflexivity].
Qed.

(** Subtracting [+0] changes nothing, not even the sign of a zero. *)
Lemma sub_zero_r (a : float) : a - 0 = a.
Proof.
  apply Prim2SF_inj. rewrite sub_spec.
  change (Prim2SF 0) with (S754_zero false).
  now destruct (Prim2SF a) as [[] | | |].
Qed.

Lemma SF2Prim_opp (f : spec_float) : SF2Prim (SFopp f) = - SF2Prim f.
Proof.
  destruct f as [[] | [] | | [] m ex]; try reflexivity.
  cbn [SFopp SF2Prim negb]. now rewrite float_opp_involutive.
Qed.

(** [static_cast<float>] commutes with the change of sign. *)
Lemma to_float_opp (d : float) : to_float (- d) = - to_float d.
Proof.
  unfold to_float. rewrite opp_spec.
  destruct (Prim2SF d) as [s | s | | s m ex]; try reflexivity.
  cbn [SFopp]. now rewrite binary_round_opp, SF2Prim_opp.
Qed.

(** The two [float] differences of two numbers are opposite, or both are
    [+0]. *)
Lemma fsub_swap (a b : float) :
  fsub b a = - fsub a b \/ (fsub a b = 0 /\ fsub b a = 0).
Proof.
  unfold fsub.
  destruct (sub_swap a b) as [-> | [-> ->]]; [left; apply to_float_opp | now right].
Qed.

Lemma fadd_comm (a b : float) : fadd a b = fadd b a.
Proof. unfold fadd. now rewrite float_add_comm. Qed.

Lemma fmul_comm (a b : float) : fmul a b = fmul b a.
Proof. unfold fmul. now rewrite float_mul_comm. Qed.
End FloatArithmetic.

Section FloatOrderMore.
Local Open Scope float_scope.

(** [<] is transitive. *)
Lemma ltb_trans (a b c : float) :
  (a <? b) = true -> (b <? c) = true -> (a <? c) = true.
Proof. intros H H'. apply ltb_leb_trans with b; [exact H | now apply ltb_leb]. Qed.

(** [<] is irreflexive. *)
Lemma ltb_irrefl (a : float) : (a <? a) = false.
Proof.
  destruct (a <? a) eqn:H; [| reflexivity].
  rewrite ltb_spec in H. apply SFltb_rank in H as (r & r' & Hr & Hr' & L).
  rewrite Hr in Hr'. injection Hr' as <-. destruct r as [[c x] m]. cbn in L. lia.
Qed.

(** Two positive numbers neither of which is below the other are the same
    number. *)
Lemma ltb_neither (a b : float) :
  (0 <? a) = true -> (0 <? b) = true ->
  (a <? b) = false -> (b <? a) = false -> a = b.
Proof.
  rewrite !ltb_spec. change (Prim2SF 0) with (S754_zero false).
  intros Ha Hb Hab Hba. apply Prim2SF_inj.
  apply SFltb_rank in Ha as (z & ra & Hz & Hra & Ha).
  apply SFltb_rank in Hb as (z' & rb & Hz' & Hrb & Hb).
  injection Hz as <-. injection Hz' as <-.
  assert (Hn : ~ lex_lt ra rb).
  { intros L. enough (SFltb (Prim2SF a) (Prim2SF b) = true) by congruence.
    apply SFltb_rank. eauto. }
  assert (Hn' : ~ lex_lt rb ra).
  { intros L. enough (SFltb (Prim2SF b) (Prim2SF a) = true) by congruence.
    apply SFltb_rank. eauto. }
  destruct ra as [[ca ea] ma], rb as [[cb eb] mb].
  cbn in Ha, Hb, Hn, Hn'.
  destruct (Prim2SF a) as [sa | [] | | [] ma' ea'], (Prim2SF b) as [sb | [] | | [] mb' eb'];
    cbn in Hra, Hrb; try discriminate;
    injection Hra as <- <- <-; injection Hrb as <- <- <-; try lia; try reflexivity.
  assert (ea' = eb') by lia. assert (ma' = mb') by lia. now subst.
Qed.

(** The scale [max(max(1, u), v)] of the tolerance does not depend on the
    order of [u] and [v]. *)
Lemma std_max_swap (u v : float) :
  std_max (std_max 1 u) v = std_max (std_max 1 v) u.
Proof.
  assert (H01 : (0 <? 1) = true) by reflexivity.
  unfold std_max.
  destruct (1 <? u) eqn:Hu, (1 <? v) eqn:Hv.
  - destruct (u <? v) eqn:Huv, (v <? u) eqn:Hvu; try reflexivity.
    + pose proof (ltb_trans _ _ _ Huv Hvu) as C.
      rewrite ltb_irrefl in C. discriminate C.
    + symmetry. apply ltb_neither; eauto using ltb_trans.
  - rewrite ?Hu, ?Hv. destruct (u <? v) eqn:Huv; [| reflexivity].
    rewrite (ltb_trans _ _ _ Hu Huv) in Hv. discriminate Hv.
  - rewrite ?Hu, ?Hv. destruct (v <? u) eqn:Hvu; [| reflexivity].
    rewrite (ltb_trans _ _ _ Hv Hvu) in Hu. discriminate Hu.
  - now rewrite ?Hu, ?Hv.
Qed.

Lemma almostEqual_comm (a b : float) : almostEqual a b = almostEqual b a.
Proof.
  unfold almostEqual, maximum.
  now rewrite (abs_sub_swap a b), (std_max_swap (abs a) (abs b)).
Qed.
End FloatOrderMore.

Section RoundingSign.
Local Open Scope Z_scope.
Variables p e : Z.

(** The shifts of the rounding keep a magnitude that is not negative. *)
Lemma iter_pos_invariant {A : Type} (P : A -> Prop) (f : A -> A) :
  (forall a, P a -> P (f a)) -> forall n a, P a -> P (iter_pos f n a).
Proof.
  intros Hf. induction n as [n IH | n IH |]; intros a Ha; cbn; auto.
Qed.

Lemma shr_1_not_negative (mrs : shr_record) :
  0 <= shr_m mrs -> 0 <= shr_m (shr_1 mrs).
Proof.
  destruct mrs as [m r s]. destruct m as [| [q | q |] | [q | q |]]; cbn; lia.
Qed.

Lemma shr_fexp_not_negative (m ex : Z) (l : location) :
  0 <= m -> 0 <= shr_m (fst (shr_fexp p e m ex l)).
Proof.
  intros Hm. unfold shr_fexp, shr.
  assert (H : 0 <= shr_m (shr_record_of_loc m l)) by now destruct l as [| []].
  destruct (fexp p e (Zdigits2 m + ex) - ex) as [| n | n]; cbn [fst]; try exact H.
  apply (iter_pos_invariant (fun mrs => 0 <= shr_m mrs)); auto using shr_1_not_negative.
Qed.

Lemma round_nearest_even_not_negative (m : Z) (l : location) :
  0 <= m -> 0 <= round_nearest_even m l.
Proof.
  intros Hm. destruct l as [| []]; cbn; try lia.
  destruct (Z.even m); lia.
Qed.

(** Rounding a magnitude with a clear sign bit gives zero, a positive number
    or positive infinity. *)
Lemma binary_round_aux_not_below_zero (mz ez : Z) (lz : location) :
  0 <= mz ->
  SFleb (S754_zero false) (binary_round_aux p e false mz ez lz) = true.
Proof.
  intros Hm. unfold binary_round_aux.
  pose proof (shr_fexp_not_negative mz ez lz Hm) as H.
  destruct (shr_fexp p e mz ez lz) as [mrs' e']. cbn [fst] in H.
  pose proof (shr_fexp_not_negative _ e' loc_Exact
                (round_nearest_even_not_negative _ (loc_of_shr_record mrs') H)) as H'.
  destruct (shr_fexp p e _ e' loc_Exact) as [mrs'' e'']. cbn [fst] in H'.
  destruct (shr_m mrs'') as [| m | m]; try reflexivity; try lia.
  destruct (Z.leb e'' (e - p)); reflexivity.
Qed.
End RoundingSign.

Section AlmostEqualRefl.
Local Open Scope float_scope.

(** The scale of the tolerance is 1 or the magnitude itself. *)
Lemma maximum_of_magnitude (u : float) :
  maximum 1 u u = 1 \/ (maximum 1 u u = u /\ (1 <? u) = true).
Proof.
  unfold maximum, std_max.
  destruct (1 <? u) eqn:H.
  - right. now rewrite ltb_irrefl.
  - left. now rewrite H.
Qed.

(** The tolerance that [almostEqual] allows around a finite number is not
    below zero. *)
Lemma tolerance_not_below_zero (x : float) (s : bool) (m : positive) (ex : Z) :
  Prim2SF (abs x) = S754_finite s m ex \/ Prim2SF (abs x) = S754_zero s ->
  SFleb (S754_zero false) (Prim2SF (EPSILON * maximum 1 (abs x) (abs x))) = true.
Proof.
  intros H. rewrite mul_spec.
  destruct (maximum_of_magnitude (abs x)) as [-> | [-> H1]].
  - reflexivity.
  - rewrite ltb_spec in H1. rewrite abs_spec in H, H1 |- *.
    change (Prim2SF 1) with (S754_finite false 4503599627370496 (-52)) in H1.
    change (Prim2SF EPSILON) with (S754_finite false 5902958103587057 (-69)).
    destruct (Prim2SF x) as [sx | sx | | sx mx ex']; cbn [SFabs] in *;
      try (destruct H as [H | H]; discriminate H); try discriminate H1.
    cbn [SF64mul SFmul xorb]. now apply binary_round_aux_not_below_zero.
Qed.

Lemma SFeqb_refl_finite (s : bool) (m : positive) (ex : Z) :
  SFeqb (S754_finite s m ex) (S754_finite s m ex) = true.
Proof.
  unfold SFeqb, SFcompare. rewrite Z.compare_refl.
  change (Pos.compare_cont Eq m m) with (Pos.compare m m). rewrite Pos.compare_refl.
  now destruct s.
Qed.

(** For a finite number [x - x] is [+0], within every tolerance; for an
    infinity and for a NaN it is a NaN. *)
Lemma almostEqual_refl (x : float) : almostEqual x x = is_finite x.
Proof.
  unfold almostEqual, is_finite, is_nan, is_infinity.
  rewrite leb_spec, !eqb_spec, !abs_spec, sub_spec.
  change (Prim2SF infinity) with (S754_infinity false).
  pose proof (tolerance_not_below_zero x) as T. rewrite abs_spec in T.
  destruct (Prim2SF x) as [s | s | | s m ex] eqn:E; cbn [SFabs] in *.
  - replace (SF64sub (S754_zero s) (S754_zero s)) with (S754_zero false)
      by now destruct s.
    cbn [SFabs]. rewrite (T false 1%positive 0%Z) by auto. reflexivity.
  - replace (SF64sub (S754_infinity s) (S754_infinity s)) with S754_nan
      by now destruct s.
    now destruct s.
  - reflexivity.
  - replace (SF64sub (S754_finite s m ex) (S754_finite s m ex)) with (S754_zero false)
      by (cbn; now rewrite Z.sub_diag).
    cbn [SFabs]. rewrite (T false m ex) by auto.
    rewrite SFeqb_refl_finite. reflexivity.
Qed.
End AlmostEqualRefl.

Section Totality.
Local Open Scope float_scope.

(** The numbers that are not NaNs are those of the order. *)
Lemma is_nan_rank (a : float) :
  is_nan a = false <-> exists r, rank (Prim2SF a) = Some r.
Proof.
  unfold is_nan. rewrite eqb_spec.
  destruct (Prim2SF a) as [[] | [] | | [] m ex]; cbn [rank]; split;
    try (intros _; eauto; fail); try (intros [r H]; discriminate H);
    try discriminate; try (intros _; reflexivity).
  - intros _. now rewrite SFeqb_refl_finite.
  - intros _. now rewrite SFeqb_refl_finite.
Qed.

(** The order is total on the numbers that are not NaNs. *)
Lemma ltb_false_leb (a b : float) :
  is_nan a = false -> is_nan b = false -> (a <? b) = false -> (b <=? a) = true.
Proof.
  rewrite !is_nan_rank, ltb_spec, leb_spec. intros [ra Ha] [rb Hb] H.
  apply SFleb_rank. exists rb, ra. repeat split; try assumption.
  assert (Hn : ~ lex_lt ra rb).
  { intros L. enough (SFltb (Prim2SF a) (Prim2SF b) = true) by congruence.
    apply SFltb_rank. eauto. }
  destruct ra as [[ca ea] ma], rb as [[cb eb] mb]. cbn in Hn |- *. lia.
Qed.

Lemma leb_ltb_trans (a b c : float) :
  (a <=? b) = true -> (b <? c) = true -> (a <? c) = true.
Proof.
  rewrite !ltb_spec, !leb_spec, !SFltb_rank, !SFleb_rank.
  intros (p & q & Hp & Hq & H) (q' & r & Hq' & Hr & H').
  rewrite Hq in Hq'. injection Hq' as <-.
  exists p, r. repeat split; try assumption.
  destruct p as [[? ?] ?], q as [[? ?] ?], r as [[? ?] ?]. cbn in *. lia.
Qed.

Lemma leb_refl (a : float) : is_nan a = false -> (a <=? a) = true.
Proof.
  rewrite is_nan_rank, leb_spec. intros [r H]. apply SFleb_rank.
  exists r, r. auto using lex_le_refl.
Qed.

Lemma ltb_not_nan_l (a b : float) : (a <? b) = true -> is_nan a = false.
Proof.
  rewrite ltb_spec, SFltb_rank, is_nan_rank. intros (p & q & Hp & _). eauto.
Qed.

Lemma ltb_not_nan_r (a b : float) : (a <? b) = true -> is_nan b = false.
Proof.
  rewrite ltb_spec, SFltb_rank, is_nan_rank. intros (p & q & _ & Hq & _). eauto.
Qed.

(** [std::max] of two numbers is above both. *)
Lemma std_max_bounds (a b : float) :
  is_nan a = false -> is_nan b = false ->
  (a <=? std_max a b) = true /\ (b <=? std_max a b) = true
  /\ is_nan (std_max a b) = false.
Proof.
  intros Ha Hb. unfold std_max. destruct (a <? b) eqn:H.
  - auto using ltb_leb, leb_refl.
  - auto using ltb_false_leb, leb_refl.
Qed.

Lemma maximum_bounds (a b c : float) :
  is_nan a = false -> is_nan b = false -> is_nan c = false ->
  (a <=? maximum a b c) = true /\ (b <=? maximum a b c) = true
  /\ (c <=? maximum a b c) = true.
Proof.
  intros Ha Hb Hc. unfold maximum.
  destruct (std_max_bounds a b Ha Hb) as (Ha' & Hb' & Hm).
  destruct (std_max_bounds (std_max a b) c Hm Hc) as (Hm' & Hc' & _).
  eauto using leb_trans.
Qed.

Lemma maximum_is_argument (a b c : float) :
  maximum a b c = a \/ maximum a b c = b \/ maximum a b c = c.
Proof.
  unfold maximum, std_max.
  destruct (a <? b); [destruct (b <? c) | destruct (a <? c)]; auto.
Qed.

(** *** Not a number *)

(** A difference with a NaN is a NaN. *)
Lemma sub_nan_l (a b : float) : is_nan a = true -> Prim2SF (abs (a - b)) = S754_nan.
Proof.
  unfold is_nan. rewrite eqb_spec, abs_spec, sub_spec. intros H.
  destruct (Prim2SF a) as [[] | [] | | s m ex]; try discriminate H; try reflexivity.
  rewrite SFeqb_refl_finite in H. discriminate H.
Qed.

Lemma ltb_nan_l (a b : float) : is_nan a = true -> (a <? b) = false.
Proof.
  intros H. destruct (a <? b) eqn:E; [| reflexivity].
  apply ltb_not_nan_l in E. congruence.
Qed.

Lemma ltb_nan_r (a b : float) : is_nan b = true -> (a <? b) = false.
Proof.
  intros H. destruct (a <? b) eqn:E; [| reflexivity].
  apply ltb_not_nan_r in E. congruence.
Qed.

Lemma almostEqual_nan_l (a b : float) : is_nan a = true -> almostEqual a b = false.
Proof.
  intros H. unfold almostEqual. now rewrite leb_spec, (sub_nan_l a b H).
Qed.
End Totality.

Section Infinity.
Local Open Scope float_scope.

(** [is_finite] on the specification of a number. *)
Lemma is_finite_spec (d : float) : is_finite d = finite_number (Prim2SF d).
Proof.
  unfold is_finite, is_nan, is_infinity. rewrite !eqb_spec, abs_spec.
  change (Prim2SF infinity) with (S754_infinity false).
  destruct (Prim2SF d) as [[] | [] | | s m ex]; try reflexivity.
  now rewrite SFeqb_refl_finite.
Qed.

Lemma is_infinity_abs (d : float) : is_infinity d = true -> abs d = infinity.
Proof.
  unfold is_infinity. rewrite eqb_spec, abs_spec. intros H.
  apply Prim2SF_inj. rewrite abs_spec.
  change (Prim2SF infinity) with (S754_infinity false) in *.
  now destruct (Prim2SF d) as [[] | [] | | [] m ex].
Qed.

(** [std::max(inf, u)] is [inf]: nothing is above it. *)
Lemma std_max_infinity_l (u : float) : std_max infinity u = infinity.
Proof.
  unfold std_max. rewrite ltb_spec.
  change (Prim2SF infinity) with (S754_infinity false).
  now destruct (Prim2SF u) as [[] | [] | | [] m ex].
Qed.

(** Next to an infinity the difference and the tolerance are both
    infinite. *)
Lemma almostEqual_infinity_l (a b : float) :
  is_infinity a = true -> is_finite b = true -> almostEqual a b = true.
Proof.
  intros Ha Hb. unfold almostEqual, maximum.
  rewrite (is_infinity_abs a Ha).
  change (std_max 1 infinity) with infinity. rewrite std_max_infinity_l.
  change (EPSILON * infinity) with infinity.
  apply is_infinity_abs in Ha. apply (f_equal Prim2SF) in Ha.
  rewrite is_finite_spec in Hb.
  rewrite leb_spec, abs_spec, sub_spec. rewrite abs_spec in Ha.
  change (Prim2SF infinity) with (S754_infinity false) in *.
  destruct (Prim2SF a) as [[] | [] | | [] ma ea]; try discriminate Ha;
    destruct (Prim2SF b) as [[] | [] | | [] mb eb]; try discriminate Hb; reflexivity.
Qed.
End Infinity.

Section Trichotomy.
Local Open Scope float_scope.

(** The two zeros. *)
Lemma zero_cases (d : float) (s : bool) : Prim2SF d = S754_zero s -> d = 0 \/ d = - 0.
Proof.
  intros H. rewrite <- (SF2Prim_Prim2SF d), H. destruct s; auto.
Qed.

(** Two finite numbers neither of which is below the other are equal or two
    zeros: they are [almostEqual]. *)
Lemma neither_below_almostEqual (a b : float) :
  is_finite a = true -> is_finite b = true ->
  (a <? b) = false -> (b <? a) = false -> almostEqual a b = true.
Proof.
  intros Ha Hb Hab Hba.
  assert (H : Prim2SF a = Prim2SF b
              \/ exists s s', Prim2SF a = S754_zero s /\ Prim2SF b = S754_zero s').
  { rewrite is_finite_spec in Ha, Hb. rewrite ltb_spec in Hab, Hba.
    assert (Hn : forall r r', rank (Prim2SF a) = Some r -> rank (Prim2SF b) = Some r' ->
                              ~ lex_lt r r' /\ ~ lex_lt r' r).
    { intros r r' Hr Hr'. split; intros L.
      - enough (SFltb (Prim2SF a) (Prim2SF b) = true) by congruence.
        apply SFltb_rank. eauto.
      - enough (SFltb (Prim2SF b) (Prim2SF a) = true) by congruence.
        apply SFltb_rank. eauto. }
    destruct (Prim2SF a) as [sa | sa | | [] ma ea], (Prim2SF b) as [sb | sb | | [] mb eb];
      try discriminate Ha; try discriminate Hb; eauto;
      destruct (Hn _ _ eq_refl eq_refl) as [L L']; cbn in L, L'; try lia.
    - left. assert (ea = eb) by lia. assert (ma = mb) by lia. now subst.
    - left. assert (ea = eb) by lia. assert (ma = mb) by lia. now subst. }
  destruct H as [H | (s & s' & H & H')].
  - apply Prim2SF_inj in H. subst b. now rewrite almostEqual_refl.
  - apply zero_cases in H as [-> | ->]; apply zero_cases in H' as [-> | ->]; reflexivity.
Qed.
End Trichotomy.

Section ToleranceTheorems.
Local Open Scope float_scope.

(** X1.  [almostEqual] does not depend on the order of its two arguments,
    and neither does [areEqualPoints]. *)
Theorem almostEqual_symmetric (a b : float) (p q : Point2f) :
  almostEqual a b = almostEqual b a
  /\ areEqualPoints p q = areEqualPoints q p.
Proof.
  split; [apply almostEqual_comm |].
  unfold areEqualPoints.
  now rewrite (almostEqual_comm (x p)), (almostEqual_comm (y p)).
Qed.

(** X2.  [greaterOrEqual(a, b)] and [lessOrEqual(b, a)] are the same
    test. *)
Theorem greaterOrEqual_lessOrEqual_swap (a b : float) :
  greaterOrEqual a b = lessOrEqual b a.
Proof. unfold greaterOrEqual, lessOrEqual. now rewrite almostEqual_comm. Qed.

(** X3.  A number is [almostEqual] to itself exactly when it is finite: for
    an infinity and for a NaN the difference [x - x] is a NaN and the test
    fails.  The same holds for [greaterOrEqual], [lessOrEqual] and, on the
    two coordinates, for [areEqualPoints]. *)
Theorem almostEqual_reflexive_iff_finite (d : float) (p : Point2f) :
  almostEqual d d = is_finite d
  /\ greaterOrEqual d d = is_finite d
  /\ lessOrEqual d d = is_finite d
  /\ areEqualPoints p p = is_finite (x p) && is_finite (y p).
Proof.
  unfold greaterOrEqual, lessOrEqual, areEqualPoints.
  now rewrite ltb_irrefl, !almostEqual_refl.
Qed.

(** X4.  An infinity is [almostEqual] to every finite number: the tolerance
    [EPSILON * max(1, |a|, |b|)] is then infinite as well.  So every finite
    number is both [greaterOrEqual] and [lessOrEqual] to an infinity of
    either sign. *)
Theorem almostEqual_infinity (a b : float) :
  is_infinity a = true -> is_finite b = true ->
  almostEqual a b = true /\ almostEqual b a = true
  /\ greaterOrEqual b a = true /\ lessOrEqual b a = true.
Proof.
  intros Ha Hb. pose proof (almostEqual_infinity_l a b Ha Hb) as H.
  unfold greaterOrEqual, lessOrEqual.
  rewrite (almostEqual_comm b a), H, !orb_true_r. auto.
Qed.

(** The number 1 and positive infinity. *)
Lemma one_almostEqual_infinity :
  almostEqual infinity 1 = true /\ almostEqual 1 infinity = true
  /\ greaterOrEqual 1 infinity = true /\ lessOrEqual 1 infinity = true.
Proof. apply (almostEqual_infinity infinity 1); reflexivity. Defined.

(** X5.  When one of the two numbers is a NaN, [almostEqual],
    [greaterOrEqual] and [lessOrEqual] all answer [false], in either
    order. *)
Theorem comparisons_with_nan (a b : float) :
  is_nan a = true ->
  almostEqual a b = false /\ almostEqual b a = false
  /\ greaterOrEqual a b = false /\ greaterOrEqual b a = false
  /\ lessOrEqual a b = false /\ lessOrEqual b a = false.
Proof.
  intros H. unfold greaterOrEqual, lessOrEqual.
  rewrite (almostEqual_comm b a), (almostEqual_nan_l a b H).
  rewrite (ltb_nan_l a b H), (ltb_nan_r b a H). auto 6.
Qed.

(** A NaN and the number 1. *)
Lemma nan_compares_with_nothing :
  almostEqual nan 1 = false /\ almostEqual 1 nan = false
  /\ greaterOrEqual nan 1 = false /\ greaterOrEqual 1 nan = false
  /\ lessOrEqual nan 1 = false /\ lessOrEqual 1 nan = false.
Proof. apply (comparisons_with_nan nan 1). reflexivity. Defined.

(** X6.  Two finite numbers are always comparable: [greaterOrEqual(a, b)]
    or [lessOrEqual(a, b)] holds. *)
Theorem finite_numbers_compare (a b : float) :
  is_finite a = true -> is_finite b = true ->
  greaterOrEqual a b || lessOrEqual a b = true.
Proof.
  intros Ha Hb. unfold greaterOrEqual, lessOrEqual.
  destruct (b <? a) eqn:Hba; [reflexivity |].
  destruct (a <? b) eqn:Hab; [now rewrite orb_true_r |].
  now rewrite neither_below_almostEqual.
Qed.

(** The two zeros. *)
Lemma zeros_compare : greaterOrEqual 0 (- 0) || lessOrEqual 0 (- 0) = true.
Proof. apply (finite_numbers_compare 0 (- 0)); reflexivity. Defined.

(** X7.  When none of its three arguments is a NaN, [maximum] returns one
    of them, and no argument is above it. *)
Theorem maximum_upper_bound (a b c : float) :
  is_nan a = false -> is_nan b = false -> is_nan c = false ->
  (a <=? maximum a b c) = true /\ (b <=? maximum a b c) = true
  /\ (c <=? maximum a b c) = true
  /\ (maximum a b c = a \/ maximum a b c = b \/ maximum a b c = c).
Proof.
  intros Ha Hb Hc.
  destruct (maximum_bounds a b c Ha Hb Hc) as (H1 & H2 & H3).
  auto using maximum_is_argument.
Qed.

(** The maximum of 1, 2.5 and 2. *)
Lemma maximum_of_three :
  (1 <=? maximum 1 2.5 2) = true /\ (2.5 <=? maximum 1 2.5 2) = true
  /\ (2 <=? maximum 1 2.5 2) = true
  /\ (maximum 1 2.5 2 = 1 \/ maximum 1 2.5 2 = 2.5 \/ maximum 1 2.5 2 = 2).
Proof. apply (maximum_upper_bound 1 2.5 2); reflexivity. Defined.
End ToleranceTheorems.

(** ** Points, segments and lines *)

Section Symmetry.
Local Open Scope float_scope.

(** The square of a difference does not depend on its direction. *)
Lemma square_of_difference (a b : float) :
  fsub a b * fsub a b = fsub b a * fsub b a.
Proof.
  destruct (fsub_swap a b) as [-> | [-> ->]]; [| reflexivity].
  now rewrite mul_opp_l, mul_opp_r, float_opp_involutive.
Qed.

Lemma distanceBtwPoints_comm (a b : Point2f) :
  distanceBtwPoints a b = distanceBtwPoints b a.
Proof.
  unfold distanceBtwPoints.
  now rewrite (square_of_difference (x a) (x b)), (square_of_difference (y a) (y b)).
Qed.

Lemma isPointOnLineSegment_ends (point s e : Point2f) :
  isPointOnLineSegment point s e = isPointOnLineSegment point e s.
Proof.
  unfold isPointOnLineSegment.
  now rewrite float_add_comm, (distanceBtwPoints_comm s e).
Qed.

(** A difference and its opposite are [almostEqual] to 0 together. *)
Lemma almostEqual_zero_swap (a b : float) :
  almostEqual (a - b) 0 = almostEqual (b - a) 0.
Proof.
  unfold almostEqual. rewrite !sub_zero_r. now rewrite (abs_sub_swap a b).
Qed.

Lemma lineIntersection_order (a1 b1 c1 a2 b2 c2 : float) :
  lineIntersection a1 b1 c1 a2 b2 c2 = None
  <-> lineIntersection a2 b2 c2 a1 b1 c1 = None.
Proof.
  unfold lineIntersection.
  rewrite (almostEqual_zero_swap (a1 * b2) (a2 * b1)).
  destruct (almostEqual (a2 * b1 - a1 * b2) 0); cbn [negb]; split; congruence.
Qed.

Lemma lineIntersection_points_order (a1 b1 a2 b2 : Point2f) :
  lineIntersection_points a1 b1 a2 b2 = None
  <-> lineIntersection_points a2 b2 a1 b1 = None.
Proof.
  unfold lineIntersection_points.
  rewrite (almostEqual_zero_swap (fsub (y b1) (y a1) * fsub (x a2) (x b2))
                                 (fsub (y b2) (y a2) * fsub (x a1) (x b1))).
  destruct (almostEqual _ 0); cbn [negb]; split; congruence.
Qed.
End Symmetry.

Section SignsAndZeros.
Local Open Scope float_scope.

(** Rounding with a clear sign bit gives a clear sign bit. *)
Lemma binary_round_aux_sign_clear (p e mz ez : Z) (lz : location) :
  sign_clear (binary_round_aux p e false mz ez lz) = true.
Proof.
  unfold binary_round_aux.
  destruct (shr_fexp p e mz ez lz) as [mrs' e'].
  destruct (shr_fexp p e _ e' loc_Exact) as [mrs'' e''].
  destruct (shr_m mrs'') as [| m | m]; try reflexivity.
  destruct (Z.leb e'' (e - p)); reflexivity.
Qed.

Lemma SFabs_sign_clear (f : spec_float) : sign_clear (SFabs f) = true.
Proof. now destruct f. Qed.

(** A square root that is not a zero has a clear sign bit. *)
Lemma SFsqrt_sign_clear (f : spec_float) :
  SFeqb (SF64sqrt f) (S754_zero false) = false -> sign_clear (SF64sqrt f) = true.
Proof.
  destruct f as [s | [] | | [] m ex]; cbn; try reflexivity; try discriminate.
  intros _. destruct (SFsqrt_core_binary prec emax (Zpos m) ex) as [[mz ez] lz].
  apply binary_round_aux_sign_clear.
Qed.

Lemma SFdiv_sign_clear (f g : spec_float) :
  sign_clear f = true -> sign_clear g = true -> sign_clear (SF64div f g) = true.
Proof.
  destruct f as [[] | [] | | [] mf ef], g as [[] | [] | | [] mg eg];
    cbn; try reflexivity; try discriminate.
  intros _ _.
  destruct (SFdiv_core_binary prec emax (Zpos mf) ef (Zpos mg) eg) as [[mz ez] lz].
  apply binary_round_aux_sign_clear.
Qed.

(** A number with a clear sign bit is not below zero. *)
Lemma sign_clear_not_negative (f : spec_float) :
  sign_clear f = true -> SFltb f (S754_zero false) = false.
Proof. destruct f as [[] | [] | | [] m ex]; cbn; try reflexivity; discriminate. Qed.

Lemma distanceFromPointToLine_not_negative (a b c : Point2f) :
  (distanceFromPointToLine a b c <? 0) = false.
Proof.
  unfold distanceFromPointToLine.
  set (n := _ - _). set (v := _ + _).
  destruct (sqrt v =? 0) eqn:Hd; [reflexivity |].
  rewrite eqb_spec, sqrt_spec in Hd. rewrite ltb_spec, div_spec, abs_spec, sqrt_spec.
  apply sign_clear_not_negative, SFdiv_sign_clear.
  - apply SFabs_sign_clear.
  - now apply SFsqrt_sign_clear.
Qed.

(** *** Zeros *)

(** [f - f] is a zero or a NaN. *)
Lemma SFsub_diag (f : spec_float) : zero_or_nan (SF64sub f f) = true.
Proof.
  destruct f as [[] | [] | | s m ex]; try reflexivity.
  cbn. now rewrite Z.sub_diag.
Qed.

Lemma SFsub_diag_abs (f : spec_float) :
  SFabs (SF64sub f f) = S754_zero false \/ SFabs (SF64sub f f) = S754_nan.
Proof.
  destruct f as [[] | [] | | s m ex]; cbn; auto.
  rewrite Z.sub_diag. auto.
Qed.

Lemma SFmul_zero_or_nan_l (f g : spec_float) :
  zero_or_nan f = true -> zero_or_nan (SF64mul f g) = true.
Proof. destruct f as [sf | sf | | sf mf ef], g as [sg | sg | | sg mg eg]; cbn; congruence. Qed.

Lemma SFsub_zero_or_nan (f g : spec_float) :
  zero_or_nan f = true -> zero_or_nan g = true -> zero_or_nan (SF64sub f g) = true.
Proof.
  destruct f as [[] | sf | | sf mf ef], g as [[] | sg | | sg mg eg]; cbn; congruence.
Qed.

Lemma to_float_zero_or_nan (d : float) :
  zero_or_nan (Prim2SF d) = true -> to_float d = d.
Proof. unfold to_float. destruct (Prim2SF d); cbn; congruence. Qed.

Lemma sub_diag_zero_or_nan (d : float) : zero_or_nan (Prim2SF (d - d)) = true.
Proof. rewrite sub_spec. apply SFsub_diag. Qed.

Lemma fsub_diag_zero_or_nan (d : float) : zero_or_nan (Prim2SF (fsub d d)) = true.
Proof.
  unfold fsub. rewrite to_float_zero_or_nan; apply sub_diag_zero_or_nan.
Qed.

Lemma mul_zero_or_nan_l (u v : float) :
  zero_or_nan (Prim2SF u) = true -> zero_or_nan (Prim2SF (u * v)) = true.
Proof. rewrite mul_spec. apply SFmul_zero_or_nan_l. Qed.

Lemma mul_zero_or_nan_r (u v : float) :
  zero_or_nan (Prim2SF v) = true -> zero_or_nan (Prim2SF (u * v)) = true.
Proof. rewrite float_mul_comm. apply mul_zero_or_nan_l. Qed.

Lemma sub_zero_or_nan (u v : float) :
  zero_or_nan (Prim2SF u) = true -> zero_or_nan (Prim2SF v) = true ->
  zero_or_nan (Prim2SF (u - v)) = true.
Proof. rewrite sub_spec. apply SFsub_zero_or_nan. Qed.

(** A number that is zero or a NaN, once [abs] is applied and the result
    divided by a number that is not negative and not zero, is [+0] or a
    NaN. *)
Lemma zero_quotient (n v : float) :
  zero_or_nan (Prim2SF n) = true ->
  let d := if sqrt v =? 0 then 0 else abs n / sqrt v in
  d = 0 \/ is_nan d = true.
Proof.
  intros Hn. cbn zeta.
  destruct (sqrt v =? 0) eqn:Hd; [now left |].
  rewrite eqb_spec, sqrt_spec in Hd.
  pose proof (SFsqrt_sign_clear _ Hd) as Hs.
  assert (H : Prim2SF (abs n / sqrt v) = S754_zero false
              \/ Prim2SF (abs n / sqrt v) = S754_nan).
  { rewrite div_spec, abs_spec, sqrt_spec.
    destruct (Prim2SF n) as [sn | sn | | sn mn en]; try discriminate Hn;
      destruct (SF64sqrt (Prim2SF v)) as [[] | [] | | [] mv ev];
      cbn in *; auto; discriminate. }
  destruct H as [H | H].
  - left. apply Prim2SF_inj. exact H.
  - right. unfold is_nan. now rewrite eqb_spec, H.
Qed.
End SignsAndZeros.

Section DegenerateCases.
Local Open Scope float_scope.

(** The distance from the first point of the line to the line: the terms
    [term2] and [term3] are differences of a coordinate with itself. *)
Lemma distanceFromPointToLine_at_B (b c : Point2f) :
  distanceFromPointToLine b b c = 0 \/ is_nan (distanceFromPointToLine b b c) = true.
Proof.
  unfold distanceFromPointToLine. apply zero_quotient. apply sub_zero_or_nan.
  - apply mul_zero_or_nan_r, fsub_diag_zero_or_nan.
  - apply mul_zero_or_nan_l, fsub_diag_zero_or_nan.
Qed.

(** The distance from the second point of the line to the line: [term3] is
    the opposite of [term1] and [term4] the opposite of [term2], so the two
    products of the nominator are equal. *)
Lemma distanceFromPointToLine_at_C (b c : Point2f) :
  distanceFromPointToLine c b c = 0 \/ is_nan (distanceFromPointToLine c b c) = true.
Proof.
  unfold distanceFromPointToLine. apply zero_quotient.
  destruct (fsub_swap (x c) (x b)) as [H3 | [H1 H3]];
    destruct (fsub_swap (y b) (y c)) as [H4 | [H2 H4]].
  - rewrite H3, H4, mul_opp_l, mul_opp_r, float_opp_involutive.
    apply sub_diag_zero_or_nan.
  - rewrite H2, H4.
    apply sub_zero_or_nan; now apply mul_zero_or_nan_r.
  - rewrite H1, H3.
    apply sub_zero_or_nan; now apply mul_zero_or_nan_l.
  - rewrite H1, H3.
    apply sub_zero_or_nan; now apply mul_zero_or_nan_l.
Qed.

(** Half of the absolute value of a zero is [+0]. *)
Lemma half_zero_or_nan (d : float) :
  zero_or_nan (Prim2SF d) = true -> abs d / 2 = 0 \/ is_nan (abs d / 2) = true.
Proof.
  intros H.
  assert (H' : Prim2SF (abs d / 2) = S754_zero false \/ Prim2SF (abs d / 2) = S754_nan).
  { rewrite div_spec, abs_spec.
    change (Prim2SF 2) with (S754_finite false 4503599627370496 (-51)).
    destruct (Prim2SF d) as [sd | sd | | sd md ed]; try discriminate H; cbn; auto. }
  destruct H' as [H' | H'].
  - left. now apply Prim2SF_inj.
  - right. unfold is_nan. now rewrite eqb_spec, H'.
Qed.

(** A triangle whose third vertex is its first: the two sums of products
    are the same number. *)
Lemma areaOfTriangle_two_points (a b : Point2f) :
  areaOfTriangle a b a = 0 \/ is_nan (areaOfTriangle a b a) = true.
Proof.
  unfold areaOfTriangle. apply half_zero_or_nan.
  rewrite (fmul_comm (y b) (x a)), (fmul_comm (x a) (y a)), (fmul_comm (y a) (x b)).
  apply sub_diag_zero_or_nan.
Qed.

(** A quotient by a NaN is a NaN, and so is its conversion to [float]. *)
Lemma division_by_nan (n d : float) :
  Prim2SF d = S754_nan -> to_float (n / d) = nan.
Proof.
  intros H.
  assert (H' : Prim2SF (n / d) = S754_nan).
  { rewrite div_spec, H. now destruct (Prim2SF n). }
  unfold to_float. rewrite H'. now apply Prim2SF_inj.
Qed.

(** [d - d] is [+0] for a finite [d] and a NaN otherwise. *)
Lemma sub_diag_cases (d : float) : d - d = 0 \/ Prim2SF (d - d) = S754_nan.
Proof.
  assert (H : SF64sub (Prim2SF d) (Prim2SF d) = S754_zero false
              \/ SF64sub (Prim2SF d) (Prim2SF d) = S754_nan).
  { destruct (Prim2SF d) as [[] | [] | | s m ex]; cbn; auto.
    rewrite Z.sub_diag. auto. }
  destruct H as [H | H].
  - left. apply Prim2SF_inj. now rewrite sub_spec.
  - right. now rewrite sub_spec.
Qed.

Lemma almostEqual_nan (d : float) : Prim2SF d = S754_nan -> almostEqual d 0 = false.
Proof.
  intros H. unfold almostEqual. rewrite sub_zero_r, leb_spec, abs_spec, H. reflexivity.
Qed.
End DegenerateCases.

Section SegmentEnds.
Local Open Scope float_scope.

(** A finite result has finite operands. *)
Lemma SFsqrt_finite (f : spec_float) :
  finite_number (SF64sqrt f) = true -> finite_number f = true.
Proof. now destruct f as [[] | [] | | [] m ex]. Qed.

Lemma SFadd_finite (f g : spec_float) :
  finite_number (SF64add f g) = true -> finite_number f = true /\ finite_number g = true.
Proof.
  destruct f as [[] | [] | | [] mf ef], g as [[] | [] | | [] mg eg]; cbn; auto;
    discriminate.
Qed.

Lemma SFmul_finite (f g : spec_float) :
  finite_number (SF64mul f g) = true -> finite_number f = true /\ finite_number g = true.
Proof.
  destruct f as [[] | [] | | [] mf ef], g as [[] | [] | | [] mg eg]; cbn; auto;
    discriminate.
Qed.

Lemma SFsub_finite (f g : spec_float) :
  finite_number (SF64sub f g) = true -> finite_number f = true /\ finite_number g = true.
Proof.
  destruct f as [[] | [] | | [] mf ef], g as [[] | [] | | [] mg eg]; cbn; auto;
    discriminate.
Qed.

Lemma to_float_finite (d : float) :
  is_finite (to_float d) = true -> is_finite d = true.
Proof.
  rewrite !is_finite_spec. unfold to_float.
  destruct (Prim2SF d) as [[] | [] | | s m ex] eqn:E; rewrite ?E; auto.
Qed.

Lemma fsub_finite (a b : float) :
  is_finite (fsub a b) = true -> is_finite a = true /\ is_finite b = true.
Proof.
  intros H. apply to_float_finite in H. rewrite !is_finite_spec in *.
  rewrite sub_spec in H. now apply SFsub_finite.
Qed.

(** A finite distance is a distance between points with finite
    coordinates. *)
Lemma distanceBtwPoints_finite (a b : Point2f) :
  is_finite (distanceBtwPoints a b) = true ->
  (is_finite (x a) = true /\ is_finite (x b) = true)
  /\ (is_finite (y a) = true /\ is_finite (y b) = true).
Proof.
  unfold distanceBtwPoints. rewrite is_finite_spec, sqrt_spec, add_spec, !mul_spec.
  intros H. apply SFsqrt_finite, SFadd_finite in H as [Hx Hy].
  apply SFmul_finite in Hx as [Hx _]. apply SFmul_finite in Hy as [Hy _].
  rewrite <- is_finite_spec in Hx, Hy.
  split; now apply fsub_finite.
Qed.

(** The difference of a finite coordinate with itself is [+0]. *)
Lemma fsub_diag (d : float) : is_finite d = true -> fsub d d = 0.
Proof.
  intros H. unfold fsub.
  replace (d - d) with 0; [reflexivity |].
  apply Prim2SF_inj. rewrite sub_spec. rewrite is_finite_spec in H.
  destruct (Prim2SF d) as [[] | [] | | s m ex]; try discriminate H; try reflexivity.
  cbn. now rewrite Z.sub_diag.
Qed.

(** The distance from a point to itself is [+0]. *)
Lemma distanceBtwPoints_diag (a : Point2f) :
  is_finite (x a) = true -> is_finite (y a) = true -> distanceBtwPoints a a = 0.
Proof.
  intros Hx Hy. unfold distanceBtwPoints. now rewrite !fsub_diag.
Qed.

(** A square, a sum of squares and its root have a clear sign bit. *)
Lemma SFmul_square_sign_clear (f : spec_float) : sign_clear (SF64mul f f) = true.
Proof.
  destruct f as [[] | [] | | s m ex]; try reflexivity.
  cbn. rewrite xorb_nilpotent. apply binary_round_aux_sign_clear.
Qed.

Lemma SFadd_sign_clear (f g : spec_float) :
  sign_clear f = true -> sign_clear g = true -> sign_clear (SF64add f g) = true.
Proof.
  destruct f as [[] | [] | | [] mf ef], g as [[] | [] | | [] mg eg];
    cbn; try reflexivity; try discriminate.
  intros _ _. unfold binary_round.
  destruct (shl_align _ _ _) as [mz ez]. apply binary_round_aux_sign_clear.
Qed.

(** A square root that is not a zero has a clear sign bit. *)
Lemma SFsqrt_sign_clear' (f : spec_float) :
  sign_clear f = true -> sign_clear (SF64sqrt f) = true.
Proof.
  destruct f as [[] | [] | | [] m ex]; cbn; try reflexivity; try discriminate.
  intros _. destruct (SFsqrt_core_binary prec emax (Zpos m) ex) as [[mz ez] lz].
  apply binary_round_aux_sign_clear.
Qed.

Lemma distanceBtwPoints_sign_clear (a b : Point2f) :
  sign_clear (Prim2SF (distanceBtwPoints a b)) = true.
Proof.
  unfold distanceBtwPoints. rewrite sqrt_spec, add_spec, !mul_spec.
  apply SFsqrt_sign_clear', SFadd_sign_clear; apply SFmul_square_sign_clear.
Qed.

(** Adding [+0] to a number with a clear sign bit changes nothing. *)
Lemma add_zero_l (d : float) : sign_clear (Prim2SF d) = true -> 0 + d = d.
Proof.
  intros H. apply Prim2SF_inj. rewrite add_spec.
  change (Prim2SF 0) with (S754_zero false).
  destruct (Prim2SF d) as [[] | [] | | [] m ex]; try discriminate H; reflexivity.
Qed.

Lemma isPointOnLineSegment_start (s e : Point2f) :
  is_finite (distanceBtwPoints s e) = true -> isPointOnLineSegment s s e = true.
Proof.
  intros H. destruct (distanceBtwPoints_finite s e H) as [[Hx _] [Hy _]].
  unfold isPointOnLineSegment.
  rewrite (distanceBtwPoints_diag s Hx Hy).
  rewrite add_zero_l by apply distanceBtwPoints_sign_clear.
  now rewrite almostEqual_refl.
Qed.

Lemma isPointOnLineSegment_end (s e : Point2f) :
  is_finite (distanceBtwPoints s e) = true -> isPointOnLineSegment e s e = true.
Proof.
  intros H. rewrite isPointOnLineSegment_ends.
  apply isPointOnLineSegment_start. now rewrite distanceBtwPoints_comm.
Qed.
End SegmentEnds.

Section GeometryTheorems.
Local Open Scope float_scope.

(** X8.  [distanceBtwPoints] is symmetric, and [isPointOnLineSegment] does
    not depend on the order of the two ends of the segment. *)
Theorem distanceBtwPoints_symmetric (a b point : Point2f) :
  distanceBtwPoints a b = distanceBtwPoints b a
  /\ isPointOnLineSegment point a b = isPointOnLineSegment point b a.
Proof. split; [apply distanceBtwPoints_comm | apply isPointOnLineSegment_ends]. Qed.

(** X9.  The two ends of a segment of finite length lie on the segment for
    [isPointOnLineSegment]. *)
Theorem segment_ends_on_segment (s e : Point2f) :
  is_finite (distanceBtwPoints s e) = true ->
  isPointOnLineSegment s s e = true /\ isPointOnLineSegment e s e = true.
Proof.
  intros H. split; [now apply isPointOnLineSegment_start | now apply isPointOnLineSegment_end].
Qed.

(** The segment from (0, 0) to (3, 4). *)
Lemma segment_ends_on_segment_3_4 :
  isPointOnLineSegment (Point 0 0) (Point 0 0) (Point 3 4) = true
  /\ isPointOnLineSegment (Point 3 4) (Point 0 0) (Point 3 4) = true.
Proof. apply (segment_ends_on_segment (Point 0 0) (Point 3 4)). reflexivity. Defined.

(** X10.  [middlePoint] is symmetric. *)
Theorem middlePoint_symmetric (a b : Point2f) : middlePoint a b = middlePoint b a.
Proof.
  unfold middlePoint. now rewrite (fadd_comm (x a)), (fadd_comm (y a)).
Qed.

(** X11.  [areaOfTriangle] gives the same number, bit for bit, when the
    first and the third vertex are exchanged.  It is not the same for every
    order of the vertices: the sums of the products are rounded to binary32
    in the order in which they are written, and exchanging the first two
    vertices of (1, 0.625), (1, 1), (3, 16777215) changes the area from 0
    to 1. *)
Theorem areaOfTriangle_reversed (a b c : Point2f) :
  areaOfTriangle a b c = areaOfTriangle c b a
  /\ areaOfTriangle (Point 1 0.625) (Point 1 1) (Point 3 16777215) = 0
  /\ areaOfTriangle (Point 1 1) (Point 1 0.625) (Point 3 16777215) = 1.
Proof.
  split; [| split; reflexivity].
  unfold areaOfTriangle.
  rewrite (fmul_comm (x c) (y b)), (fmul_comm (y c) (x a)), (fmul_comm (x b) (y a)).
  rewrite (fmul_comm (y b) (x a)), (fmul_comm (x c) (y a)), (fmul_comm (y c) (x b)).
  now rewrite abs_sub_swap.
Qed.

(** X12.  Whether two lines intersect for [lineIntersection] (either
    overload), and whether they are identical for [areIdenticalLines], does
    not depend on the order in which the two lines are given. *)
Theorem lines_in_either_order (a1 b1 c1 a2 b2 c2 : float) (p1 q1 p2 q2 : Point2f) :
  (lineIntersection a1 b1 c1 a2 b2 c2 = None
   <-> lineIntersection a2 b2 c2 a1 b1 c1 = None)
  /\ (lineIntersection_points p1 q1 p2 q2 = None
      <-> lineIntersection_points p2 q2 p1 q1 = None)
  /\ areIdenticalLines a1 b1 c1 a2 b2 c2 = areIdenticalLines a2 b2 c2 a1 b1 c1.
Proof.
  split; [apply lineIntersection_order |].
  split; [apply lineIntersection_points_order |].
  unfold areIdenticalLines.
  now rewrite (almostEqual_comm (a1 * b2)), (almostEqual_comm (b1 * c2)),
    (almostEqual_comm (a1 * c2)).
Qed.

(** X13.  A line has no intersection with itself: [lineIntersection] on
    the same two points twice returns [false], unless the determinant
    overflows to a NaN, in which case the point it writes has two NaN
    coordinates. *)
Theorem line_does_not_intersect_itself (a b : Point2f) :
  lineIntersection_points a b a b = None
  \/ lineIntersection_points a b a b = Some (Point nan nan).
Proof.
  unfold lineIntersection_points.
  destruct (sub_diag_cases (fsub (y b) (y a) * fsub (x a) (x b))) as [-> | H].
  - left. reflexivity.
  - right. rewrite (almostEqual_nan _ H). cbn [negb].
    now rewrite !(division_by_nan _ _ H).
Qed.

(** X14.  A distance from a point to a line, and so a height, is never
    negative. *)
Theorem height_not_negative (polygon : list Point2f) (nrOfPoints i c : Z)
        (a linePointB linePointC : Point2f) :
  (distanceFromPointToLine a linePointB linePointC <? 0) = false
  /\ (height polygon nrOfPoints i c <? 0) = false
  /\ (height_of_point polygon nrOfPoints a c <? 0) = false.
Proof.
  unfold height, height_of_point.
  auto using distanceFromPointToLine_not_negative.
Qed.

(** X15.  The two vertices of side C, [c] and its predecessor, have height
    exactly 0 over side C (no rounding error), unless the computation
    overflows and gives a NaN. *)
Theorem height_of_side_C_ends (polygon : list Point2f) (nrOfPoints c : Z) :
  (height polygon nrOfPoints c c = 0
   \/ is_nan (height polygon nrOfPoints c c) = true)
  /\ (height polygon nrOfPoints (predecessor c nrOfPoints) c = 0
      \/ is_nan (height polygon nrOfPoints (predecessor c nrOfPoints) c) = true).
Proof.
  unfold height. split.
  - apply distanceFromPointToLine_at_B.
  - apply distanceFromPointToLine_at_C.
Qed.
End GeometryTheorems.

(** ** Degenerate polygons *)

Section DegenerateTheorems.
Local Open Scope float_scope.

(** X16.  For a polygon of one vertex [p] the call returns the triangle
    (p, p, p), and for a polygon of two vertices [p], [q] the triangle
    (p, q, p); in both cases the returned area is exactly 0, unless the
    products of the coordinates overflow and it is a NaN. *)
Theorem degenerate_polygon_area (atan2 : float -> float -> float) (fuel : nat)
        (current : best) (p q : Point2f) :
  (exists area,
      findMinEnclosingTriangle atan2 fuel [p] current = Ret ([p; p; p], area)
      /\ (area = 0 \/ is_nan area = true))
  /\ (exists area,
         findMinEnclosingTriangle atan2 fuel [p; q] current = Ret ([p; q; p], area)
         /\ (area = 0 \/ is_nan area = true)).
Proof.
  split; eexists; (split; [reflexivity |]); apply areaOfTriangle_two_points.
Qed.
End DegenerateTheorems.

(** ** Angles *)

Section NonReflex.
Local Open Scope float_scope.

(** Two angles that are more than 180 apart are numbers. *)
Lemma far_apart_not_nan (angle2 angle3 : float) :
  (180 <? abs (angle2 - angle3)) = true ->
  is_nan angle2 = false /\ is_nan angle3 = false.
Proof.
  intros H.
  split.
  - destruct (is_nan angle2) eqn:E; [| reflexivity].
    rewrite ltb_spec, (sub_nan_l _ _ E) in H. discriminate H.
  - destruct (is_nan angle3) eqn:E; [| reflexivity].
    rewrite abs_sub_swap, ltb_spec, (sub_nan_l _ _ E) in H. discriminate H.
Qed.

(** The first branch of [isAngleBetweenNonReflex]. *)
Lemma isAngleBetweenNonReflex_far_apart (angle1 angle2 angle3 : float) :
  (180 <? abs (angle2 - angle3)) = true ->
  lessOrEqual 0 angle1 = true -> lessOrEqual angle1 360 = true ->
  isAngleBetweenNonReflex angle1 angle2 angle3
  = ((angle2 <? angle1) && (angle3 <? angle1))
    || ((angle1 <? angle2) && (angle1 <? angle3)).
Proof.
  intros H H0 H360. unfold isAngleBetweenNonReflex. rewrite H, H0, H360.
  destruct (far_apart_not_nan _ _ H) as [N2 N3].
  rewrite !andb_true_r, !andb_true_l.
  destruct (angle3 <? angle2) eqn:H32.
  - destruct (angle2 <? angle1) eqn:H21.
    + now rewrite (ltb_trans _ _ _ H32 H21).
    + cbn [orb andb]. destruct (angle1 <? angle3) eqn:H13.
      * now rewrite (ltb_trans _ _ _ H13 H32).
      * now rewrite andb_false_r.
  - apply ltb_false_leb in H32; [| assumption | assumption].
    destruct (angle3 <? angle1) eqn:H31.
    + now rewrite (leb_ltb_trans _ _ _ H32 H31).
    + rewrite andb_false_r. cbn [orb]. destruct (angle1 <? angle2) eqn:H12.
      * now rewrite (ltb_leb_trans _ _ _ H12 H32).
      * reflexivity.
Qed.
End NonReflex.

Section AngleTheorems.
Local Open Scope float_scope.

(** X17.  For two angles more than 180 apart and an angle within [[0, 360]]
    (up to the tolerance), [isAngleBetweenNonReflex] tests the arc through
    0: the angle is above both or below both.  In that case the order of
    the two angles does not matter. *)
Theorem isAngleBetweenNonReflex_through_zero (angle1 angle2 angle3 : float) :
  (180 <? abs (angle2 - angle3)) = true ->
  lessOrEqual 0 angle1 = true -> lessOrEqual angle1 360 = true ->
  isAngleBetweenNonReflex angle1 angle2 angle3
  = ((angle2 <? angle1) && (angle3 <? angle1))
    || ((angle1 <? angle2) && (angle1 <? angle3))
  /\ isAngleBetweenNonReflex angle1 angle2 angle3
     = isAngleBetweenNonReflex angle1 angle3 angle2.
Proof.
  intros H H0 H360.
  rewrite (isAngleBetweenNonReflex_far_apart _ _ _ H H0 H360).
  rewrite abs_sub_swap in H.
  rewrite (isAngleBetweenNonReflex_far_apart _ _ _ H H0 H360).
  split; [reflexivity |].
  now rewrite (andb_comm (angle2 <? angle1)), (andb_comm (angle1 <? angle2)).
Qed.

(** The angles 350 and 10: 355 is between them, on the arc through 0. *)
Lemma isAngleBetweenNonReflex_350_10 :
  isAngleBetweenNonReflex 355 350 10
  = ((350 <? 355) && (10 <? 355)) || ((355 <? 350) && (355 <? 10))
  /\ isAngleBetweenNonReflex 355 350 10 = isAngleBetweenNonReflex 355 10 350.
Proof. apply (isAngleBetweenNonReflex_through_zero 355 350 10); reflexivity. Defined.

(** X18.  With an arctangent that conforms to C11 Annex F on the coordinate
    axes, the angle of a line parallel to an axis (and of a line through
    two points with equal coordinates) is exactly 0, 90, 180 or 270. *)
Theorem angle_of_axis_parallel_line (atan2 : float -> float -> float) (a b : Point2f) :
  conforms_on_axes atan2 ->
  on_axis (fsub (y b) (y a)) (fsub (x b) (x a)) = true ->
  angleOfLineWrtOxAxis atan2 a b = 0
  \/ angleOfLineWrtOxAxis atan2 a b = - 0
  \/ angleOfLineWrtOxAxis atan2 a b = 90
  \/ angleOfLineWrtOxAxis atan2 a b = 180
  \/ angleOfLineWrtOxAxis atan2 a b = 270.
Proof.
  intros Hconf Haxis. unfold angleOfLineWrtOxAxis. rewrite (Hconf _ _ Haxis).
  unfold on_axis in Haxis. unfold atan2_principal.
  destruct (Prim2SF (fsub (y b) (y a))) as [[] | [] | | [] my ey];
    destruct (Prim2SF (fsub (x b) (x a))) as [[] | [] | | [] mx ex];
    try discriminate Haxis; vm_compute; auto 6.
Qed.

(** The edge of the unit square from (1, 1) down to (1, 0). *)
Lemma angle_of_vertical_edge :
  angleOfLineWrtOxAxis atan2_principal (Point 1 1) (Point 1 0) = 0
  \/ angleOfLineWrtOxAxis atan2_principal (Point 1 1) (Point 1 0) = - 0
  \/ angleOfLineWrtOxAxis atan2_principal (Point 1 1) (Point 1 0) = 90
  \/ angleOfLineWrtOxAxis atan2_principal (Point 1 1) (Point 1 0) = 180
  \/ angleOfLineWrtOxAxis atan2_principal (Point 1 1) (Point 1 0) = 270.
Proof.
  apply (angle_of_axis_parallel_line atan2_principal (Point 1 1) (Point 1 0)).
  - intros y0 x0 _. reflexivity.
  - reflexivity.
Defined.
End AngleTheorems.

(** ** The intersection classifier *)

Section Classifier.
Variable atan2 : float -> float -> float.
Variable polygon : list Point2f.
Variable nrOfPoints : Z.

(** [intersectsAboveOrBelow] answers above when the neighbour is strictly
    higher. *)
Lemma intersectsAboveOrBelow_above (neighbour index c : Z) :
  intersectsAboveOrBelow polygon nrOfPoints neighbour index c = INTERSECTS_ABOVE ->
  (height polygon nrOfPoints index c <? height polygon nrOfPoints neighbour c)%float = true.
Proof.
  unfold intersectsAboveOrBelow. now destruct (PrimFloat.ltb _ _).
Qed.
End Classifier.

Section ClassifierTheorems.
Local Open Scope float_scope.

(** X19.  [intersects] answers [INTERSECTS_ABOVE] at a vertex only when one
    of the two neighbours of the vertex is strictly higher over side C than
    the vertex itself. *)
Theorem intersects_above_higher_neighbour
        (atan2 : float -> float -> float) (polygon : list Point2f)
        (nrOfPoints : Z) (angle : float) (index c : Z) :
  intersects atan2 polygon nrOfPoints angle index c = INTERSECTS_ABOVE ->
  (height polygon nrOfPoints index c
   <? height polygon nrOfPoints (predecessor index nrOfPoints) c) = true
  \/ (height polygon nrOfPoints index c
      <? height polygon nrOfPoints (successor index nrOfPoints) c) = true.
Proof.
  unfold intersects.
  destruct (isFlushAngleBtwPredAndSucc _ _ _) as [[] flushAngle].
  - destruct (_ || _).
    + intros H. left. now apply intersectsAboveOrBelow_above.
    + destruct (_ || _); [| discriminate].
      intros H. right. now apply intersectsAboveOrBelow_above.
  - destruct (_ || _); discriminate.
Qed.

(** In the pentagon, over the edge that ends at the vertex 4, the vertical
    line through the vertex 2 intersects above. *)
Lemma pentagon_intersects_above :
  (height pentagon 5 2 4 <? height pentagon 5 (predecessor 2 5) 4) = true
  \/ (height pentagon 5 2 4 <? height pentagon 5 (successor 2 5) 4) = true.
Proof.
  apply (intersects_above_higher_neighbour atan2_principal pentagon 5 90 2 4).
  reflexivity.
Defined.
End ClassifierTheorems.

(** ** Existence of gamma *)

Section GammaExists.
Local Open Scope float_scope.
Local Open Scope outcome_scope.

Variable polygon : list Point2f.
Variable nrOfPoints : Z.

(** [lineIntersection] fails exactly when the determinant is [almostEqual]
    to 0. *)
Lemma lineIntersection_None (a1 b1 c1 a2 b2 c2 : float) :
  lineIntersection a1 b1 c1 a2 b2 c2 = None
  <-> almostEqual (a1 * b2 - a2 * b1) 0 = true.
Proof.
  unfold lineIntersection.
  destruct (almostEqual (a1 * b2 - a2 * b1) 0); cbn [negb]; split; congruence.
Qed.

(** [lineEquationParameters] returns the three coefficients of
    [lineEquationDeterminedByPoints]. *)
Lemma lineEquationParameters_Ret (p q : Point2f) (params : list float) :
  lineEquationParameters p q = Ret params
  <-> exists a b c,
      lineEquationDeterminedByPoints p q = Ret (a, b, c) /\ params = [a; b; c].
Proof.
  unfold lineEquationParameters. split.
  - intros H. apply bind_Ret_inv in H as ([[a b] c] & H & E).
    injection E as <-. eauto.
  - intros (a & b & c & -> & ->). reflexivity.
Qed.

(** [findGammaIntersectionPoints] finds its two points exactly when the
    two sides are not degenerate and the determinant of their lines is not
    [almostEqual] to 0. *)
Lemma findGammaIntersectionPoints_Some (c index : Z) (s1 e1 s2 e2 : Point2f) :
  (exists points, findGammaIntersectionPoints polygon nrOfPoints c index s1 e1 s2 e2
                  = Ret (Some points))
  <-> exists a1 b1 c1 a2 b2 c2,
      lineEquationDeterminedByPoints s1 e1 = Ret (a1, b1, c1)
      /\ lineEquationDeterminedByPoints s2 e2 = Ret (a2, b2, c2)
      /\ almostEqual (a1 * b2 - a2 * b1) 0 = false.
Proof.
  unfold findGammaIntersectionPoints. split.
  - intros [points H].
    apply bind_Ret_inv in H as (params1 & H1 & H).
    apply bind_Ret_inv in H as (params2 & H2 & H).
    apply lineEquationParameters_Ret in H1 as (a1 & b1 & c1 & H1 & ->).
    apply lineEquationParameters_Ret in H2 as (a2 & b2 & c2 & H2 & ->).
    exists a1, b1, c1, a2, b2, c2. repeat split; try assumption.
    unfold areIntersectingLines, param in H. cbn [nth] in H.
    destruct (almostEqual (a1 * b2 - a2 * b1) 0) eqn:E; [| reflexivity].
    rewrite (proj2 (lineIntersection_None a1 b1 _ a2 b2 _) E) in H. discriminate H.
  - intros (a1 & b1 & c1 & a2 & b2 & c2 & H1 & H2 & E).
    unfold lineEquationParameters. rewrite H1, H2. cbn [bind].
    unfold areIntersectingLines, param. cbn [nth].
    unfold lineIntersection. rewrite E. cbn [negb].
    destruct (areIdenticalLines_params _ _ _); eauto.
Qed.

(** [gamma] finds its point under the same condition, on side A and
    side C: the second call of [lineEquationDeterminedByPoints] on side C, in
    [areOnTheSameSideOfLine], cannot fail when the first did not. *)
Lemma gamma_Some (index a c : Z) :
  (exists gammaPoint, gamma polygon nrOfPoints index a c = Ret (Some gammaPoint))
  <-> exists a1 b1 c1 a2 b2 c2,
      lineEquationDeterminedByPoints (at_ polygon a) (at_ polygon (predecessor a nrOfPoints))
      = Ret (a1, b1, c1)
      /\ lineEquationDeterminedByPoints (at_ polygon c)
           (at_ polygon (predecessor c nrOfPoints))
         = Ret (a2, b2, c2)
      /\ almostEqual (a1 * b2 - a2 * b1) 0 = false.
Proof.
  split.
  - intros [g H]. apply findGammaIntersectionPoints_Some with c index.
    unfold gamma in H. apply bind_Ret_inv in H as ([points |] & H & H'); [eauto |].
    discriminate H'.
  - intros H. pose proof H as (a1 & b1 & c1 & a2 & b2 & c2 & _ & H2 & _).
    apply (findGammaIntersectionPoints_Some c index) in H as [[p1 p2] H].
    unfold gamma. rewrite H. cbn [bind].
    unfold areOnTheSameSideOfLine. rewrite H2. cbn [bind].
    destruct (Z.eqb _ _); eauto.
Qed.

End GammaExists.

Section GammaTheorems.
Local Open Scope float_scope.

(** X20.  [gamma] finds its point exactly when neither side A (the edge
    that ends at [a]) nor side C (the edge that ends at [c]) is degenerate
    and the determinant of their two lines is not [almostEqual] to 0.  So
    for given [a] and [c] the point exists for every vertex or for none:
    its existence does not depend on the vertex whose height is used. *)
Theorem gamma_exists_iff (polygon : list Point2f) (nrOfPoints index a c : Z) :
  ((exists gammaPoint, gamma polygon nrOfPoints index a c = Ret (Some gammaPoint))
   <-> exists a1 b1 c1 a2 b2 c2,
       lineEquationDeterminedByPoints (at_ polygon a)
         (at_ polygon (predecessor a nrOfPoints)) = Ret (a1, b1, c1)
       /\ lineEquationDeterminedByPoints (at_ polygon c)
            (at_ polygon (predecessor c nrOfPoints)) = Ret (a2, b2, c2)
       /\ almostEqual (a1 * b2 - a2 * b1) 0 = false)
  /\ (forall index',
         (exists gammaPoint, gamma polygon nrOfPoints index a c = Ret (Some gammaPoint))
         <-> (exists gammaPoint,
                 gamma polygon nrOfPoints index' a c = Ret (Some gammaPoint))).
Proof.
  split; [apply gamma_Some |].
  intros index'. now rewrite !gamma_Some.
Qed.
End GammaTheorems.

(** ** The loops on the index b *)

Section LoopProperties.
Local Open Scope Z_scope.

Variable atan2 : float -> float -> float.
Variable polygon : list Point2f.
Variable nrOfPoints : Z.

(** [k + 1] steps from [i] are [k] steps from the successor of [i]. *)
Lemma advanced_S_r (k : nat) (i : Z) :
  advanced nrOfPoints (S k) i = advanced nrOfPoints k (successor i nrOfPoints).
Proof.
  unfold advanced.
  exact (Nat.iter_succ_r k Z (fun j => successor j nrOfPoints) i).
Qed.

(** Steps of [advance] stay inside [[0, nrOfPoints)]. *)
Lemma advanced_range (k : nat) (i : Z) :
  1 <= nrOfPoints < UINT_MODULUS -> 0 <= i < nrOfPoints ->
  0 <= advanced nrOfPoints k i < nrOfPoints.
Proof.
  intros Hn Hi. induction k as [| k IH]; [exact Hi |].
  cbn. now apply successor_range.
Qed.

(** When [advanceBToRightChain] returns, the condition of its loop held at
    every index it passed and fails at the index it returns. *)
Lemma advanceBToRightChain_sound (fuel : nat) :
  forall b c b',
    advanceBToRightChain polygon nrOfPoints fuel b c = Ret b' ->
    exists k,
      b' = advanced nrOfPoints k b
      /\ (forall j, (j < k)%nat ->
                    rightChainCondition polygon nrOfPoints (advanced nrOfPoints j b) c = true)
      /\ rightChainCondition polygon nrOfPoints b' c = false.
Proof.
  induction fuel as [| fuel IH]; intros b c b' H; [discriminate H |].
  cbn [advanceBToRightChain] in H.
  destruct (greaterOrEqual _ _) eqn:Hc in H.
  - apply IH in H as (k & -> & Hk & Hstop).
    exists (S k). rewrite advanced_S_r. split; [reflexivity |]. split; [| exact Hstop].
    intros [| j] Hj; [exact Hc |].
    rewrite advanced_S_r. apply Hk. lia.
  - injection H as <-. exists 0%nat. split; [reflexivity |]. split; [| exact Hc].
    intros j Hj. lia.
Qed.

(** With one unit of fuel more than the number of steps, the loop reaches
    the first index at which its condition fails. *)
Lemma advanceBToRightChain_complete (k : nat) :
  forall b c,
    (forall j, (j < k)%nat ->
               rightChainCondition polygon nrOfPoints (advanced nrOfPoints j b) c = true) ->
    rightChainCondition polygon nrOfPoints (advanced nrOfPoints k b) c = false ->
    advanceBToRightChain polygon nrOfPoints (S k) b c = Ret (advanced nrOfPoints k b).
Proof.
  induction k as [| k IH]; intros b c Hk Hstop.
  - cbn [advanceBToRightChain]. unfold rightChainCondition in Hstop. cbn in Hstop.
    now rewrite Hstop.
  - change (advanceBToRightChain polygon nrOfPoints (S (S k)) b c)
      with (if rightChainCondition polygon nrOfPoints b c
            then advanceBToRightChain polygon nrOfPoints (S k)
                   (advance b nrOfPoints) c
            else Ret b).
    pose proof (Hk 0%nat ltac:(lia)) as H0.
    change (advanced nrOfPoints 0 b) with b in H0. rewrite H0.
    rewrite advanced_S_r. apply IH.
    + intros j Hj. rewrite <- advanced_S_r. apply Hk. lia.
    + now rewrite <- advanced_S_r.
Qed.

(** When the condition of the loop holds at every index of the polygon, no
    amount of fuel is enough. *)
Lemma advanceBToRightChain_flat (c : Z) :
  1 <= nrOfPoints < UINT_MODULUS ->
  (forall i, 0 <= i < nrOfPoints -> rightChainCondition polygon nrOfPoints i c = true) ->
  forall fuel b, 0 <= b < nrOfPoints ->
                 advanceBToRightChain polygon nrOfPoints fuel b c = OutOfFuel.
Proof.
  intros Hn Hflat. induction fuel as [| fuel IH]; intros b Hb; [reflexivity |].
  cbn [advanceBToRightChain]. fold (rightChainCondition polygon nrOfPoints b c).
  rewrite Hflat by exact Hb. apply IH. now apply successor_range.
Qed.

(** The same two facts for the loop of [searchForBTangency]. *)
Lemma searchForBTangency_sound (fuel : nat) :
  forall a b c b',
    searchForBTangency atan2 polygon nrOfPoints fuel a b c = Ret b' ->
    exists k,
      b' = advanced nrOfPoints k b
      /\ (forall j, (j < k)%nat ->
                    searchCondition atan2 polygon nrOfPoints a (advanced nrOfPoints j b) c
                    = Ret true)
      /\ searchCondition atan2 polygon nrOfPoints a b' c = Ret false.
Proof.
  induction fuel as [| fuel IH]; intros a b c b' H; [discriminate H |].
  cbn [searchForBTangency] in H.
  apply bind_Ret_inv in H as ([] & Hc & H).
  - apply IH in H as (k & -> & Hk & Hstop).
    exists (S k). rewrite advanced_S_r. split; [reflexivity |]. split; [| exact Hstop].
    intros [| j] Hj; [exact Hc |].
    rewrite advanced_S_r. apply Hk. lia.
  - injection H as <-. exists 0%nat. split; [reflexivity |]. split; [| exact Hc].
    intros j Hj. lia.
Qed.

Lemma searchForBTangency_complete (k : nat) :
  forall a b c,
    (forall j, (j < k)%nat ->
               searchCondition atan2 polygon nrOfPoints a (advanced nrOfPoints j b) c
               = Ret true) ->
    searchCondition atan2 polygon nrOfPoints a (advanced nrOfPoints k b) c = Ret false ->
    searchForBTangency atan2 polygon nrOfPoints (S k) a b c
    = Ret (advanced nrOfPoints k b).
Proof.
  induction k as [| k IH]; intros a b c Hk Hstop.
  - cbn [searchForBTangency]. cbn in Hstop. now rewrite Hstop.
  - pose proof (Hk 0%nat ltac:(lia)) as H0.
    change (advanced nrOfPoints 0 b) with b in H0.
    cbn [searchForBTangency]. rewrite H0. cbn [bind].
    rewrite advanced_S_r. apply IH.
    + intros j Hj. rewrite <- advanced_S_r. apply Hk. lia.
    + now rewrite <- advanced_S_r.
Qed.
End LoopProperties.

Section LoopTheorems.
Local Open Scope Z_scope.

(** X22.  [advanceBToRightChain] returns the first index, counted from [b]
    in steps of [advance], at which the height of the successor is not
    [greaterOrEqual] to the height of the index; it returns when there is
    such an index, and only then. *)
Theorem advanceBToRightChain_stops (polygon : list Point2f) (nrOfPoints b c b' : Z) :
  (exists fuel, advanceBToRightChain polygon nrOfPoints fuel b c = Ret b')
  <-> exists k,
      b' = advanced nrOfPoints k b
      /\ (forall j, (j < k)%nat ->
                    rightChainCondition polygon nrOfPoints (advanced nrOfPoints j b) c = true)
      /\ rightChainCondition polygon nrOfPoints b' c = false.
Proof.
  split.
  - intros [fuel H]. now apply advanceBToRightChain_sound with fuel.
  - intros (k & -> & Hk & Hstop). exists (S k).
    now apply advanceBToRightChain_complete.
Qed.

(** X23.  When, over the edge that ends at the vertex 0, the height of
    every vertex is [greaterOrEqual] to the height of the vertex before it
    (the heights all lie within the tolerance of one another), the loop of
    [advanceBToRightChain] never ends: the call on a polygon of more than
    three vertices does not return, whatever the number of iterations
    allowed. *)
Theorem flat_heights_never_return (atan2 : float -> float -> float)
        (polygon : list Point2f) :
  3 < Z.of_nat (length polygon) < UINT_MODULUS ->
  (forall i, 0 <= i < Z.of_nat (length polygon) ->
             rightChainCondition polygon (Z.of_nat (length polygon)) i 0 = true) ->
  forall fuel current, findMinEnclosingTriangle atan2 fuel polygon current = OutOfFuel.
Proof.
  intros Hn Hflat fuel current.
  unfold findMinEnclosingTriangle, findMinimumAreaEnclosingTriangle.
  replace (3 <? Z.of_nat (length polygon)) with true by (symmetry; apply Z.ltb_lt; lia).
  rewrite uint_small by lia.
  destruct (Z.to_nat (Z.of_nat (length polygon))) as [| todo] eqn:E; [lia |].
  cbn [sweepFrom idx_a idx_b]. unfold sweepStep, sweepSides. cbn [idx_a idx_b].
  rewrite (advanceBToRightChain_flat polygon _ 0) by (try assumption; lia).
  reflexivity.
Qed.

(** The square of side 2^-17: all its heights are below [EPSILON]. *)
Lemma tiny_square_never_returns :
  findMinEnclosingTriangle atan2_principal 1000 tiny_square ([], 0%float) = OutOfFuel.
Proof.
  apply (flat_heights_never_return atan2_principal tiny_square).
  - cbn. unfold UINT_MODULUS. lia.
  - intros i Hi. cbn in Hi.
    assert (H : i = 0 \/ i = 1 \/ i = 2 \/ i = 3) by lia.
    destruct H as [-> | [-> | [-> | ->]]]; reflexivity.
Defined.

(** X24.  [searchForBTangency] returns the first index, counted from [b]
    in steps of [advance], at which the condition of its loop is false; it
    returns when there is such an index and no call of [gamma] on the way
    fails, and only then. *)
Theorem searchForBTangency_stops (atan2 : float -> float -> float)
        (polygon : list Point2f) (nrOfPoints a b c b' : Z) :
  (exists fuel, searchForBTangency atan2 polygon nrOfPoints fuel a b c = Ret b')
  <-> exists k,
      b' = advanced nrOfPoints k b
      /\ (forall j, (j < k)%nat ->
                    searchCondition atan2 polygon nrOfPoints a (advanced nrOfPoints j b) c
                    = Ret true)
      /\ searchCondition atan2 polygon nrOfPoints a b' c = Ret false.
Proof.
  split.
  - intros [fuel H]. now apply searchForBTangency_sound with fuel.
  - intros (k & -> & Hk & Hstop). exists (S k).
    now apply searchForBTangency_complete.
Qed.
End LoopTheorems.

(** ** The sweep *)

Section SweepIndexProperties.
Local Open Scope Z_scope.

Variable atan2 : float -> float -> float.
Variable polygon : list Point2f.
Variable nrOfPoints : Z.
Hypothesis nrOfPoints_range : 1 <= nrOfPoints < UINT_MODULUS.

(** The three index loops return indices of the polygon. *)
Lemma advanceBToRightChain_range (fuel : nat) (b c b' : Z) :
  0 <= b < nrOfPoints ->
  advanceBToRightChain polygon nrOfPoints fuel b c = Ret b' ->
  0 <= b' < nrOfPoints.
Proof.
  intros Hb H. apply advanceBToRightChain_sound in H as (k & -> & _).
  now apply advanced_range.
Qed.

Lemma searchForBTangency_range (fuel : nat) (a b c b' : Z) :
  0 <= b < nrOfPoints ->
  searchForBTangency atan2 polygon nrOfPoints fuel a b c = Ret b' ->
  0 <= b' < nrOfPoints.
Proof.
  intros Hb H. apply searchForBTangency_sound in H as (k & -> & _).
  now apply advanced_range.
Qed.

Lemma moveStep_range (a b c a' b' : Z) :
  0 <= a < nrOfPoints -> 0 <= b < nrOfPoints ->
  moveStep atan2 polygon nrOfPoints a b c = Ret (a', b') ->
  0 <= a' < nrOfPoints /\ 0 <= b' < nrOfPoints.
Proof.
  intros Ha Hb H. unfold moveStep, advance in H.
  apply bind_Ret_inv in H as ([] & _ & H); injection H as <- <-;
    auto using successor_range.
Qed.

Lemma moveAIfLowAndBIfHigh_range (fuel : nat) :
  forall a b c a' b',
    0 <= a < nrOfPoints -> 0 <= b < nrOfPoints ->
    moveAIfLowAndBIfHigh atan2 polygon nrOfPoints fuel a b c = Ret (a', b') ->
    0 <= a' < nrOfPoints /\ 0 <= b' < nrOfPoints.
Proof.
  induction fuel as [| fuel IH]; intros a b c a' b' Ha Hb H; [discriminate H |].
  cbn [moveAIfLowAndBIfHigh] in H.
  destruct (PrimFloat.ltb _ _) in H.
  - apply bind_Ret_inv in H as ([a1 b1] & Hstep & H).
    apply moveStep_range in Hstep as [Ha1 Hb1]; [| assumption | assumption].
    now apply IH in H.
  - now injection H as <- <-.
Qed.

(** The indices that an iteration computes are indices of the polygon. *)
Lemma sweepSides_range (fuel : nat) (c a b a' b' : Z) (flag : validation)
      (sideA sideB sideC : side) :
  0 <= a < nrOfPoints -> 0 <= b < nrOfPoints ->
  sweepSides atan2 polygon nrOfPoints fuel c a b = Ret (a', b', flag, sideA, sideB, sideC) ->
  0 <= a' < nrOfPoints /\ 0 <= b' < nrOfPoints.
Proof.
  intros Ha Hb H. unfold sweepSides in H.
  apply bind_Ret_inv in H as (b1 & H1 & H).
  apply advanceBToRightChain_range in H1; [| assumption].
  apply bind_Ret_inv in H as ([a2 b2] & H2 & H).
  apply moveAIfLowAndBIfHigh_range in H2 as [Ha2 Hb2]; [| assumption | assumption].
  apply bind_Ret_inv in H as (b3 & H3 & H).
  apply searchForBTangency_range in H3; [| assumption].
  destruct (updateSidesCA polygon nrOfPoints a2 c) as [sA sC].
  apply bind_Ret_inv in H as ([] & _ & H).
  - apply bind_Ret_inv in H as ([[f sA'] sB'] & _ & H). injection H as <- <- _ _ _ _. auto.
  - apply bind_Ret_inv in H as ([f sB'] & _ & H). injection H as <- <- _ _ _ _. auto.
Qed.

(** [sweepCandidate] stores the indices it is given. *)
Lemma sweepCandidate_indices (s : sweep) (a b : Z) (flag : validation)
      (sideA sideB sideC : side) :
  idx_a (sweepCandidate polygon nrOfPoints s a b flag sideA sideB sideC) = a
  /\ idx_b (sweepCandidate polygon nrOfPoints s a b flag sideA sideB sideC) = b.
Proof.
  unfold sweepCandidate.
  destruct (vertices s) as [[vA vB] vC].
  destruct (isLocalMinimalTriangle _ _ _ _ _ _ _ _ _ _ _ _ _ _) as [found [[vA' vB'] vC']].
  split; reflexivity.
Qed.
End SweepIndexProperties.

Section StaleVertices.
Local Open Scope outcome_scope.

Variable atan2 : float -> float -> float.
Variable polygon : list Point2f.
Variable nrOfPoints : Z.

(** The answer of [isLocalMinimalTriangle], and the vertices it leaves when
    it answers [true], do not depend on the vertices passed in. *)
Lemma isLocalMinimalTriangle_fresh (vA vB vC vA' vB' vC' : Point2f) (a b : Z)
      (flag : validation) (sAs sAe sBs sBe sCs sCe : Point2f) :
  let r := isLocalMinimalTriangle polygon nrOfPoints vA vB vC a b flag
             sAs sAe sBs sBe sCs sCe in
  let r' := isLocalMinimalTriangle polygon nrOfPoints vA' vB' vC' a b flag
              sAs sAe sBs sBe sCs sCe in
  fst r = fst r' /\ (fst r = true -> snd r = snd r').
Proof.
  unfold isLocalMinimalTriangle.
  destruct (lineIntersection_points sAs sAe sBs sBe);
    [| cbn; split; [reflexivity | discriminate]].
  destruct (lineIntersection_points sAs sAe sCs sCe);
    [| cbn; split; [reflexivity | discriminate]].
  destruct (lineIntersection_points sBs sBe sCs sCe);
    [| cbn; split; [reflexivity | discriminate]].
  cbn. auto.
Qed.

(** The indices and the best result after [sweepCandidate] do not depend on
    the vertices before it. *)
Lemma sweepCandidate_carried (s1 s2 : sweep) (a b : Z) (flag : validation)
      (sideA sideB sideC : side) :
  result s1 = result s2 ->
  carried (sweepCandidate polygon nrOfPoints s1 a b flag sideA sideB sideC)
  = carried (sweepCandidate polygon nrOfPoints s2 a b flag sideA sideB sideC).
Proof.
  intros Hr. unfold sweepCandidate.
  destruct (vertices s1) as [[vA1 vB1] vC1], (vertices s2) as [[vA2 vB2] vC2].
  pose proof (isLocalMinimalTriangle_fresh vA1 vB1 vC1 vA2 vB2 vC2 a b flag
                (fst sideA) (snd sideA) (fst sideB) (snd sideB) (fst sideC) (snd sideC))
    as [Hf Hv].
  destruct (isLocalMinimalTriangle polygon nrOfPoints vA1 _ _ _ _ _ _ _ _ _ _ _)
    as [f1 [[wA1 wB1] wC1]].
  destruct (isLocalMinimalTriangle polygon nrOfPoints vA2 _ _ _ _ _ _ _ _ _ _ _)
    as [f2 [[wA2 wB2] wC2]].
  cbn [fst snd] in Hf, Hv. subst f2. unfold carried. cbn [idx_a idx_b result].
  destruct f1.
  - specialize (Hv eq_refl). injection Hv as <- <- <-. now rewrite Hr.
  - now rewrite Hr.
Qed.
End StaleVertices.

Section Candidates.
Local Open Scope Z_scope.
Local Open Scope outcome_scope.

Variable atan2 : float -> float -> float.
Variable polygon : list Point2f.
Variable nrOfPoints : Z.

(** The sides after [updateSidesBA] and after [updateSideB]. *)
Lemma updateSidesBA_sides (a b c : Z) (sideA0 sideC : side) (flag : validation)
      (sideA sideB : side) :
  sideA0 = (at_ polygon (predecessor a nrOfPoints), at_ polygon a) ->
  sideC = (at_ polygon (predecessor c nrOfPoints), at_ polygon c) ->
  updateSidesBA polygon nrOfPoints a b c sideA0 sideC = Ret (flag, sideA, sideB) ->
  sides_built polygon nrOfPoints a b c flag sideA sideB sideC.
Proof.
  intros -> -> H. unfold updateSidesBA in H. cbn [fst snd] in H.
  destruct (match middlePointOfSideB _ _ _ _ _ _ with Some _ => _ | None => _ end) in H.
  - apply bind_Ret_inv in H as (v & Hv & H). injection H as <- <- <-.
    unfold sides_built. cbn [fst snd]. auto.
  - injection H as <- <- <-. unfold sides_built. cbn [fst snd]. auto.
Qed.

Lemma updateSideB_sides (a b c : Z) (flag : validation) (sideB : side) :
  updateSideB polygon nrOfPoints a b c = Ret (flag, sideB) ->
  sides_built polygon nrOfPoints a b c flag
    (at_ polygon (predecessor a nrOfPoints), at_ polygon a) sideB
    (at_ polygon (predecessor c nrOfPoints), at_ polygon c).
Proof.
  unfold updateSideB. intros H.
  apply bind_Ret_inv in H as ([g |] & Hg & H); [| discriminate H].
  injection H as <- <-. unfold sides_built. cbn [fst snd]. auto.
Qed.

(** The sides that an iteration computes. *)
Lemma sweepSides_sides (fuel : nat) (c a b a' b' : Z) (flag : validation)
      (sideA sideB sideC : side) :
  sweepSides atan2 polygon nrOfPoints fuel c a b = Ret (a', b', flag, sideA, sideB, sideC) ->
  sides_built polygon nrOfPoints a' b' c flag sideA sideB sideC.
Proof.
  intros H. unfold sweepSides in H.
  apply bind_Ret_inv in H as (b1 & _ & H).
  apply bind_Ret_inv in H as ([a2 b2] & _ & H).
  apply bind_Ret_inv in H as (b3 & _ & H).
  unfold updateSidesCA in H.
  apply bind_Ret_inv in H as ([] & _ & H).
  - apply bind_Ret_inv in H as ([[f sA'] sB'] & Hs & H).
    injection H as <- <- <- <- <- <-.
    now apply updateSidesBA_sides with (2 := eq_refl) in Hs.
  - apply bind_Ret_inv in H as ([f sB'] & Hs & H).
    injection H as <- <- <- <- <- <-.
    now apply updateSideB_sides.
Qed.

(** When [isLocalMinimalTriangle] answers [true], the three intersections
    exist, the vertices are these intersections, and they pass
    [isValidMinimalTriangle]. *)
Lemma isLocalMinimalTriangle_true (vA0 vB0 vC0 : Point2f) (a b : Z) (flag : validation)
      (sideA sideB sideC : side) (vA vB vC : Point2f) :
  isLocalMinimalTriangle polygon nrOfPoints vA0 vB0 vC0 a b flag
    (fst sideA) (snd sideA) (fst sideB) (snd sideB) (fst sideC) (snd sideC)
  = (true, (vA, vB, vC)) ->
  lineIntersection_points (fst sideA) (snd sideA) (fst sideB) (snd sideB) = Some vC
  /\ lineIntersection_points (fst sideA) (snd sideA) (fst sideC) (snd sideC) = Some vB
  /\ lineIntersection_points (fst sideB) (snd sideB) (fst sideC) (snd sideC) = Some vA
  /\ isValidMinimalTriangle polygon nrOfPoints vA vB vC a b flag
       (fst sideA) (snd sideA) (fst sideB) (snd sideB) (fst sideC) (snd sideC) = true.
Proof.
  unfold isLocalMinimalTriangle.
  destruct (lineIntersection_points (fst sideA) _ (fst sideB) _); [| discriminate].
  destruct (lineIntersection_points (fst sideA) _ (fst sideC) _); [| discriminate].
  destruct (lineIntersection_points (fst sideB) _ (fst sideC) _); [| discriminate].
  intros H. injection H as H <- <- <-. auto.
Qed.

(** The stored triangle is empty or accepted, all along the sweep. *)
Lemma sweepFrom_accepted (fuel todo : nat) :
  forall c s s',
    0 <= c -> c + Z.of_nat todo <= nrOfPoints ->
    (fst (result s) = [] \/ accepted polygon nrOfPoints (fst (result s))) ->
    sweepFrom atan2 polygon nrOfPoints fuel todo c s = Ret s' ->
    fst (result s') = [] \/ accepted polygon nrOfPoints (fst (result s')).
Proof.
  induction todo as [| todo IH]; intros c s s' Hc Hn Hs H; cbn [sweepFrom] in H.
  - now injection H as <-.
  - apply bind_Ret_inv in H as (s1 & Hstep & H).
    apply IH in H; [exact H | lia | lia |].
    apply sweepStep_inv in Hstep as (a & b & flag & sA & sB & sC & Hsides & ->).
    destruct (sweepCandidate_result polygon nrOfPoints s a b flag sA sB sC)
      as [-> | (vA & vB & vC & Hlocal & _ & ->)]; [exact Hs |].
    right. cbn [fst].
    apply isLocalMinimalTriangle_true in Hlocal as (HC & HB & HA & Hvalid).
    exists a, b, c, flag, sA, sB, sC, vA, vB, vC.
    repeat split; try assumption; try lia.
    all: try (apply sweepSides_sides in Hsides; apply Hsides).
Qed.
End Candidates.

Section SweepTheorems.
Local Open Scope Z_scope.
Local Open Scope outcome_scope.

(** X25.  The indices [a] and [b] stay indices of the polygon: when they
    lie in [[0, nrOfPoints)] before some iterations of the sweep, they do
    after them. *)
Theorem sweep_indices_in_range (atan2 : float -> float -> float)
        (polygon : list Point2f) (nrOfPoints : Z) (fuel todo : nat) (c : Z)
        (s s' : sweep) :
  1 <= nrOfPoints < UINT_MODULUS ->
  in_range nrOfPoints s ->
  sweepFrom atan2 polygon nrOfPoints fuel todo c s = Ret s' ->
  in_range nrOfPoints s'.
Proof.
  intros Hn. revert c s s'.
  induction todo as [| todo IH]; intros c s s' Hs H; cbn [sweepFrom] in H.
  - now injection H as <-.
  - apply bind_Ret_inv in H as (s1 & Hstep & H).
    apply sweepStep_inv in Hstep as (a & b & flag & sA & sB & sC & Hsides & ->).
    apply IH in H; [exact H |].
    destruct Hs as [Ha Hb].
    apply (sweepSides_range atan2 polygon nrOfPoints Hn) in Hsides;
      [| assumption | assumption].
    unfold in_range.
    destruct (sweepCandidate_indices polygon nrOfPoints s a b flag sA sB sC) as [-> ->].
    exact Hsides.
Qed.

(** The sweep of the unit square ends with [a = 0] and [b = 1]. *)
Lemma unit_square_indices_in_range :
  in_range 4 (Sweep 0 1 (Point 2 1, Point (-0) 1, Point (-0) (-1))
                    ([Point 0 2; Point (-0) (-0); Point 2 0], 2)%float).
Proof.
  apply (sweep_indices_in_range atan2_principal unit_square 4 2 4 0
           (Sweep 1 2 (origin, origin, origin) ([], DBL_MAX))).
  - unfold UINT_MODULUS. lia.
  - unfold in_range. cbn. lia.
  - vm_compute. reflexivity.
Defined.

(** X26.  The vertices [vertexA], [vertexB], [vertexC] that an iteration
    leaves behind are never read by a later one: two runs of the sweep that
    start with the same indices and best result, and different vertices,
    end alike (same failure, or the same indices and best result). *)
Theorem sweep_ignores_stale_vertices (atan2 : float -> float -> float)
        (polygon : list Point2f) (nrOfPoints : Z) (fuel todo : nat) (c a b : Z)
        (vertices1 vertices2 : Point2f * Point2f * Point2f) (r : best) :
  (s <- sweepFrom atan2 polygon nrOfPoints fuel todo c (Sweep a b vertices1 r) ;;
   Ret (carried s))
  = (s <- sweepFrom atan2 polygon nrOfPoints fuel todo c (Sweep a b vertices2 r) ;;
     Ret (carried s)).
Proof.
  enough (H : forall s1 s2,
             carried s1 = carried s2 ->
             (s <- sweepFrom atan2 polygon nrOfPoints fuel todo c s1 ;; Ret (carried s))
             = (s <- sweepFrom atan2 polygon nrOfPoints fuel todo c s2 ;; Ret (carried s)))
    by now apply H.
  revert c. induction todo as [| todo IH]; intros c s1 s2 H; cbn [sweepFrom].
  - cbn [bind]. now rewrite H.
  - unfold sweepStep. injection H as Ha Hb Hr. rewrite Ha, Hb.
    destruct (sweepSides atan2 polygon nrOfPoints fuel c (idx_a s2) (idx_b s2))
      as [[[[[[a' b'] flag] sA] sB] sC] | e |]; cbn [bind]; try reflexivity.
    apply IH. now apply sweepCandidate_carried.
Qed.

(** X27.  When the three index loops of an iteration end at indices [a]
    and [b] for which [gamma(b)] does not exist and the height of [b] is not
    below the height of the vertex before [a], [isNotBTangency] answers
    [false]: the branch of the B-tangency is taken, and [updateSideB] ends
    the sweep with [ERR_SIDE_B_GAMMA]. *)
Theorem missing_gamma_ends_the_sweep (atan2 : float -> float -> float)
        (polygon : list Point2f) (nrOfPoints : Z) (fuel : nat)
        (c a b b1 a2 b2 b3 : Z) :
  advanceBToRightChain polygon nrOfPoints fuel b c = Ret b1 ->
  moveAIfLowAndBIfHigh atan2 polygon nrOfPoints fuel a b1 c = Ret (a2, b2) ->
  searchForBTangency atan2 polygon nrOfPoints fuel a2 b2 c = Ret b3 ->
  gamma polygon nrOfPoints b3 a2 c = Ret None ->
  (height polygon nrOfPoints b3 c
   <? height polygon nrOfPoints (predecessor a2 nrOfPoints) c)%float = false ->
  isNotBTangency atan2 polygon nrOfPoints a2 b3 c = Ret false
  /\ updateSideB polygon nrOfPoints a2 b3 c = Throw ERR_SIDE_B_GAMMA
  /\ sweepSides atan2 polygon nrOfPoints fuel c a b = Throw ERR_SIDE_B_GAMMA.
Proof.
  intros H1 H2 H3 Hg Hh.
  assert (Hn : isNotBTangency atan2 polygon nrOfPoints a2 b3 c = Ret false).
  { unfold isNotBTangency. rewrite Hg. cbn [bind]. now rewrite Hh. }
  assert (Hu : updateSideB polygon nrOfPoints a2 b3 c = Throw ERR_SIDE_B_GAMMA).
  { unfold updateSideB. now rewrite Hg. }
  repeat split; try assumption.
  unfold sweepSides. rewrite H1. cbn [bind]. rewrite H2. cbn [bind].
  rewrite H3. cbn [bind]. unfold updateSidesCA. rewrite Hn. cbn [bind].
  now rewrite Hu.
Qed.

(** The first iteration on the square of side 2^-10: the index loops leave
    [a = 1] and [b = 2], and the edges that end at 1 and at 0 are parallel
    within the tolerance. *)
Lemma small_square_first_iteration :
  isNotBTangency atan2_principal small_square 4 1 2 0 = Ret false
  /\ updateSideB small_square 4 1 2 0 = Throw ERR_SIDE_B_GAMMA
  /\ sweepSides atan2_principal small_square 4 5 0 1 2 = Throw ERR_SIDE_B_GAMMA.
Proof.
  apply (missing_gamma_ends_the_sweep atan2_principal small_square 4 5 0 1 2 2 1 2 2);
    reflexivity.
Defined.

(** X28.  A triangle returned for a polygon of more than three vertices is
    empty or a candidate that one iteration built and accepted: side C is
    the polygon edge that ends at [c], side A starts at the vertex before
    [a], side B ends at the vertex [b], the three vertices are the pairwise
    intersections of the sides, and the midpoints pass
    [isValidMinimalTriangle]. *)
Theorem returned_triangle_is_accepted (atan2 : float -> float -> float)
        (fuel : nat) (polygon : list Point2f) (current : best)
        (triangle : list Point2f) (area : float) :
  3 < Z.of_nat (length polygon) < UINT_MODULUS ->
  findMinEnclosingTriangle atan2 fuel polygon current = Ret (triangle, area) ->
  triangle = [] \/ accepted polygon (Z.of_nat (length polygon)) triangle.
Proof.
  intros Hn H. unfold findMinEnclosingTriangle, findMinimumAreaEnclosingTriangle in H.
  replace (3 <? Z.of_nat (length polygon)) with true in H
    by (symmetry; apply Z.ltb_lt; lia).
  rewrite uint_small in H by lia.
  apply bind_Ret_inv in H as (s' & H & E).
  apply sweepFrom_accepted in H; try lia.
  - injection E as E. now rewrite E in H.
  - left. reflexivity.
Qed.

(** The triangle returned for the unit square. *)
Lemma unit_square_triangle_accepted :
  [Point 0 2; Point (-0) (-0); Point 2 0]%float = []
  \/ accepted unit_square (Z.of_nat (length unit_square))
       [Point 0 2; Point (-0) (-0); Point 2 0]%float.
Proof.
  apply (returned_triangle_is_accepted atan2_principal 2 unit_square ([], 0%float) _ 2%float).
  - cbn. unfold UINT_MODULUS. lia.
  - vm_compute. reflexivity.
Defined.
End SweepTheorems.

(** * Rounding and the ranges of the results *)

(** ** Binary digits and shifts *)

Section Digits.
Local Open Scope Z_scope.

(** The number of binary digits, by the three functions that count them. *)
Lemma digits2_pos_size (q : positive) : digits2_pos q = Pos.size q.
Proof. induction q as [q IH | q IH |]; cbn; now rewrite ?IH. Qed.

Lemma Zdigits2_log2 (m : Z) : 0 < m -> Zdigits2 m = Z.log2 m + 1.
Proof.
  destruct m as [| q | q]; try lia. intros _. cbn [Zdigits2].
  rewrite digits2_pos_size. destruct q; cbn; lia.
Qed.

Lemma Zdigits2_not_negative (m : Z) : 0 <= Zdigits2 m.
Proof. destruct m; cbn; lia. Qed.

(** A number below [2^d] has at most [d] binary digits. *)
Lemma Zdigits2_below (m d : Z) : 0 <= m -> 0 <= d -> m < 2 ^ d -> Zdigits2 m <= d.
Proof.
  intros Hm Hd H. destruct (Z.eq_dec m 0) as [-> | Hne]; [exact Hd |].
  rewrite Zdigits2_log2 by lia.
  pose proof (Z.log2_spec m ltac:(lia)) as [Hlow _].
  assert (Z.log2 m < d); [| lia].
  apply (Z.pow_lt_mono_r_iff 2); lia.
Qed.

(** A number of [d] digits lies in [[2^(d-1), 2^d)]. *)
Lemma Zdigits2_above (m : Z) : 0 <= m -> m < 2 ^ Zdigits2 m.
Proof.
  intros Hm. destruct (Z.eq_dec m 0) as [-> | Hne]; [reflexivity |].
  rewrite Zdigits2_log2 by lia.
  apply (Z.log2_spec m). lia.
Qed.

Lemma Zdigits2_lower (m : Z) : 0 < m -> 2 ^ (Zdigits2 m - 1) <= m.
Proof.
  intros Hm. rewrite Zdigits2_log2 by lia.
  replace (Z.log2 m + 1 - 1) with (Z.log2 m) by lia.
  apply (Z.log2_spec m). lia.
Qed.
End Digits.

Section Shifts.
Local Open Scope Z_scope.

(** [iter_pos] counts: a property indexed by the number of steps made. *)
Lemma iter_pos_count {A : Type} (f : A -> A) (P : Z -> A -> Prop) :
  (forall k a, 0 <= k -> P k a -> P (k + 1) (f a)) ->
  forall n k a, 0 <= k -> P k a -> P (k + Zpos n) (iter_pos f n a).
Proof.
  intros Hf. induction n as [n IH | n IH |]; intros k a Hk Ha; cbn [iter_pos].
  - replace (k + Zpos n~1) with (k + 1 + Zpos n + Zpos n) by lia.
    apply IH; [lia |]. apply IH; [lia |]. now apply Hf.
  - replace (k + Zpos n~0) with (k + Zpos n + Zpos n) by lia.
    apply IH; [lia |]. now apply IH.
  - now apply Hf.
Qed.

(** One shift halves the magnitude, keeps the bit that falls off and
    remembers the bits that fell off before. *)
Lemma shr_1_spec (mrs : shr_record) :
  0 <= shr_m mrs ->
  shr_1 mrs
  = Build_shr_record (Z.div2 (shr_m mrs)) (Z.odd (shr_m mrs)) (shr_r mrs || shr_s mrs).
Proof.
  destruct mrs as [m r s]. destruct m as [| [q | q |] | q]; cbn; intros H;
    try reflexivity; lia.
Qed.

Lemma shifted_start (m : Z) (l : location) : shifted m l 0 (shr_record_of_loc m l).
Proof.
  split.
  - rewrite Z.pow_0_r, Z.div_1_r. now destruct l as [| []].
  - intros -> _. auto.
Qed.

Lemma shifted_step (m : Z) (l : location) (k : Z) (mrs : shr_record) :
  0 <= m -> 0 <= k -> shifted m l k mrs -> shifted m l (k + 1) (shr_1 mrs).
Proof.
  intros Hm Hk [Hq Hex].
  assert (Hpos : 0 < 2 ^ k) by (apply Z.pow_pos_nonneg; lia).
  assert (H0 : 0 <= shr_m mrs) by (rewrite Hq; apply Z.div_pos; lia).
  rewrite shr_1_spec by exact H0. split; cbn [shr_m shr_r shr_s].
  - rewrite Z.div2_div, Hq, Z.div_div, Z.pow_add_r by lia. reflexivity.
  - intros Hl [c Hc].
    assert (Hdiv : (2 ^ k | m)).
    { exists (c * 2). rewrite Hc, Z.pow_add_r by lia. ring. }
    destruct (Hex Hl Hdiv) as [-> ->]. split; [| reflexivity].
    rewrite Hq, Hc, Z.pow_add_r, Z.pow_1_r by lia.
    replace (c * (2 ^ k * 2)) with (c * 2 * 2 ^ k) by ring.
    rewrite Z.div_mul by lia.
    rewrite Z.odd_mul. cbn. apply andb_false_r.
Qed.

(** [shr] makes [n] shifts when [n] is positive, and none otherwise. *)
Lemma shr_shifted (m e n : Z) (l : location) :
  0 <= m ->
  exists mrs, shr (shr_record_of_loc m l) e n = (mrs, e + Z.max n 0)
              /\ shifted m l (Z.max n 0) mrs.
Proof.
  intros Hm. unfold shr. destruct n as [| n | n].
  - exists (shr_record_of_loc m l). cbn [Z.max Z.compare]. rewrite Z.add_0_r.
    auto using shifted_start.
  - exists (iter_pos shr_1 n (shr_record_of_loc m l)). split; [reflexivity |].
    change (Z.max (Zpos n) 0) with (0 + Zpos n).
    apply (iter_pos_count shr_1 (shifted m l)); [| lia | apply shifted_start].
    intros k a Hk. now apply shifted_step.
  - exists (shr_record_of_loc m l). change (Z.max (Zneg n) 0) with 0.
    rewrite Z.add_0_r. auto using shifted_start.
Qed.
End Shifts.

Section RoundingBound.
Local Open Scope Z_scope.
Variables p e : Z.

(** The exponent of the format grows with the magnitude. *)
Lemma fexp_mono (a b : Z) : a <= b -> fexp p e a <= fexp p e b.
Proof. unfold fexp. lia. Qed.

Variable mB : positive.
Variable eB : Z.
Hypothesis canonical_B : canonical_mantissa p e mB eB = true.

(** A magnitude that is at most [mB * 2^eB] gets an exponent that is at most
    [eB]. *)
Lemma below_fexp (m ex : Z) :
  below mB eB m ex -> fexp p e (Zdigits2 m + ex) <= eB.
Proof.
  intros (Hm & He & H).
  pose proof (proj1 (Z.eqb_eq _ _) canonical_B) as HB'.
  etransitivity; [| apply Z.eq_le_incl, HB'].
  apply fexp_mono.
  assert (Zdigits2 m <= Zpos (digits2_pos mB) + (eB - ex)); [| lia].
  apply Zdigits2_below; [lia | lia |].
  rewrite Z.pow_add_r by lia.
  pose proof (Zdigits2_above (Zpos mB) ltac:(lia)) as HB. cbn [Zdigits2] in HB.
  assert (0 < 2 ^ (eB - ex)) by (apply Z.pow_pos_nonneg; lia).
  nia.
Qed.

(** Shifting keeps a magnitude below the bound, and a quotient that reaches
    the bound was the bound itself, shifted without a remainder. *)
Lemma below_shift (m ex k : Z) :
  below mB eB m ex -> 0 <= k -> ex + k <= eB ->
  below mB eB (m / 2 ^ k) (ex + k)
  /\ (m / 2 ^ k = Zpos mB * 2 ^ (eB - (ex + k)) ->
      m = Zpos mB * 2 ^ (eB - ex) /\ (2 ^ k | m)).
Proof.
  intros (Hm & He & H) Hk Hek.
  assert (Hpos : 0 < 2 ^ k) by (apply Z.pow_pos_nonneg; lia).
  assert (Hsplit : Zpos mB * 2 ^ (eB - ex) = Zpos mB * 2 ^ (eB - (ex + k)) * 2 ^ k).
  { rewrite <- Z.mul_assoc, <- Z.pow_add_r by lia. do 2 f_equal. lia. }
  assert (Hq : m / 2 ^ k <= Zpos mB * 2 ^ (eB - (ex + k))).
  { rewrite <- (Z.div_mul (Zpos mB * 2 ^ (eB - (ex + k))) (2 ^ k)) by lia.
    rewrite <- Hsplit. apply Z.div_le_mono; lia. }
  split.
  - repeat split; [apply Z.div_pos; lia | lia | exact Hq].
  - intros E.
    pose proof (Z.mul_div_le m (2 ^ k) Hpos) as Hle.
    assert (Hm' : m = Zpos mB * 2 ^ (eB - ex)) by (rewrite E in Hle; lia).
    split; [exact Hm' |].
    exists (Zpos mB * 2 ^ (eB - (ex + k))). now rewrite Hm'.
Qed.

(** Rounding to nearest keeps the truncated magnitude or takes the next. *)
Lemma round_nearest_even_next (m : Z) (l : location) :
  m <= round_nearest_even m l <= m + 1.
Proof. destruct l as [| []]; cbn; try lia. destruct (Z.even m); lia. Qed.

Lemma loc_of_shr_record_exact (mrs : shr_record) :
  shr_r mrs = false -> shr_s mrs = false -> loc_of_shr_record mrs = loc_Exact.
Proof. destruct mrs as [m r s]. cbn. now intros -> ->. Qed.

Hypothesis bounded_B : eB <= e - p.

(** Rounding a magnitude that is at most [mB * 2^eB], a number of the
    format, gives at most that number. *)
Lemma binary_round_aux_below (m ex : Z) (l : location) :
  below mB eB m ex ->
  ex <= fexp p e (Zdigits2 m + ex) ->
  (m = Zpos mB * 2 ^ (eB - ex) -> l = loc_Exact) ->
  within mB eB (binary_round_aux p e false m ex l) = true.
Proof.
  intros Hb Hdigits Hexact.
  pose proof Hb as (Hm & He & Hle).
  unfold binary_round_aux, shr_fexp.
  set (n1 := fexp p e (Zdigits2 m + ex) - ex).
  destruct (shr_shifted m ex n1 l Hm) as (mrs1 & -> & Hq1 & Hx1).
  replace (Z.max n1 0) with n1 in * by lia.
  assert (He1 : ex + n1 <= eB) by (pose proof (below_fexp m ex Hb); lia).
  destruct (below_shift m ex n1 Hb ltac:(lia) He1) as [Hb1 Heq1].
  rewrite <- Hq1 in Hb1, Heq1.
  set (mr := round_nearest_even (shr_m mrs1) (loc_of_shr_record mrs1)).
  assert (Hbr : below mB eB mr (ex + n1)).
  { pose proof (round_nearest_even_next (shr_m mrs1) (loc_of_shr_record mrs1)) as Hn.
    fold mr in Hn. destruct Hb1 as (H0 & _ & H1).
    repeat split; [lia | lia |].
    destruct (Z.eq_dec (shr_m mrs1) (Zpos mB * 2 ^ (eB - (ex + n1)))) as [E | E]; [| lia].
    destruct (Heq1 E) as [Em Hdiv].
    destruct (Hx1 (Hexact Em) Hdiv) as [Hr Hs].
    unfold mr. rewrite (loc_of_shr_record_exact mrs1 Hr Hs).
    cbn [round_nearest_even]. lia. }
  set (n2 := fexp p e (Zdigits2 mr + (ex + n1)) - (ex + n1)).
  destruct (shr_shifted mr (ex + n1) n2 loc_Exact (proj1 Hbr)) as (mrs2 & -> & Hq2 & _).
  assert (He2 : ex + n1 + Z.max n2 0 <= eB)
    by (pose proof (below_fexp mr (ex + n1) Hbr); lia).
  destruct (below_shift mr (ex + n1) (Z.max n2 0) Hbr ltac:(lia) He2)
    as [(H0 & _ & H2) _].
  rewrite <- Hq2 in H0, H2.
  revert H0 H2. destruct (shr_m mrs2) as [| m' | m']; intros H0 H2;
    [reflexivity | | lia].
  replace (ex + n1 + Z.max n2 0 <=? e - p) with true by (symmetry; apply Z.leb_le; lia).
  cbn [within].
  destruct (Z.eq_dec (ex + n1 + Z.max n2 0) eB) as [E | E].
  - rewrite E, Z.sub_diag, Z.pow_0_r in H2.
    rewrite E, Z.eqb_refl. cbn [andb]. apply orb_true_iff. right.
    apply Pos.leb_le. lia.
  - apply orb_true_iff. left. apply Z.ltb_lt. lia.
Qed.
End RoundingBound.

Section Binary64Bounds.
Local Open Scope Z_scope.

(** A mantissa of binary64 has at most 53 digits, and exactly 53 above the
    smallest exponent. *)
Lemma canonical_facts (m : positive) (ex : Z) :
  canonical_mantissa prec emax m ex = true ->
  Zpos (digits2_pos m) <= 53 /\ -1074 <= ex
  /\ (-1074 < ex -> Zpos (digits2_pos m) = 53).
Proof.
  unfold canonical_mantissa, fexp, emin, prec, emax. intros H.
  apply Z.eqb_eq in H. lia.
Qed.

Lemma mantissa_bounds (m : positive) :
  2 ^ (Zpos (digits2_pos m) - 1) <= Zpos m < 2 ^ Zpos (digits2_pos m).
Proof.
  split.
  - apply (Zdigits2_lower (Zpos m)). lia.
  - apply (Zdigits2_above (Zpos m)). lia.
Qed.

(** The order of two numbers of the format is the order of their values. *)
Lemma within_below (mB : positive) (eB : Z) (m : positive) (ex : Z) :
  canonical_mantissa prec emax mB eB = true ->
  canonical_mantissa prec emax m ex = true ->
  within mB eB (S754_finite false m ex) = true ->
  below mB eB (Zpos m) ex.
Proof.
  intros HB Hm H. cbn [within] in H.
  apply orb_true_iff in H as [H | H].
  - apply Z.ltb_lt in H.
    destruct (canonical_facts mB eB HB) as (_ & _ & HdB).
    destruct (canonical_facts m ex Hm) as (Hd & Hex & _).
    pose proof (mantissa_bounds mB) as [HlB _]. rewrite HdB in HlB by lia.
    pose proof (mantissa_bounds m) as [_ Hu].
    assert (Hu' : Zpos m < 2 ^ 53).
    { eapply Z.lt_le_trans; [exact Hu |]. apply Z.pow_le_mono_r; lia. }
    assert (Hp : 2 ^ 1 <= 2 ^ (eB - ex)) by (apply Z.pow_le_mono_r; lia).
    change (2 ^ (53 - 1)) with 4503599627370496 in HlB.
    change (2 ^ 53) with 9007199254740992 in Hu'.
    change (2 ^ 1) with 2 in Hp.
    repeat split; [lia | lia | nia].
  - apply andb_true_iff in H as [H1 H2].
    apply Z.eqb_eq in H1. apply Pos.leb_le in H2. subst ex. unfold below.
    rewrite Z.sub_diag, Z.pow_0_r. repeat split; lia.
Qed.

(** A number within a bound is neither negative nor above the bound. *)
Lemma within_not_negative (mB : positive) (eB : Z) (f : spec_float) :
  within mB eB f = true -> SFleb (S754_zero false) f = true.
Proof. destruct f as [[] | [] | | [] m ex]; cbn; intros H; now try discriminate H. Qed.

Lemma within_leb (mB : positive) (eB : Z) (f : spec_float) :
  within mB eB f = true -> SFleb f (S754_finite false mB eB) = true.
Proof.
  destruct f as [[] | [] | | [] m ex]; cbn [within]; intros H; try discriminate H;
    try reflexivity.
  unfold SFleb, SFcompare.
  apply orb_true_iff in H as [H | H].
  - apply Z.ltb_lt in H. now rewrite (proj2 (Z.compare_lt_iff _ _) H).
  - apply andb_true_iff in H as [H1 H2].
    apply Z.eqb_eq in H1. apply Pos.leb_le in H2. subst ex.
    rewrite Z.compare_refl.
    change (Pos.compare_cont Eq m mB) with (Pos.compare m mB).
    destruct (Pos.compare_spec m mB); try reflexivity. lia.
Qed.

(** The digits of a product. *)
Lemma Zdigits2_mul (a b : Z) :
  0 < a -> 0 < b -> Zdigits2 a + Zdigits2 b - 1 <= Zdigits2 (a * b).
Proof.
  intros Ha Hb.
  destruct (Z_le_gt_dec (Zdigits2 a + Zdigits2 b - 1) (Zdigits2 (a * b))) as [H | H];
    [exact H | exfalso].
  pose proof (Zdigits2_lower a Ha) as H1.
  pose proof (Zdigits2_lower b Hb) as H2.
  pose proof (Zdigits2_above (a * b) ltac:(nia)) as H3.
  pose proof (Zdigits2_log2 a Ha). pose proof (Zdigits2_log2 b Hb).
  pose proof (Z.log2_nonneg a). pose proof (Z.log2_nonneg b).
  pose proof (Zdigits2_not_negative (a * b)).
  assert (Hpow : 2 ^ Zdigits2 (a * b) <= 2 ^ (Zdigits2 a - 1 + (Zdigits2 b - 1)))
    by (apply Z.pow_le_mono_r; lia).
  rewrite Z.pow_add_r in Hpow by lia.
  nia.
Qed.

(** The product of a number within [Bx] and a positive number [y] of the
    format is within [B], when [Bx * y <= B]. *)
Lemma SFmul_within (mBx : positive) (eBx : Z) (my : positive) (ey : Z)
      (mB : positive) (eB : Z) (f : spec_float) :
  canonical_mantissa prec emax mBx eBx = true ->
  bounded prec emax my ey = true ->
  bounded prec emax mB eB = true ->
  eBx + ey <= eB ->
  Zpos mBx * Zpos my <= Zpos mB * 2 ^ (eB - eBx - ey) ->
  valid_binary f = true ->
  within mBx eBx f = true ->
  within mB eB (SFmul prec emax f (S754_finite false my ey)) = true.
Proof.
  intros HBx Hy HB He Hv Hf H.
  apply andb_true_iff in Hy as [Hy _]. apply andb_true_iff in HB as [HB HB'].
  apply Z.leb_le in HB'.
  destruct f as [[] | [] | | [] mx ex]; try discriminate H; [reflexivity |].
  cbn [valid_binary] in Hf. apply andb_true_iff in Hf as [Hf _].
  destruct (within_below mBx eBx mx ex HBx Hf H) as (_ & Hex & Hmx).
  cbn [SFmul xorb].
  apply binary_round_aux_below; [exact HB | exact HB' | | | reflexivity].
  - repeat split; [lia | lia |].
    replace (eB - (ex + ey)) with (eB - eBx - ey + (eBx - ex)) by lia.
    rewrite Z.pow_add_r by lia.
    assert (0 < 2 ^ (eBx - ex)) by (apply Z.pow_pos_nonneg; lia).
    rewrite Pos2Z.inj_mul. nia.
  - destruct (canonical_facts mx ex Hf) as (Hdx & Hex' & Hnx).
    destruct (canonical_facts my ey Hy) as (Hdy & Hey' & Hny).
    pose proof (Zdigits2_mul (Zpos mx) (Zpos my) ltac:(lia) ltac:(lia)) as Hd.
    cbn [Zdigits2] in Hd. rewrite Pos2Z.inj_mul.
    change (Zdigits2 (Zpos mx * Zpos my)) with (Zdigits2 (Zpos (mx * my))) in *.
    unfold fexp, emin, prec, emax.
    assert (0 < Zpos (digits2_pos mx)) by lia.
    assert (0 < Zpos (digits2_pos my)) by lia.
    lia.
Qed.

(** A division without a remainder is exact. *)
Lemma new_location_zero (nb_steps : Z) : new_location nb_steps 0 = loc_Exact.
Proof.
  unfold new_location, new_location_even, new_location_odd.
  now destruct (Z.even nb_steps).
Qed.

(** The digits of a quotient. *)
Lemma Zdigits2_div (a b : Z) :
  0 < a -> 0 < b -> Zdigits2 a - Zdigits2 b <= Zdigits2 (a / b).
Proof.
  intros Ha Hb.
  pose proof (Zdigits2_not_negative (a / b)) as H0.
  destruct (Z_le_gt_dec (Zdigits2 a - Zdigits2 b) 0) as [H | H]; [lia |].
  destruct (Z_le_gt_dec (Zdigits2 a - Zdigits2 b) (Zdigits2 (a / b))) as [H' | H'];
    [exact H' | exfalso].
  pose proof (Zdigits2_lower a Ha) as H1.
  pose proof (Zdigits2_above b ltac:(lia)) as H2.
  pose proof (Zdigits2_not_negative b) as H3.
  assert (Hq : 2 ^ (Zdigits2 a - Zdigits2 b - 1) <= a / b).
  { apply Z.div_le_lower_bound; [lia |].
    replace (Zdigits2 a - 1) with (Zdigits2 b + (Zdigits2 a - Zdigits2 b - 1)) in H1 by lia.
    rewrite Z.pow_add_r in H1 by lia.
    assert (0 < 2 ^ (Zdigits2 a - Zdigits2 b - 1)) by (apply Z.pow_pos_nonneg; lia).
    nia. }
  pose proof (Zdigits2_above (a / b) ltac:(apply Z.div_pos; lia)) as H4.
  assert (Hpow : 2 ^ Zdigits2 (a / b) <= 2 ^ (Zdigits2 a - Zdigits2 b - 1))
    by (apply Z.pow_le_mono_r; lia).
  lia.
Qed.

(** The quotient of a number within [Bx] by a positive number [y] of the
    format is within [B], when [Bx <= B * y]. *)
Lemma SFdiv_within (mBx : positive) (eBx : Z) (my : positive) (ey : Z)
      (mB : positive) (eB : Z) (f : spec_float) :
  canonical_mantissa prec emax mBx eBx = true ->
  bounded prec emax my ey = true ->
  bounded prec emax mB eB = true ->
  fexp prec emax (Zpos (digits2_pos mBx) + eBx - (Zpos (digits2_pos my) + ey)) <= eB ->
  eB + ey <= eBx ->
  Zpos mBx * 2 ^ (eBx - eB - ey) <= Zpos mB * Zpos my ->
  valid_binary f = true ->
  within mBx eBx f = true ->
  within mB eB (SFdiv prec emax f (S754_finite false my ey)) = true.
Proof.
  intros HBx Hy HB Hfexp He Hv Hf H.
  apply andb_true_iff in HB as [HB HB']. apply Z.leb_le in HB'.
  destruct f as [[] | [] | | [] mx ex]; try discriminate H; [reflexivity |].
  cbn [valid_binary] in Hf. apply andb_true_iff in Hf as [Hf _].
  destruct (within_below mBx eBx mx ex HBx Hf H) as (_ & Hex & Hmx).
  cbn [SFdiv xorb]. unfold SFdiv_core_binary. cbn [Zdigits2].
  set (d1 := Zpos (digits2_pos mx)). set (d2 := Zpos (digits2_pos my)).
  set (e' := Z.min (fexp prec emax (d1 + ex - (d2 + ey))) (ex - ey)).
  set (s := ex - ey - e').
  assert (Hs : 0 <= s) by (unfold s, e'; lia).
  set (m' := match s with Zpos _ => Z.shiftl (Zpos mx) s | Z0 => Zpos mx | Zneg _ => 0 end).
  assert (Hm' : m' = Zpos mx * 2 ^ s).
  { unfold m'. destruct s as [| q | q] eqn:Es; [cbn; lia | | lia].
    apply Z.shiftl_mul_pow2. lia. }
  assert (Hspos : 0 < 2 ^ s) by (apply Z.pow_pos_nonneg; lia).
  pose proof (Z_div_mod m' (Zpos my) ltac:(lia)) as Hdiv.
  pose proof (Zdigits2_div m' (Zpos my) ltac:(nia) ltac:(lia)) as Hdig.
  unfold Z.div in Hdig.
  destruct (Z.div_eucl m' (Zpos my)) as [q r]. destruct Hdiv as [Hqr Hr].
  cbn [fst] in Hdig.
  assert (Hd1 : d1 + ex <= Zpos (digits2_pos mBx) + eBx).
  { assert (d1 <= Zpos (digits2_pos mBx) + (eBx - ex)); [| lia].
    apply (Zdigits2_below (Zpos mx)); [lia | lia |].
    pose proof (mantissa_bounds mBx) as [_ Hu].
    rewrite Z.pow_add_r by lia.
    assert (0 < 2 ^ (eBx - ex)) by (apply Z.pow_pos_nonneg; lia). nia. }
  assert (He' : e' <= eB).
  { pose proof (fexp_mono prec emax (d1 + ex - (d2 + ey))
                  (Zpos (digits2_pos mBx) + eBx - (Zpos (digits2_pos my) + ey))
                  ltac:(unfold d2; lia)).
    unfold e'. lia. }
  assert (Hq0 : 0 <= q) by nia.
  assert (Hscale : Zpos mBx * 2 ^ (eBx - ex) * 2 ^ s
                   <= Zpos mB * Zpos my * 2 ^ (eB - e')).
  { rewrite <- Z.mul_assoc, <- Z.pow_add_r by lia.
    replace (eBx - ex + s) with (eBx - eB - ey + (eB - e')) by (unfold s; lia).
    rewrite Z.pow_add_r by lia.
    assert (0 < 2 ^ (eB - e')) by (apply Z.pow_pos_nonneg; lia). nia. }
  assert (Hqle : q * Zpos my <= Zpos mB * 2 ^ (eB - e') * Zpos my) by nia.
  apply binary_round_aux_below; [exact HB | exact HB' | | |].
  - repeat split; [exact Hq0 | exact He' | nia].
  - assert (Hm'dig : Zdigits2 m' = d1 + s).
    { rewrite Hm', Zdigits2_log2, Z.log2_mul_pow2 by lia.
      unfold d1. change (Zpos (digits2_pos mx)) with (Zdigits2 (Zpos mx)).
      rewrite (Zdigits2_log2 (Zpos mx)) by lia. lia. }
    rewrite Hm'dig in Hdig. cbn [Zdigits2] in Hdig. fold d2 in Hdig.
    pose proof (fexp_mono prec emax (d1 + ex - (d2 + ey)) (Zdigits2 q + e')
                  ltac:(unfold s in Hdig; lia)).
    unfold e' in *. lia.
  - intros E. assert (r = 0) by nia. subst r. apply new_location_zero.
Qed.

(** Appending [d] zero bits multiplies by [2^d]. *)
Lemma iter_xO (m d : positive) : Zpos (Pos.iter xO m d) = Zpos m * 2 ^ Zpos d.
Proof.
  induction d as [| d IH] using Pos.peano_ind.
  - cbn [Pos.iter]. lia.
  - rewrite Pos.iter_succ, Pos2Z.inj_xO, IH, Pos2Z.inj_succ, Z.pow_succ_r by lia. ring.
Qed.

(** [shl_align] lowers the exponent to [ex'] when that is below [ex], and
    keeps the value. *)
Lemma shl_align_spec (m : positive) (ex ex' : Z) :
  exists m', shl_align m ex ex' = (m', ex - Z.max (ex - ex') 0)
             /\ Zpos m' = Zpos m * 2 ^ Z.max (ex - ex') 0.
Proof.
  unfold shl_align. destruct (ex' - ex) as [| d | d] eqn:E.
  - exists m. replace (Z.max (ex - ex') 0) with 0 by lia.
    rewrite Z.sub_0_r, Z.pow_0_r. split; [reflexivity | lia].
  - exists m. replace (Z.max (ex - ex') 0) with 0 by lia.
    rewrite Z.sub_0_r, Z.pow_0_r. split; [reflexivity | lia].
  - exists (Pos.iter xO m d). replace (Z.max (ex - ex') 0) with (Zpos d) by lia.
    split; [f_equal; lia | apply iter_xO].
Qed.

(** Adding a positive number [c] of the format to a negative number whose
    magnitude is at most [c] gives a number within [c]. *)
Lemma SFadd_within (mc : positive) (ec : Z) (mx : positive) (ex : Z) :
  bounded prec emax mc ec = true ->
  canonical_mantissa prec emax mx ex = true ->
  within mc ec (S754_finite false mx ex) = true ->
  within mc ec (SFadd prec emax (S754_finite true mx ex) (S754_finite false mc ec)) = true.
Proof.
  intros Hc Hx H.
  apply andb_true_iff in Hc as [Hc Hc']. apply Z.leb_le in Hc'.
  destruct (within_below mc ec mx ex Hc Hx H) as (_ & Hex & Hmx).
  cbn [SFadd]. replace (Z.min ex ec) with ex by lia.
  destruct (shl_align_spec mx ex ex) as (mx' & -> & Hmx').
  destruct (shl_align_spec mc ec ex) as (mc' & -> & Hmc').
  cbn [fst cond_Zopp]. rewrite Hmx', Hmc'.
  replace (Z.max (ex - ex) 0) with 0 by lia.
  replace (Z.max (ec - ex) 0) with (ec - ex) by lia.
  rewrite Z.pow_0_r, Z.mul_1_r.
  destruct (- Zpos mx + Zpos mc * 2 ^ (ec - ex)) as [| z | z] eqn:Ez; [reflexivity | | lia].
  cbn [binary_normalize]. unfold binary_round.
  set (F := fexp prec emax (Zpos (digits2_pos z) + ex)).
  destruct (shl_align_spec z ex F) as (mz & -> & Hmz).
  set (k := Z.max (ex - F) 0) in *.
  assert (Hk : 0 < 2 ^ k) by (apply Z.pow_pos_nonneg; lia).
  apply binary_round_aux_below; [exact Hc | exact Hc' | | | reflexivity].
  - repeat split; [lia | lia |].
    rewrite Hmz. replace (ec - (ex - k)) with (ec - ex + k) by lia.
    rewrite Z.pow_add_r by lia. nia.
  - cbn [Zdigits2].
    change (Zpos (digits2_pos mz)) with (Zdigits2 (Zpos mz)).
    rewrite Hmz, Zdigits2_log2, Z.log2_mul_pow2 by lia.
    pose proof (Zdigits2_log2 (Zpos z) ltac:(lia)) as Hz. cbn [Zdigits2] in Hz.
    replace (k + Z.log2 (Zpos z) + 1 + (ex - k)) with (Zpos (digits2_pos z) + ex) by lia.
    fold F. lia.
Qed.

(** A number within [B] is within every bound that [B] is within. *)
Lemma within_trans (mB : positive) (eB : Z) (mC : positive) (eC : Z) (f : spec_float) :
  within mB eB f = true ->
  within mC eC (S754_finite false mB eB) = true ->
  within mC eC f = true.
Proof.
  destruct f as [[] | [] | | [] m ex]; cbn [within]; intros H H'; try discriminate H;
    try reflexivity.
  rewrite !orb_true_iff, !andb_true_iff, !Z.ltb_lt, !Z.eqb_eq, !Pos.leb_le in *. lia.
Qed.

(** A positive number below or equal to a positive bound is within it. *)
Lemma SFleb_within (mB : positive) (eB : Z) (m : positive) (ex : Z) :
  SFleb (S754_finite false m ex) (S754_finite false mB eB) = true ->
  within mB eB (S754_finite false m ex) = true.
Proof.
  unfold SFleb, SFcompare. cbn [within].
  change (Pos.compare_cont Eq m mB) with (Pos.compare m mB).
  destruct (Z.compare_spec ex eB) as [E | E | E]; intros H; try discriminate H.
  - rewrite (proj2 (Z.eqb_eq _ _) E). cbn [andb]. apply orb_true_iff. right.
    apply Pos.leb_le. destruct (Pos.compare_spec m mB); try discriminate H; lia.
  - apply orb_true_iff. left. now apply Z.ltb_lt.
Qed.

(** The order of two negative numbers is the reverse order of their
    magnitudes. *)
Lemma SFleb_opp (m : positive) (ex : Z) (mB : positive) (eB : Z) :
  SFleb (S754_finite true mB eB) (S754_finite true m ex)
  = SFleb (S754_finite false m ex) (S754_finite false mB eB).
Proof.
  unfold SFleb, SFcompare.
  change (Pos.compare_cont Eq mB m) with (Pos.compare mB m).
  change (Pos.compare_cont Eq m mB) with (Pos.compare m mB).
  rewrite (Z.compare_antisym ex eB), (Pos.compare_antisym m mB).
  destruct (Z.compare ex eB); cbn [CompOpp]; try reflexivity.
  destruct (Pos.compare m mB); reflexivity.
Qed.

(** The sign of a quotient follows the sign of the dividend. *)
Lemma SFdiv_opp_l (f g : spec_float) :
  SFdiv prec emax (SFopp f) g = SFopp (SFdiv prec emax f g).
Proof.
  destruct f as [sf | sf | | sf mf ef], g as [sg | sg | | sg mg eg]; cbn [SFdiv SFopp];
    rewrite <- ?negb_xorb_l; try reflexivity.
  destruct (SFdiv_core_binary prec emax (Zpos mf) ef (Zpos mg) eg) as [[mz ez] lz].
  apply binary_round_aux_opp.
Qed.

Lemma valid_binary_opp (f : spec_float) : valid_binary (SFopp f) = valid_binary f.
Proof. now destruct f. Qed.
End Binary64Bounds.

(** ** The range of the angle of a line *)

Section AngleRange.
Local Open Scope float_scope.

Ltac by_computation := apply Z.leb_le; vm_compute; reflexivity.

(** A product of two numbers of the format is a number of the format or a
    special value: it is the image of a binary64 float. *)
Lemma SFmul_valid (f g : spec_float) :
  valid_binary f = true -> valid_binary g = true ->
  valid_binary (SFmul prec emax f g) = true.
Proof.
  intros Hf Hg.
  rewrite <- (Prim2SF_SF2Prim f Hf), <- (Prim2SF_SF2Prim g Hg).
  change (SFmul prec emax) with SF64mul. rewrite <- mul_spec.
  apply Prim2SF_valid.
Qed.

(** An angle of at most [CV_PI] radians is at most 201 degrees after the
    two roundings of the conversion. *)
Lemma degrees_within (m : positive) (ex : Z) :
  valid_binary (S754_finite false m ex) = true ->
  SFleb (S754_finite false m ex) (Prim2SF CV_PI) = true ->
  within 7072058789855232 (-45)
         (SFdiv prec emax (SFmul prec emax (S754_finite false m ex) (Prim2SF 180))
                (Prim2SF CV_PI)) = true.
Proof.
  intros Hv H.
  change (Prim2SF CV_PI) with (S754_finite false 7074237752028440 (-51)) in *.
  change (Prim2SF 180) with (S754_finite false 6333186975989760 (-45)).
  apply SFleb_within in H.
  assert (H1 : within 5541538603991040 (-43)
                 (SFmul prec emax (S754_finite false m ex)
                        (S754_finite false 6333186975989760 (-45))) = true).
  { apply (SFmul_within 7074237752028440 (-51)); try reflexivity; try assumption;
      by_computation. }
  apply (SFdiv_within 5541538603991040 (-43)); try reflexivity; try assumption;
    try by_computation.
  now apply SFmul_valid.
Qed.

(** The range of the normalised angle: for an arctangent between [-CV_PI]
    and [CV_PI] the angle in degrees, shifted by 360 when negative, lies
    between 0 and 360, both included. *)
Lemma normalised_angle_range (r : float) :
  (- CV_PI <=? r) = true -> (r <=? CV_PI) = true ->
  let angle := r * 180 / CV_PI in
  let result := if angle <? 0 then angle + 360 else angle in
  (0 <=? result) = true /\ (result <=? 360) = true.
Proof.
  intros Hlow Hhigh angle result. subst result.
  assert (H201 : within 6333186975989760 (-44)
                        (S754_finite false 7072058789855232 (-45)) = true) by reflexivity.
  rewrite leb_spec in Hlow, Hhigh.
  rewrite ltb_spec, !leb_spec.
  change (Prim2SF 0) with (S754_zero false).
  change (Prim2SF 360) with (S754_finite false 6333186975989760 (-44)).
  assert (Ha : Prim2SF angle
               = SFdiv prec emax (SFmul prec emax (Prim2SF r) (Prim2SF 180)) (Prim2SF CV_PI)).
  { unfold angle. now rewrite div_spec, mul_spec. }
  pose proof (Prim2SF_valid r) as Hv.
  revert Hlow Hhigh Ha Hv.
  destruct (Prim2SF r) as [s | s | | s m ex]; intros Hlow Hhigh Ha Hv.
  - (* a zero *)
    assert (E : Prim2SF angle = S754_zero s) by (rewrite Ha; destruct s; reflexivity).
    rewrite E. replace (SFltb (S754_zero s) (S754_zero false)) with false
      by (now destruct s).
    rewrite E. now destruct s.
  - destruct s; discriminate.
  - discriminate.
  - destruct s.
    + (* a negative arctangent *)
      change (Prim2SF (- CV_PI)) with (S754_finite true 7074237752028440 (-51)) in Hlow.
      rewrite SFleb_opp in Hlow.
      pose proof (degrees_within m ex Hv Hlow) as Hw.
      change (S754_finite true m ex) with (SFopp (S754_finite false m ex)) in Ha.
      rewrite SFmul_opp_l, SFdiv_opp_l in Ha.
      assert (Hv2 : valid_binary (SFdiv prec emax
                       (SFmul prec emax (S754_finite false m ex) (Prim2SF 180))
                       (Prim2SF CV_PI)) = true).
      { rewrite <- valid_binary_opp, <- Ha. apply Prim2SF_valid. }
      destruct (SFdiv prec emax _ (Prim2SF CV_PI)) as [[] | [] | | [] m2 e2];
        try discriminate Hw; cbn [SFopp negb] in Ha; rewrite Ha.
      * replace (SFltb (S754_zero true) (S754_zero false)) with false by reflexivity.
        rewrite Ha. split; reflexivity.
      * replace (SFltb (S754_finite true m2 e2) (S754_zero false)) with true by reflexivity.
        rewrite add_spec, Ha.
        change (Prim2SF 360) with (S754_finite false 6333186975989760 (-44)).
        assert (H360 : within 6333186975989760 (-44)
                         (SF64add (S754_finite true m2 e2)
                                  (S754_finite false 6333186975989760 (-44))) = true).
        { apply SFadd_within; [reflexivity | |].
          - cbn [valid_binary] in Hv2. now apply andb_true_iff in Hv2 as [Hv2 _].
          - exact (within_trans _ _ _ _ _ Hw H201). }
        split; [now apply (within_not_negative 6333186975989760 (-44))
               | now apply within_leb].
    + (* a positive arctangent *)
      pose proof (degrees_within m ex Hv Hhigh) as Hw.
      rewrite <- Ha in Hw.
      pose proof (within_trans _ _ _ _ _ Hw H201) as Hw'.
      replace (SFltb (Prim2SF angle) (S754_zero false)) with false.
      * split; [now apply (within_not_negative 6333186975989760 (-44))
               | now apply within_leb].
      * destruct (Prim2SF angle) as [[] | [] | | [] m2 e2]; try discriminate Hw;
          reflexivity.
Qed.
End AngleRange.

(** ** Differences and their truncation *)

Section Differences.
Local Open Scope Z_scope.

Lemma SFltb_SFleb (f g : spec_float) : SFltb f g = true -> SFleb f g = true.
Proof.
  rewrite SFltb_rank, SFleb_rank. intros (u & v & Hu & Hv & H).
  exists u, v. auto using lex_lt_le.
Qed.

(** Rounding with the sign bit set gives no positive number. *)
Lemma binary_round_negative (m : positive) (ex : Z) :
  not_positive (binary_round prec emax true m ex) = true.
Proof.
  unfold binary_round. destruct (shl_align m ex _) as [mz ez].
  unfold binary_round_aux.
  destruct (shr_fexp prec emax (Zpos mz) ez loc_Exact) as [mrs' e'].
  destruct (shr_fexp prec emax _ e' loc_Exact) as [mrs'' e''].
  destruct (shr_m mrs'') as [| m' | m']; try reflexivity.
  destruct (Z.leb e'' (emax - prec)); reflexivity.
Qed.

(** The difference of a number and a larger one is not positive. *)
Lemma SFsub_not_positive (f g : spec_float) :
  valid_binary f = true -> valid_binary g = true ->
  SFltb f g = true -> not_positive (SFsub prec emax f g) = true.
Proof.
  intros Hf Hg H.
  destruct f as [sf | sf | | sf mf ef], g as [sg | sg | | sg mg eg];
    try discriminate H; try (destruct sf; try destruct sg; (discriminate H || reflexivity)).
  cbn [valid_binary] in Hf, Hg.
  apply andb_true_iff in Hf as [Hf _]. apply andb_true_iff in Hg as [Hg _].
  cbn [SFsub].
  destruct (shl_align_spec mf ef (Z.min ef eg)) as (mf' & -> & Hmf).
  destruct (shl_align_spec mg eg (Z.min ef eg)) as (mg' & -> & Hmg).
  cbn [fst].
  assert (Hz : cond_Zopp sf (Zpos mf') - cond_Zopp sg (Zpos mg') <= 0).
  { rewrite Hmf, Hmg. destruct sf, sg; cbn [cond_Zopp]; try discriminate H.
    - apply SFltb_SFleb in H. rewrite SFleb_opp in H. apply SFleb_within in H.
      destruct (within_below mf ef mg eg Hf Hg H) as (_ & He & Hm).
      replace (Z.max (ef - Z.min ef eg) 0) with (ef - eg) by lia.
      replace (Z.max (eg - Z.min ef eg) 0) with 0 by lia.
      rewrite Z.pow_0_r. lia.
    - assert (0 < 2 ^ Z.max (ef - Z.min ef eg) 0) by (apply Z.pow_pos_nonneg; lia).
      assert (0 < 2 ^ Z.max (eg - Z.min ef eg) 0) by (apply Z.pow_pos_nonneg; lia).
      nia.
    - apply SFltb_SFleb, SFleb_within in H.
      destruct (within_below mg eg mf ef Hg Hf H) as (_ & He & Hm).
      replace (Z.max (eg - Z.min ef eg) 0) with (eg - ef) by lia.
      replace (Z.max (ef - Z.min ef eg) 0) with 0 by lia.
      rewrite Z.pow_0_r. lia. }
  destruct (cond_Zopp sf (Zpos mf') - cond_Zopp sg (Zpos mg')) as [| z | z];
    [reflexivity | lia |].
  apply binary_round_negative.
Qed.

(** The truncation of a number that is not positive is not positive; out of
    the range of [int] it is [INT_MIN]. *)
Lemma to_int_not_positive (d : float) :
  not_positive (Prim2SF d) = true -> to_int d <= 0.
Proof.
  unfold to_int, INT_MIN.
  destruct (Prim2SF d) as [s | [] | | [] m ex]; intros H; try discriminate H; try lia.
  set (t := match ex with
            | 0 => Zpos m
            | Zpos q => Zpos m * 2 ^ Zpos q
            | Zneg q => Zpos m / 2 ^ Zpos q
            end).
  assert (0 <= t).
  { unfold t. destruct ex as [| q | q]; [lia | |].
    - apply Z.mul_nonneg_nonneg; [lia | apply Z.pow_nonneg; lia].
    - apply Z.div_pos; [lia |]. apply Z.pow_pos_nonneg; lia. }
  destruct (_ && _); lia.
Qed.

Local Open Scope float_scope.

Lemma sub_not_positive (a b : float) :
  (a <? b) = true -> not_positive (Prim2SF (a - b)) = true.
Proof.
  intros H. rewrite ltb_spec in H. rewrite sub_spec.
  apply SFsub_not_positive; auto using Prim2SF_valid.
Qed.

Lemma positive_not_not_positive (d : float) :
  (0 <? d) = true -> not_positive (Prim2SF d) = false.
Proof.
  rewrite ltb_spec. change (Prim2SF 0) with (S754_zero false).
  destruct (Prim2SF d) as [s | [] | | [] m ex]; intros H; try discriminate H; reflexivity.
Qed.

(** A positive number below 1 is truncated to 0. *)
Lemma to_int_fraction (d : float) :
  (0 <? d) = true -> (d <? 1) = true -> to_int d = 0%Z.
Proof.
  rewrite !ltb_spec. unfold to_int.
  pose proof (Prim2SF_valid d) as Hv.
  change (Prim2SF 0) with (S754_zero false).
  change (Prim2SF 1) with (S754_finite false 4503599627370496 (-52)).
  destruct (Prim2SF d) as [s | s | | s m ex]; intros H0 H1; try discriminate H0;
    try (destruct s; discriminate).
  destruct s; [discriminate H0 |].
  cbn [valid_binary] in Hv. apply andb_true_iff in Hv as [Hv _].
  destruct (canonical_facts m ex Hv) as (Hd & _ & _).
  pose proof (mantissa_bounds m) as [_ Hu].
  assert (Hu' : (Zpos m < 2 ^ 53)%Z).
  { eapply Z.lt_le_trans; [exact Hu |]. apply Z.pow_le_mono_r; lia. }
  apply SFltb_rank in H1 as (u & v & Eu & Ev & Hlt).
  cbn [rank] in Eu, Ev. injection Eu as <-. injection Ev as <-.
  cbn [lex_lt] in Hlt.
  assert (Hm : (ex < 0 /\ Zpos m < 2 ^ (- ex))%Z).
  { destruct (Z.eq_dec ex (-52)) as [-> | Hne].
    - split; [lia |]. change (2 ^ (- -52))%Z with 4503599627370496%Z. lia.
    - split; [lia |]. eapply Z.lt_le_trans; [exact Hu' |].
      apply Z.pow_le_mono_r; lia. }
  destruct Hm as [Hneg Hsmall].
  destruct ex as [| q | q]; try lia.
  change (- Zneg q)%Z with (Zpos q) in Hsmall.
  rewrite Z.div_small by lia. reflexivity.
Qed.
End Differences.

(** ** Angles: the opposite angle, the range and the intervals *)

Section AngleClaims.
Local Open Scope float_scope.

(** For [angle2 < angle3] the truncated difference is not positive, and the
    second branch is taken. *)
Lemma isAngleBetween_ascending (angle1 angle2 angle3 : float) :
  (angle2 <? angle3) = true ->
  isAngleBetween angle1 angle2 angle3 = (angle2 <? angle1) && (angle1 <? angle3).
Proof.
  intros H. unfold isAngleBetween.
  pose proof (to_int_not_positive _ (sub_not_positive _ _ H)) as Hz.
  pose proof (Z.rem_nonpos (to_int (angle2 - angle3)) 180 ltac:(lia) Hz) as Hr.
  now replace (0 <? Z.rem (to_int (angle2 - angle3)) 180)%Z with false
    by (symmetry; apply Z.ltb_ge; exact Hr).
Qed.

(** Otherwise the second branch accepts nothing: only the first one can. *)
Lemma isAngleBetween_descending (angle1 angle2 angle3 : float) :
  (angle2 <? angle3) = false ->
  isAngleBetween angle1 angle2 angle3
  = (0 <? Z.rem (to_int (angle2 - angle3)) 180)%Z
    && ((angle3 <? angle1) && (angle1 <? angle2)).
Proof.
  intros H. unfold isAngleBetween.
  destruct (0 <? Z.rem (to_int (angle2 - angle3)) 180)%Z; [reflexivity |].
  cbn [andb].
  destruct (angle2 <? angle1) eqn:H1; [| reflexivity].
  destruct (angle1 <? angle3) eqn:H2; [| reflexivity].
  now rewrite (ltb_trans _ _ _ H1 H2) in H.
Qed.

(** Two angles less than 1 apart, in descending order: the difference is
    truncated to 0 and every angle is rejected. *)
Lemma isAngleBetween_fraction (angle1 angle2 angle3 : float) :
  (0 <? angle2 - angle3) = true -> (angle2 - angle3 <? 1) = true ->
  isAngleBetween angle1 angle2 angle3 = false.
Proof.
  intros H0 H1.
  assert (H : (angle2 <? angle3) = false).
  { destruct (angle2 <? angle3) eqn:E; [| reflexivity].
    apply sub_not_positive in E. apply positive_not_not_positive in H0. congruence. }
  rewrite (isAngleBetween_descending _ _ _ H), (to_int_fraction _ H0 H1).
  reflexivity.
Qed.

(** C9 (counterexample).  The angles 10.5 and 10 are less than 180 apart
    and 10.25 lies in the shorter arc between them, which
    [isAngleBetween] denies.  The remainders for the differences 1 and 2
    have different parities, and [isAngleBetween] tests the same interval
    for both: whichever parity decides, the decision by the parity is
    another function.  Between 350 and 10, more than 180 apart,
    [isAngleBetween] accepts 180, which is not in the shorter arc. *)
Lemma isAngleBetween_not_shorter_arc :
  ((180 <? abs (10.5 - 10)) = false
   /\ inShorterArc 10.25 10.5 10 = true
   /\ isAngleBetween 10.25 10.5 10 = false)
  /\ (isAngleBetween 11 12 10 = true
      /\ isAngleBetween_byParity true 11 12 10 = false
      /\ isAngleBetween 10.5 11 10 = true
      /\ isAngleBetween_byParity false 10.5 11 10 = false)
  /\ (isAngleBetween 180 350 10 = true
      /\ inShorterArc 180 350 10 = false).
Proof. repeat split. Qed.

(** C9 (amended).  [isAngleBetween(angle1, angle2, angle3)] truncates
    [angle2 - angle3] to an integer and tests [angle3 < angle1 < angle2]
    when the remainder of that integer by 180 is positive, and
    [angle2 < angle1 < angle3] otherwise.  For [angle2 < angle3] it is the
    strict test [angle2 < angle1 < angle3].  Otherwise it is the strict test
    [angle3 < angle1 < angle2] when the remainder is positive and rejects
    every [angle1] when it is not, as for [0 < angle2 - angle3 < 1].
    Whenever it answers true, [angle1] lies strictly between the two
    angles, and so in the shorter arc when they are at most 180 apart, the
    only case in which [isAngleBetweenNonReflex] calls it.  (The conversion
    of a difference outside the range of [int] is the one of [to_int].) *)
Theorem isAngleBetween_intervals :
  (forall angle1 angle2 angle3,
      isAngleBetween angle1 angle2 angle3
      = if (0 <? Z.rem (to_int (angle2 - angle3)) 180)%Z
        then (angle3 <? angle1) && (angle1 <? angle2)
        else (angle2 <? angle1) && (angle1 <? angle3))
  /\ (forall angle1 angle2 angle3,
         (angle2 <? angle3) = true ->
         isAngleBetween angle1 angle2 angle3 = (angle2 <? angle1) && (angle1 <? angle3))
  /\ (forall angle1 angle2 angle3,
         (angle2 <? angle3) = false ->
         isAngleBetween angle1 angle2 angle3
         = (0 <? Z.rem (to_int (angle2 - angle3)) 180)%Z
           && ((angle3 <? angle1) && (angle1 <? angle2)))
  /\ (forall angle1 angle2 angle3,
         (0 <? angle2 - angle3) = true -> (angle2 - angle3 <? 1) = true ->
         isAngleBetween angle1 angle2 angle3 = false)
  /\ (forall angle1 angle2 angle3,
         isAngleBetween angle1 angle2 angle3 = true ->
         strictlyBetween angle1 angle2 angle3 = true)
  /\ (forall angle1 angle2 angle3,
         (180 <? abs (angle2 - angle3)) = false ->
         isAngleBetween angle1 angle2 angle3 = true ->
         inShorterArc angle1 angle2 angle3 = true)
  /\ (forall angle1 angle2 angle3,
         (180 <? abs (angle2 - angle3)) = false ->
         isAngleBetweenNonReflex angle1 angle2 angle3
         = isAngleBetween angle1 angle2 angle3)
  /\ (isAngleBetween 45 0 90 = true
      /\ isAngleBetween 100 10 190 = true
      /\ isAngleBetween 45 90 0 = true
      /\ (Z.rem (to_int (190 - 10)) 180 = 0%Z /\ isAngleBetween 100 190 10 = false)
      /\ (Z.rem (to_int (10.5 - 10)) 180 = 0%Z /\ isAngleBetween 10.25 10.5 10 = false)).
Proof.
  split; [reflexivity |].
  split; [exact isAngleBetween_ascending |].
  split; [exact isAngleBetween_descending |].
  split; [exact isAngleBetween_fraction |].
  split; [exact isAngleBetween_strictlyBetween |].
  split.
  { intros angle1 angle2 angle3 Hguard H. unfold inShorterArc.
    rewrite Hguard. now apply isAngleBetween_strictlyBetween. }
  split.
  { intros angle1 angle2 angle3 Hguard. unfold isAngleBetweenNonReflex.
    now rewrite Hguard. }
  repeat split.
Qed.

(** Instances of the three cases: the angles 0 and 90 in ascending order,
    90 and 0 in descending order, and 10.5 and 10, less than 1 apart. *)
Lemma isAngleBetween_intervals_instances :
  isAngleBetween 45 0 90 = (0 <? 45) && (45 <? 90)
  /\ isAngleBetween 45 90 0
      = (0 <? Z.rem (to_int (90 - 0)) 180)%Z && ((0 <? 45) && (45 <? 90))
  /\ isAngleBetween 10.25 10.5 10 = false.
Proof.
  destruct isAngleBetween_intervals as (_ & H1 & H2 & H3 & _).
  split; [apply H1; reflexivity |].
  split; [apply H2; reflexivity | apply H3; reflexivity].
Defined.

(** C7 (counterexample).  For the direction (1, -2^-100), just below the
    positive x axis, the angle in degrees is negative and adding 360 to it
    gives 360 after rounding: [angleOfLineWrtOxAxis] returns 360, which is
    not in [[0, 360)]. *)
Lemma angleOfLineWrtOxAxis_returns_360 :
  angleOfLineWrtOxAxis (atan2_table below_axis_arctangent)
                       (Point 0 0) (Point 1 (-0x1p-100)) = 360
  /\ (angleOfLineWrtOxAxis (atan2_table below_axis_arctangent)
                           (Point 0 0) (Point 1 (-0x1p-100)) <? 360) = false.
Proof. split; reflexivity. Qed.

(** C7 (amended).  [oppositeAngle] subtracts 180 from an angle above 180 and
    adds 180 to every other one; at 180 it takes the second branch and
    returns 360, not 0.  For an arctangent between [-CV_PI] and [CV_PI],
    [angleOfLineWrtOxAxis] returns an angle between 0 and 360, both
    included: 360 for the direction (1, -2^-100), and 180 for the line from
    (1, 0) to (0, 0), whose opposite angle is therefore 360. *)
Theorem oppositeAngle_and_angle_range :
  (forall angle, (180 <? angle) = true -> oppositeAngle angle = angle - 180)
  /\ (forall angle, (180 <? angle) = false -> oppositeAngle angle = angle + 180)
  /\ oppositeAngle 180 = 360
  /\ (oppositeAngle 180 =? 0) = false
  /\ (forall atan2 a b,
         (- CV_PI <=? atan2 (fsub (y b) (y a)) (fsub (x b) (x a))) = true ->
         (atan2 (fsub (y b) (y a)) (fsub (x b) (x a)) <=? CV_PI) = true ->
         (0 <=? angleOfLineWrtOxAxis atan2 a b) = true
         /\ (angleOfLineWrtOxAxis atan2 a b <=? 360) = true)
  /\ angleOfLineWrtOxAxis (atan2_table below_axis_arctangent)
                          (Point 0 0) (Point 1 (-0x1p-100)) = 360
  /\ angleOfLineWrtOxAxis atan2_principal (Point 1 0) (Point 0 0) = 180
  /\ oppositeAngle (angleOfLineWrtOxAxis atan2_principal (Point 1 0) (Point 0 0))
     = 360.
Proof.
  split; [intros angle H; unfold oppositeAngle; now rewrite H |].
  split; [intros angle H; unfold oppositeAngle; now rewrite H |].
  split; [reflexivity |]. split; [reflexivity |].
  split; [| repeat split].
  intros atan2 a b Hlow Hhigh.
  exact (normalised_angle_range _ Hlow Hhigh).
Qed.

(** The vertical edge from (0, 0) to (0, 1): its arctangent is within the
    bounds, and its angle, 90, within the range. *)
Lemma vertical_edge_angle_in_range :
  (0 <=? angleOfLineWrtOxAxis atan2_principal (Point 0 0) (Point 0 1)) = true
  /\ (angleOfLineWrtOxAxis atan2_principal (Point 0 0) (Point 0 1) <=? 360) = true.
Proof.
  destruct oppositeAngle_and_angle_range as (_ & _ & _ & _ & H & _).
  apply H; reflexivity.
Defined.
End AngleClaims.

(** ** What findMinEnclosingTriangle returns *)

Section ReturnsClaim.
Local Open Scope float_scope.

(** C1 (counterexample).  On the square of side 2^-10 no triangle is
    returned.  On [quadrilateral], with the arctangents of glibc, the
    triangle returned is empty and the area is the initial one.  For the
    single point (2^64, 2^64) the area is a NaN, which is not above or equal
    to 0.  The points (8193, 8193), (8194, 8193), (8193, 8195) are not
    collinear, and in each of their six orders the area returned is 0. *)
Lemma findMinEnclosingTriangle_counterexamples :
  findMinEnclosingTriangle atan2_principal 1 small_square ([], 0)
  = Throw ERR_SIDE_B_GAMMA
  /\ findMinEnclosingTriangle (atan2_table quadrilateral_arctangents) 3
                              quadrilateral ([], 0)
     = Ret ([], DBL_MAX)
  /\ (findMinEnclosingTriangle atan2_principal 0 [Point 0x1p64 0x1p64] ([], 0)
      = Ret ([Point 0x1p64 0x1p64; Point 0x1p64 0x1p64; Point 0x1p64 0x1p64], nan)
      /\ (0 <=? nan) = false)
  /\ (collinear (Point 8193 8193) (Point 8194 8193) (Point 8193 8195) = false
      /\ forallb (fun polygon =>
                    match findMinEnclosingTriangle atan2_principal 0 polygon ([], 0) with
                    | Ret (triangle, area) => (length triangle =? 3)%nat && (area =? 0)
                    | _ => false
                    end)
                 (orders (Point 8193 8193) (Point 8194 8193) (Point 8193 8195))
         = true).
Proof.
  split; [apply small_square_raises |].
  split; [apply quadrilateral_result_is_empty |].
  split; [split; reflexivity |].
  split; vm_compute; reflexivity.
Qed.

(** C1 (amended).  On a polygon of one, two or three vertices
    [findMinEnclosingTriangle] returns three points and their
    [areaOfTriangle]; for one or two vertices the area is 0 or a NaN.  On a
    polygon that is not empty, whenever it returns, the area is not
    negative: it is a number above or equal to 0, or, for at most three
    vertices only, a NaN.  A triangle that is not empty has exactly three
    vertices, and the area is [areaOfTriangle] of them. *)
Theorem findMinEnclosingTriangle_returns
        (atan2 : float -> float -> float) (fuel : nat)
        (polygon : list Point2f) (current : best) :
  polygon <> [] ->
  ((length polygon <= 3)%nat ->
   exists vertexA vertexB vertexC,
     findMinEnclosingTriangle atan2 fuel polygon current
     = Ret ([vertexA; vertexB; vertexC], areaOfTriangle vertexA vertexB vertexC))
  /\ ((length polygon <= 2)%nat ->
      exists triangle area,
        findMinEnclosingTriangle atan2 fuel polygon current = Ret (triangle, area)
        /\ (area = 0 \/ is_nan area = true))
  /\ (forall triangle area,
         findMinEnclosingTriangle atan2 fuel polygon current = Ret (triangle, area) ->
         ((0 <=? area) = true
          \/ ((length polygon <= 3)%nat /\ is_nan area = true))
         /\ (triangle <> [] ->
             exists vertexA vertexB vertexC,
               triangle = [vertexA; vertexB; vertexC]
               /\ area = areaOfTriangle vertexA vertexB vertexC)).
Proof.
  intros Hne.
  assert (Hsmall : (length polygon <= 3)%nat -> (1 <= length polygon <= 3)%nat).
  { destruct polygon; [contradiction | cbn [length]; lia]. }
  assert (Harea : forall a b c,
             is_nan (areaOfTriangle a b c) = false ->
             (0 <=? areaOfTriangle a b c) = true).
  { intros a b c Hn. apply ltb_false_leb; [exact Hn | reflexivity |].
    apply areaOfTriangle_not_negative. }
  split; [| split].
  - intros H. rewrite small_polygon_returns by auto. eauto.
  - intros H.
    destruct polygon as [| p [| q [| r rest]]]; cbn [length] in H; try lia;
      try contradiction; do 2 eexists; (split; [reflexivity |]);
      apply areaOfTriangle_two_points.
  - intros triangle area H.
    destruct (Nat.leb_spec (length polygon) 3) as [Hle | Hgt].
    + rewrite small_polygon_returns in H by auto.
      injection H as <- <-. split; [| eauto].
      destruct (is_nan (areaOfTriangle _ _ _)) eqn:En; [right; auto | left; auto].
    + unfold findMinEnclosingTriangle in H.
      replace (3 <? Z.of_nat (length polygon))%Z with true in H
        by (symmetry; apply Z.ltb_lt; lia).
      apply findMinimumAreaEnclosingTriangle_stored_ok in H.
      destruct H as [H | (vA & vB & vC & H & Hlt)]; injection H as -> ->.
      * split; [left; reflexivity | contradiction].
      * split; [left; apply Harea; eapply ltb_not_nan_l; exact Hlt | eauto].
Qed.

(** The triangle returned on the unit square has three vertices, its area 2
    is their [areaOfTriangle], and it is not negative. *)
Lemma unit_square_returns :
  ((0 <=? 2) = true \/ ((length unit_square <= 3)%nat /\ is_nan 2 = true))
  /\ exists vertexA vertexB vertexC,
      [Point 0 2; Point (-0) (-0); Point 2 0] = [vertexA; vertexB; vertexC]
      /\ 2 = areaOfTriangle vertexA vertexB vertexC.
Proof.
  pose proof (proj2 (proj2 (findMinEnclosingTriangle_returns
                              atan2_principal 2 unit_square ([], 0)
                              ltac:(discriminate)))
                    _ _ unit_square_result) as [H1 H2].
  split; [exact H1 | apply H2; discriminate].
Defined.
End ReturnsClaim.
